(** * MiniShellAgent: the agent loop, the response parser and the safety oracle

    A shallow embedding of the core of [minishellagent] (agents.py, tools.py,
    config.py, and parts of models.py, ui.py and main.py) and the properties
    of its specification.

    Conventions of the embedding.

    - A Python [str] is the Rocq [string] of the bytes of its UTF-8
      encoding, so that the non-ASCII literals of the source (messages and
      keywords in Chinese) are texts like the others, and substring search
      agrees with search on characters.  [len] counts characters.  The
      other library functions ([lower], [strip], [isdigit], the classes of
      [re]) are those of Python on ASCII text, which is what shell
      commands and the JSON syntax are made of, and leave every byte above
      127 as it is; Python also strips the white space outside ASCII and
      folds the letters outside ASCII.  A property that depends on one of
      them for a text therefore takes the text to be ASCII ([is_ascii]).
    - Python integers are [Z].
    - Everything outside the process (the LLM backend, the user at the
      terminal, child processes, the file system) is an oracle of the record
      [Env]; an oracle sees the [World] at the time of the call, so its
      answers may depend on everything that happened before.
    - Every effect that matters to the specification is written to the
      [trace] of the [World], most recent event first.
    - The display is left out: every call of [ui.print_...] is taken to
      return.  The display reads what it prints as console markup and
      raises on a closing tag that it cannot match, which ends the call
      that printed; a text without opening bracket holds no tag
      ([no_markup]).  Where a property depends on a text that is
      printed, what the function returns is stated for texts without
      markup, and what it does to the world for every text: an exception
      of the display only cuts the events short.
    - Left out too: the exceptions that are no [Exception] (an interrupt
      from the keyboard) and those of the interpreter itself (recursion
      depth, the limit on the digits of an integer), and the value of a
      JSON number, of which only the text is kept. *)

From Stdlib Require Import String Ascii List ZArith Bool Lia DecimalString.
Import ListNotations.
Open Scope string_scope.
Open Scope Z_scope.

Set Warnings "-register-all,-abstract-large-number".

(* ================================================================== *)
(** ** Python strings *)

Module PyStr.

Definition is_upper (c : ascii) : bool :=
  let n := nat_of_ascii c in (Nat.leb 65 n && Nat.leb n 90)%bool.

Definition lower_char (c : ascii) : ascii :=
  if is_upper c then ascii_of_nat (nat_of_ascii c + 32) else c.

(** [str.lower()], on ASCII letters *)
Fixpoint lower (s : string) : string :=
  match s with
  | EmptyString => EmptyString
  | String c r => String (lower_char c) (lower r)
  end.

(** [str.isspace()] on one ASCII character: TAB, LF, VT, FF, CR, FS, GS,
    RS, US and the space. *)
Definition isspace (c : ascii) : bool :=
  let n := nat_of_ascii c in
  ((Nat.leb 9 n && Nat.leb n 13) || (Nat.leb 28 n && Nat.leb n 32))%bool.

Fixpoint lstrip (s : string) : string :=
  match s with
  | EmptyString => EmptyString
  | String c r => if isspace c then lstrip r else s
  end.

(** [true] when every character is white space (also for the empty string). *)
Fixpoint all_space (s : string) : bool :=
  match s with
  | EmptyString => true
  | String c r => if isspace c then all_space r else false
  end.

Fixpoint rstrip (s : string) : string :=
  match s with
  | EmptyString => EmptyString
  | String c r => if all_space s then EmptyString else String c (rstrip r)
  end.

(** [str.strip()], of ASCII white space *)
Definition strip (s : string) : string := rstrip (lstrip s).

Definition is_empty (s : string) : bool :=
  match s with EmptyString => true | _ => false end.

(** [s.startswith(p)] *)
Fixpoint startswith (s p : string) : bool :=
  match p, s with
  | EmptyString, _ => true
  | String a p', String b s' => if Ascii.eqb a b then startswith s' p' else false
  | String _ _, EmptyString => false
  end.

(** [p in s] *)
Fixpoint contains (s p : string) : bool :=
  if startswith s p then true
  else match s with
       | EmptyString => false
       | String _ r => contains r p
       end.

(** [s.find(c)] for a one-character needle: [None] stands for [-1]. *)
Fixpoint find_char (c : ascii) (s : string) : option nat :=
  match s with
  | EmptyString => None
  | String a r =>
      if Ascii.eqb a c then Some O
      else match find_char c r with
           | Some i => Some (S i)
           | None => None
           end
  end.

(** [s[n:]] *)
Fixpoint drop (n : nat) (s : string) : string :=
  match n, s with
  | O, _ => s
  | S k, String _ r => drop k r
  | S _, EmptyString => EmptyString
  end.

(** [s[:n]] *)
Fixpoint take (n : nat) (s : string) : string :=
  match n, s with
  | S k, String c r => String c (take k r)
  | _, _ => EmptyString
  end.

(** [s[i:j]] for [0 <= i], [0 <= j]. *)
Definition slice (i j : nat) (s : string) : string := take (j - i) (drop i s).

Fixpoint rev_acc (s acc : string) : string :=
  match s with
  | EmptyString => acc
  | String c r => rev_acc r (String c acc)
  end.

(** [s.split(sep)] for a non-empty separator: [cur] is the piece being
    read, reversed, and [skip] counts the characters of a separator that
    was just recognised and is still to be passed over. *)
Fixpoint split_go (sep : string) (skip : nat) (cur : string) (s : string)
  : list string :=
  match s with
  | EmptyString => [rev_acc cur EmptyString]
  | String c r =>
      match skip with
      | S k => split_go sep k cur r
      | O =>
          if startswith s sep
          then rev_acc cur EmptyString
                 :: split_go sep (Nat.pred (String.length sep)) EmptyString r
          else split_go sep O (String c cur) r
      end
  end.

Definition split (s sep : string) : list string := split_go sep O EmptyString s.

(** [sep.join(l)] *)
Fixpoint join (sep : string) (l : list string) : string :=
  match l with
  | [] => EmptyString
  | [x] => x
  | x :: r => x ++ sep ++ join sep r
  end.

(** [s * n] *)
Fixpoint repeat (s : string) (n : nat) : string :=
  match n with
  | O => EmptyString
  | S k => s ++ repeat s k
  end.

(** [s.endswith(p)] *)
Definition endswith (s p : string) : bool :=
  String.eqb (drop (String.length s - String.length p) s) p
  && Nat.leb (String.length p) (String.length s).

(** A byte [10xxxxxx], which continues a character of more than one byte. *)
Definition is_continuation (c : ascii) : bool :=
  let n := nat_of_ascii c in (Nat.leb 128 n && Nat.leb n 191)%bool.

(** The number of characters of [s]: every byte that continues none. *)
Fixpoint count_chars (s : string) : nat :=
  match s with
  | EmptyString => O
  | String c r => if is_continuation c then count_chars r else S (count_chars r)
  end.

(** [len(s)] *)
Definition len (s : string) : Z := Z.of_nat (count_chars s).

(** [any(p(x) for x in l)]: stops at the first hit. *)
Fixpoint any {A : Type} (p : A -> bool) (l : list A) : bool :=
  match l with
  | [] => false
  | x :: r => if p x then true else any p r
  end.

End PyStr.
Import PyStr.

(* ================================================================== *)
(** ** Regular expressions, as [re.search] uses them

    Matching is by derivatives; only the constructs of
    [Config.DANGEROUS_PATTERNS] are present. *)

Module Re.

Inductive re : Type :=
| Void                       (* matches nothing *)
| Eps                        (* matches the empty string *)
| Cls (p : ascii -> bool)    (* one character of a class *)
| Seq (a b : re)
| Alt (a b : re)
| Star (a : re).

Fixpoint nullable (r : re) : bool :=
  match r with
  | Void => false
  | Eps => true
  | Cls _ => false
  | Seq a b => nullable a && nullable b
  | Alt a b => nullable a || nullable b
  | Star _ => true
  end.

Definition seq (a b : re) : re :=
  match a, b with
  | Void, _ => Void
  | _, Void => Void
  | Eps, _ => b
  | _, _ => Seq a b
  end.

Definition alt (a b : re) : re :=
  match a, b with
  | Void, _ => b
  | _, Void => a
  | _, _ => Alt a b
  end.

Fixpoint deriv (c : ascii) (r : re) : re :=
  match r with
  | Void => Void
  | Eps => Void
  | Cls p => if p c then Eps else Void
  | Seq a b =>
      if nullable a then alt (seq (deriv c a) b) (deriv c b)
      else seq (deriv c a) b
  | Alt a b => alt (deriv c a) (deriv c b)
  | Star a => seq (deriv c a) (Star a)
  end.

(** The whole of [s] matches [r]. *)
Fixpoint fullmatch (r : re) (s : string) : bool :=
  match s with
  | EmptyString => nullable r
  | String c t => fullmatch (deriv c r) t
  end.

Definition is_void (r : re) : bool :=
  match r with Void => true | _ => false end.

(** Some prefix of [s] matches [r]; the reading stops as soon as nothing
    can match any more. *)
Fixpoint prefixmatch (r : re) (s : string) : bool :=
  if nullable r then true
  else if is_void r then false
  else match s with
       | EmptyString => false
       | String c t => prefixmatch (deriv c r) t
       end.

(** [re.search(r, s) is not None] *)
Fixpoint search (r : re) (s : string) : bool :=
  if prefixmatch r s then true
  else match s with
       | EmptyString => false
       | String _ t => search r t
       end.

(** A literal character under [re.IGNORECASE]. *)
Definition chr_i (c : ascii) : re :=
  Cls (fun x => Ascii.eqb (lower_char x) (lower_char c)).

(** A literal text under [re.IGNORECASE]. *)
Fixpoint lit_i (s : string) : re :=
  match s with
  | EmptyString => Eps
  | String c t => Seq (chr_i c) (lit_i t)
  end.

Definition plus (a : re) : re := Seq a (Star a).
Definition opt (a : re) : re := Alt a Eps.

(** [\s] *)
Definition space : re := Cls isspace.

(** [\w] *)
Definition word : re :=
  Cls (fun c =>
         let n := nat_of_ascii c in
         (Nat.leb 48 n && Nat.leb n 57) || (Nat.leb 65 n && Nat.leb n 90)
         || (Nat.leb 97 n && Nat.leb n 122) || Nat.eqb n 95)%bool.

(** [.] (without [re.DOTALL]) *)
Definition dot : re := Cls (fun c => negb (Ascii.eqb c "010"%char)).

(** [[^c]] *)
Definition not_chr (c : ascii) : re := Cls (fun x => negb (Ascii.eqb x c)).

(** [[0-7]] *)
Definition octal : re :=
  Cls (fun c => let n := nat_of_ascii c in (Nat.leb 48 n && Nat.leb n 55)%bool).

Fixpoint alts (l : list re) : re :=
  match l with
  | [] => Void
  | [x] => x
  | x :: r => Alt x (alts r)
  end.

End Re.

(* ================================================================== *)
(** ** config.py *)

Record Config : Type := mkConfig {
  MAX_STEPS : Z;
  MAX_IDLE_STEPS : Z;
  LLM_TIMEOUT : Z;
  SAFE_MODE : bool;
  VERBOSE : bool
}.

(** The values [Config] takes when the environment sets nothing. *)
Definition default_config : Config :=
  {| MAX_STEPS := 10; MAX_IDLE_STEPS := 2; LLM_TIMEOUT := 120;
     SAFE_MODE := true; VERBOSE := false |}.

Definition DANGEROUS_COMMANDS : list string :=
  [ "rm -rf /"; "rm -rf /bin"; "rm -rf /usr"; "rm -rf /etc"; "rm -rf /var";
    "rm -rf /sys"; "rm -rf /proc"; "rm -rf /boot"; "rm -rf /root";
    "mkfs"; "fdisk"; "parted"; "dd if="; "dd of=";
    ":(){:|:&};:";
    "chmod -R 777 /"; "chmod -R 000 /"; "chown -R";
    "sudo rm"; "sudo mkfs"; "sudo fdisk"; "sudo dd"; "sudo chmod"; "sudo chown";
    "systemctl stop"; "systemctl disable"; "service stop";
    "iptables -F"; "iptables -X";
    "export PATH="; "unset PATH" ].

Definition DANGEROUS_PATTERNS : list Re.re :=
  let sys := Re.alts (map Re.lit_i
               ["bin"; "usr"; "etc"; "var"; "sys"; "proc"; "boot"; "root"]) in
  let ops := Re.alts (map Re.lit_i
               ["rm"; "mkfs"; "fdisk"; "dd"; "chmod"; "chown"]) in
  let cat := fold_right Re.Seq Re.Eps in
  [ (* rm\s+-rf\s+/[^/] *)
    cat [Re.lit_i "rm"; Re.plus Re.space; Re.lit_i "-rf"; Re.plus Re.space;
         Re.lit_i "/"; Re.not_chr "/"];
    (* rm\s+-rf\s+/(bin|usr|etc|var|sys|proc|boot|root) *)
    cat [Re.lit_i "rm"; Re.plus Re.space; Re.lit_i "-rf"; Re.plus Re.space;
         Re.lit_i "/"; sys];
    (* mkfs\.?\w*\s+/ *)
    cat [Re.lit_i "mkfs"; Re.opt (Re.lit_i "."); Re.Star Re.word;
         Re.plus Re.space; Re.lit_i "/"];
    (* dd\s+if=.*\s+of=/dev/ *)
    cat [Re.lit_i "dd"; Re.plus Re.space; Re.lit_i "if="; Re.Star Re.dot;
         Re.plus Re.space; Re.lit_i "of=/dev/"];
    (* chmod\s+[0-7]{3}\s+/ *)
    cat [Re.lit_i "chmod"; Re.plus Re.space; Re.octal; Re.octal; Re.octal;
         Re.plus Re.space; Re.lit_i "/"];
    (* sudo\s+(rm|mkfs|fdisk|dd|chmod|chown) *)
    cat [Re.lit_i "sudo"; Re.plus Re.space; ops];
    (* :\(\)\{.*:\|.*&.*\};: *)
    cat [Re.lit_i ":(){"; Re.Star Re.dot; Re.lit_i ":|"; Re.Star Re.dot;
         Re.lit_i "&"; Re.Star Re.dot; Re.lit_i "};:"] ].

(** [Config.is_dangerous_command] *)
Definition is_dangerous_command (cfg : Config) (command : string) : bool :=
  if negb (SAFE_MODE cfg) then false
  else
    let command_lower := strip (lower command) in
    let command_original := strip command in
    (* Layer 1: simple string matching *)
    if any (fun dangerous => contains command_lower (lower dangerous))
           DANGEROUS_COMMANDS then true
    (* Layer 2: regex matching *)
    else if any (fun pattern => Re.search pattern command_lower)
                DANGEROUS_PATTERNS then true
    (* Layer 3: sudo together with a system-critical operation *)
    else if (contains command_lower "sudo"
             && any (fun op => contains command_lower op)
                  ["rm"; "mkfs"; "fdisk"; "dd"; "chmod"; "chown"; "format"; "wipe"])%bool
         then true
    (* Layer 4: recursive rm that names a system directory *)
    else if (contains command_lower "rm"
             && (contains command_lower "-rf" || contains command_lower "-r")
             && any (fun path => contains command_original path)
                  ["/bin"; "/usr"; "/etc"; "/var"; "/sys"; "/proc"; "/boot";
                   "/root"; "/sbin"; "/lib"])%bool
         then true
    else false.

(* ================================================================== *)
(** ** JSON values and [json.loads]

    The decoder follows the standard library's [json.decoder] in strict
    mode: objects, arrays, strings with their escapes, numbers (kept as the
    text that denotes them), the literals, and the four white-space
    characters.  A result of [None] stands for [JSONDecodeError]. *)

Module Json.

Inductive json : Type :=
| JNull
| JBool (b : bool)
| JNum (lexeme : string)
| JStr (s : string)
| JArr (items : list json)
| JObj (members : list (string * json)).

(** A Python [dict] made from the pairs of an object, in source order: a
    later pair with the same key replaces an earlier one. *)
Definition dict : Type := list (string * json).

(** [d.get(k)], [None] when the key is absent *)
Fixpoint dict_get (k : string) (d : dict) : option json :=
  match d with
  | [] => None
  | (k', v) :: r =>
      match dict_get k r with
      | Some x => Some x
      | None => if String.eqb k' k then Some v else None
      end
  end.

(** [k in d] *)
Definition dict_has (k : string) (d : dict) : bool :=
  match dict_get k d with Some _ => true | None => false end.

(** [d.get(k, default)] *)
Definition dict_get_default (k : string) (default : json) (d : dict) : json :=
  match dict_get k d with Some v => v | None => default end.

(** The mantissa of a number's text is made of zeros only. *)
Fixpoint zero_mantissa (s : string) : bool :=
  match s with
  | EmptyString => true
  | String c r =>
      if (Ascii.eqb c "e" || Ascii.eqb c "E")%bool then true
      else if (Ascii.eqb c "0" || Ascii.eqb c "-" || Ascii.eqb c ".")%bool
           then zero_mantissa r
           else false
  end.

(** Python's truth value of a decoded JSON value. *)
Definition truthy (v : json) : bool :=
  match v with
  | JNull => false
  | JBool b => b
  | JNum l => negb (zero_mantissa l)
  | JStr s => negb (is_empty s)
  | JArr l => match l with [] => false | _ => true end
  | JObj d => match d with [] => false | _ => true end
  end.

(** [type(v).__name__] *)
Definition type_name (v : json) : string :=
  match v with
  | JNull => "NoneType"
  | JBool _ => "bool"
  | JNum l =>
      if (contains l "." || contains l "e" || contains l "E"
          || contains l "N" || contains l "I")%bool then "float" else "int"
  | JStr _ => "str"
  | JArr _ => "list"
  | JObj _ => "dict"
  end.

Definition dquote : ascii := "034"%char.
Definition backslash : ascii := "092"%char.

Definition is_ws (c : ascii) : bool :=
  (Ascii.eqb c " " || Ascii.eqb c "009" || Ascii.eqb c "010" || Ascii.eqb c "013")%bool.

Fixpoint skip_ws (s : string) : string :=
  match s with
  | String c r => if is_ws c then skip_ws r else s
  | EmptyString => EmptyString
  end.

Definition is_digit (c : ascii) : bool :=
  let n := nat_of_ascii c in (Nat.leb 48 n && Nat.leb n 57)%bool.

Definition hex_val (c : ascii) : option N :=
  let n := N_of_ascii c in
  if ((48 <=? n) && (n <=? 57))%N%bool then Some (n - 48)%N
  else if ((65 <=? n) && (n <=? 70))%N%bool then Some (n - 55)%N
  else if ((97 <=? n) && (n <=? 102))%N%bool then Some (n - 87)%N
  else None.

Definition hex4 (a b c d : ascii) : option N :=
  match hex_val a, hex_val b, hex_val c, hex_val d with
  | Some x, Some y, Some z, Some w => Some (((x * 16 + y) * 16 + z) * 16 + w)%N
  | _, _, _, _ => None
  end.

(** The UTF-8 bytes of a code point, pushed on a reversed accumulator. *)
Definition push_utf8 (n : N) (acc : string) : string :=
  let byte (k : N) := ascii_of_N k in
  let cont (k : N) := byte (128 + k mod 64)%N in
  if (n <? 128)%N then String (byte n) acc
  else if (n <? 2048)%N then
    String (cont n) (String (byte (192 + n / 64)%N) acc)
  else if (n <? 65536)%N then
    String (cont n) (String (cont (n / 64)%N) (String (byte (224 + n / 4096)%N) acc))
  else
    String (cont n) (String (cont (n / 64)%N) (String (cont (n / 4096)%N)
      (String (byte (240 + n / 262144)%N) acc))).

Definition unescape (c : ascii) : option ascii :=
  if Ascii.eqb c dquote then Some dquote
  else if Ascii.eqb c backslash then Some backslash
  else if Ascii.eqb c "/" then Some "/"%char
  else if Ascii.eqb c "b" then Some "008"%char
  else if Ascii.eqb c "f" then Some "012"%char
  else if Ascii.eqb c "n" then Some "010"%char
  else if Ascii.eqb c "r" then Some "013"%char
  else if Ascii.eqb c "t" then Some "009"%char
  else None.

(** [py_scanstring]: [s] starts just after the opening quote; the result
    is the decoded text and what follows the closing quote. *)
Fixpoint scanstring (s : string) (acc : string) : option (string * string) :=
  match s with
  | EmptyString => None
  | String c r =>
      if Ascii.eqb c dquote then Some (rev_acc acc EmptyString, r)
      else if Ascii.eqb c backslash then
        match r with
        | EmptyString => None
        | String e r1 =>
            if Ascii.eqb e "u" then
              match r1 with
              | String h1 (String h2 (String h3 (String h4 r2))) =>
                  match hex4 h1 h2 h3 h4 with
                  | None => None
                  | Some hi =>
                      match r2 with
                      | String b (String u (String l1 (String l2 (String l3 (String l4 r3))))) =>
                          match hex4 l1 l2 l3 l4 with
                          | Some lo =>
                              if (Ascii.eqb b backslash && Ascii.eqb u "u"
                                  && (55296 <=? hi)%N && (hi <=? 56319)%N
                                  && (56320 <=? lo)%N && (lo <=? 57343)%N)%bool
                              then scanstring r3
                                     (push_utf8 (65536 + (hi - 55296) * 1024 + (lo - 56320))%N acc)
                              else scanstring r2 (push_utf8 hi acc)
                          | None => scanstring r2 (push_utf8 hi acc)
                          end
                      | _ => scanstring r2 (push_utf8 hi acc)
                      end
                  end
              | _ => None
              end
            else
              match unescape e with
              | Some ch => scanstring r1 (String ch acc)
              | None => None
              end
        end
      else if Nat.ltb (nat_of_ascii c) 32 then None
      else scanstring r (String c acc)
  end.

(** The longest run of digits at the head of [s], and the rest. *)
Fixpoint take_digits (s : string) : string * string :=
  match s with
  | String c r =>
      if is_digit c then let '(d, t) := take_digits r in (String c d, t)
      else (EmptyString, s)
  | EmptyString => (EmptyString, EmptyString)
  end.

(** [NUMBER_RE]: an optional minus sign, then 0 or a digit from 1 to 9
    followed by digits; then, optionally, a point and digits; then,
    optionally, e or E, a sign and digits. *)
Definition scan_number (s : string) : option (string * string) :=
  let '(sign, s1) :=
    match s with
    | String "-" r => ("-", r)
    | _ => (EmptyString, s)
    end in
  let int_part :=
    match s1 with
    | String "0" r => Some ("0", r)
    | String c _ => if is_digit c then Some (take_digits s1) else None
    | EmptyString => None
    end in
  match int_part with
  | None => None
  | Some (i, s2) =>
      let '(frac, s3) :=
        match s2 with
        | String "." r =>
            let '(d, t) := take_digits r in
            if is_empty d then (EmptyString, s2) else ("." ++ d, t)
        | _ => (EmptyString, s2)
        end in
      let '(exp, s4) :=
        match s3 with
        | String e r =>
            if (Ascii.eqb e "e" || Ascii.eqb e "E")%bool then
              let '(sg, r1) :=
                match r with
                | String "+" t => ("+", t)
                | String "-" t => ("-", t)
                | _ => (EmptyString, r)
                end in
              let '(d, t) := take_digits r1 in
              if is_empty d then (EmptyString, s3)
              else (String e sg ++ d, t)
            else (EmptyString, s3)
        | EmptyString => (EmptyString, s3)
        end in
      Some (sign ++ i ++ frac ++ exp, s4)
  end.

(** [scan_once] with [JSONObject] and [JSONArray]; [fuel] bounds the
    nesting and the number of members, and the length of the text is
    always enough. *)
Fixpoint parse_value (fuel : nat) (s : string) {struct fuel}
  : option (json * string) :=
  match fuel with
  | O => None
  | S f =>
      match s with
      | EmptyString => None
      | String c r =>
          if Ascii.eqb c dquote then
            match scanstring r EmptyString with
            | Some (t, r1) => Some (JStr t, r1)
            | None => None
            end
          else if Ascii.eqb c "{" then
            if startswith (skip_ws r) "}" then Some (JObj [], drop 1 (skip_ws r))
            else parse_members f (skip_ws r) []
          else if Ascii.eqb c "[" then
            if startswith (skip_ws r) "]" then Some (JArr [], drop 1 (skip_ws r))
            else parse_items f (skip_ws r) []
          else if startswith s "null" then Some (JNull, drop 4 s)
          else if startswith s "true" then Some (JBool true, drop 4 s)
          else if startswith s "false" then Some (JBool false, drop 5 s)
          else
            match scan_number s with
            | Some (l, r1) => Some (JNum l, r1)
            | None =>
                if startswith s "NaN" then Some (JNum "NaN", drop 3 s)
                else if startswith s "Infinity" then Some (JNum "Infinity", drop 8 s)
                else if startswith s "-Infinity" then Some (JNum "-Infinity", drop 9 s)
                else None
            end
      end
  end
(* [s] is at the opening quote of a key; [acc] holds the pairs read so
   far, last first. *)
with parse_members (fuel : nat) (s : string) (acc : dict) {struct fuel}
  : option (json * string) :=
  match fuel with
  | O => None
  | S f =>
      if startswith s (String dquote EmptyString) then
        match scanstring (drop 1 s) EmptyString with
        | None => None
        | Some (k, r1) =>
            if startswith (skip_ws r1) ":" then
              match parse_value f (skip_ws (drop 1 (skip_ws r1))) with
              | None => None
              | Some (v, r3) =>
                  if startswith (skip_ws r3) "}"
                  then Some (JObj (rev ((k, v) :: acc)), drop 1 (skip_ws r3))
                  else if startswith (skip_ws r3) ","
                  then parse_members f (skip_ws (drop 1 (skip_ws r3))) ((k, v) :: acc)
                  else None
              end
            else None
        end
      else None
  end
(* [s] is at the first character of an item. *)
with parse_items (fuel : nat) (s : string) (acc : list json) {struct fuel}
  : option (json * string) :=
  match fuel with
  | O => None
  | S f =>
      match parse_value f s with
      | None => None
      | Some (v, r1) =>
          if startswith (skip_ws r1) "]"
          then Some (JArr (rev (v :: acc)), drop 1 (skip_ws r1))
          else if startswith (skip_ws r1) ","
          then parse_items f (skip_ws (drop 1 (skip_ws r1))) (v :: acc)
          else None
      end
  end.

(** [json.loads(s)] *)
Definition loads (s : string) : option json :=
  match parse_value (S (S (String.length s))) (skip_ws s) with
  | Some (v, r) => if is_empty (skip_ws r) then Some v else None
  | None => None
  end.

(** Test texts are written with ['] for the double quote. *)
Fixpoint dq (s : string) : string :=
  match s with
  | EmptyString => EmptyString
  | String c r => String (if Ascii.eqb c "'" then dquote else c) (dq r)
  end.

End Json.
Import Json.

(* ================================================================== *)
(** ** The world outside the process *)

(** What the process did to the outside, most recent first. *)
Inductive Event : Type :=
| EvLLM                                            (* llm.generate(...) *)
| EvConfirm (message : string) (default answer : bool)   (* ui.confirm(...) *)
| EvInteract                                       (* the dialogue of an interaction request *)
| EvShell (command : string)                       (* execute hands command to a shell *)
| EvSubprocess (shell_cmd : string)                (* subprocess.run(shell_cmd, shell=True) *)
| EvPersistent (command : string)                  (* PersistentShell.execute(command) *)
| EvChdir (path : string).                         (* os.chdir(path) *)

Definition environ : Type := list (string * string).

Record World : Type := mkWorld {
  trace : list Event;
  os_cwd : string;          (* os.getcwd() *)
  os_environ : environ      (* os.environ *)
}.

(** The result of [subprocess.run(..., capture_output=True, text=True,
    timeout=...)]. *)
Inductive ProcOutcome : Type :=
| Completed (returncode : Z) (out err : string)
| TimeoutExpired
| ProcRaised (msg : string).

(** The result of [llm.generate] together with the statistics display that
    shares its [try] block. *)
Inductive LLMOutcome : Type :=
| LLMRaised (error_msg : string)
| LLMNone
| LLMText (response : string).

(** The result of the dialogue that an interaction request opens (agents.py,
    the option list, [ui.select_option] or [ui.input_prompt]): the user's
    reply, empty when none was given, or an exception. *)
Inductive UiOutcome : Type :=
| UiReply (user_response : string)
| UiRaised (msg : string).

Record Message : Type := mkMessage { role : string; content : string }.

Record Env : Type := mkEnv {
  llm_generate : World -> list Message -> LLMOutcome;
  ui_confirm : World -> string -> bool -> bool;
  ui_interact : World -> json -> json -> json -> UiOutcome;
  subprocess_run : World -> string -> ProcOutcome;
  (* a command in the persistent shell: its result and the working directory
     and environment read back from the sidecar files *)
  persistent_execute : World -> string -> (bool * string * string) * string * environ;
  os_path_isdir : World -> string -> bool;
  (* [false] when [os.chdir] raises *)
  os_chdir_ok : World -> string -> bool
}.

Definition log (e : Event) (w : World) : World :=
  mkWorld (e :: trace w) (os_cwd w) (os_environ w).

Definition confirm (E : Env) (message : string) (default : bool) (w : World)
  : bool * World :=
  let answer := ui_confirm E w message default in
  (answer, log (EvConfirm message default answer) w).

Definition run_subprocess (E : Env) (shell_cmd : string) (w : World)
  : ProcOutcome * World :=
  (subprocess_run E w shell_cmd, log (EvSubprocess shell_cmd) w).

(** [try: os.chdir(path) except Exception: pass] *)
Definition chdir (E : Env) (path : string) (w : World) : World :=
  if os_chdir_ok E w path
  then mkWorld (EvChdir path :: trace w) path (os_environ w)
  else w.

(* ================================================================== *)
(** ** tools.py: TerminalTool *)

Record TerminalTool : Type := mkTool {
  safe_mode : bool;
  use_persistent_shell : bool;
  persistent_shell : bool        (* a PersistentShell object, or None *)
}.

(** [TerminalTool.__init__] *)
Definition TerminalTool_init (cfg : Config) (safe_mode use_persistent_shell : bool)
  : TerminalTool :=
  mkTool (safe_mode || SAFE_MODE cfg) use_persistent_shell use_persistent_shell.

Definition msg_empty : string := "命令不能为空".
Definition msg_dangerous (command : string) : string := "危险命令已被阻止: " ++ command.
Definition msg_too_long : string := "命令过长，可能存在安全风险".
Definition msg_injection (command : string) : string := "检测到可能的命令注入: " ++ command.

Definition dangerous_chars_combinations : list (string * string) :=
  [ (";", "rm"); ("&&", "rm"); ("||", "rm"); ("`", "rm"); ("$(", "rm") ].

(** The loops at the end of [validate_command]: some separator is followed
    by a piece that starts with [rm], and safe mode is on. *)
Definition injection_suspected (tool : TerminalTool) (command : string) : bool :=
  let command_lower := lower command in
  any (fun combo : string * string =>
         (contains command (fst combo) && contains command_lower (snd combo)
          && any (fun part =>
                    (startswith (lower (strip part)) (snd combo) && safe_mode tool)%bool)
               (tl (split command (fst combo))))%bool)
      dangerous_chars_combinations.

(** [TerminalTool.validate_command] *)
Definition validate_command (cfg : Config) (tool : TerminalTool) (command : string)
  : bool * string :=
  if (is_empty command || is_empty (strip command))%bool then (false, msg_empty)
  else if (safe_mode tool && is_dangerous_command cfg command)%bool
       then (false, msg_dangerous command)
  else if 10000 <? len command then (false, msg_too_long)
  else if injection_suspected tool command then (false, msg_injection command)
  else (true, "OK").

Definition newline : string := String "010" EmptyString.

Definition ExecResult : Type := (bool * string * string)%type.

(** The persistent-shell path of [execute]. *)
Definition execute_persistent (E : Env) (command : string) (w : World)
  : ExecResult * World :=
  let '(res, cwd, env) := persistent_execute E w command in
  (res, mkWorld (EvPersistent command :: trace w) cwd env).

(** [lines[:-1]] joined by new lines *)
Definition drop_last_line (lines : list string) : string := join newline (removelast lines).

(** The fallback path of [execute]: one child shell per call. *)
Definition execute_fallback (E : Env) (command : string) (w : World)
  : ExecResult * World :=
  let command_lower := lower (strip command) in
  let is_directory_change_cmd :=
    (startswith command_lower "cd " || startswith command_lower "pushd "
     || String.eqb command_lower "popd" || startswith command_lower "popd ")%bool in
  if is_directory_change_cmd then
    let shell_cmd := command ++ " && pwd" in
    let '(result, w1) := run_subprocess E shell_cmd w in
    match result with
    | TimeoutExpired => ((false, "", "Timeout"), w1)
    | ProcRaised e => ((false, "", e), w1)
    | Completed returncode out err =>
        let success := returncode =? 0 in
        let stdout := strip out in
        let stderr := strip err in
        if success then
          let lines := split stdout newline in
          let new_dir := last lines EmptyString in
          let w2 :=
            if (negb (is_empty new_dir) && os_path_isdir E w1 new_dir)%bool
            then chdir E new_dir w1 else w1 in
          let is_pure_dir_cmd :=
            (negb (contains command_lower "&&") && negb (contains command_lower ";")
             && negb (contains command_lower "|"))%bool in
          let more_lines := Nat.ltb 1 (List.length lines) in
          let stdout' :=
            if is_pure_dir_cmd then
              if startswith command_lower "cd " then ""
              else if more_lines then drop_last_line lines else ""
            else
              if more_lines then drop_last_line lines else stdout in
          ((true, stdout', stderr), w2)
        else ((false, stdout, stderr), w1)
    end
  else
    let '(result, w1) := run_subprocess E command w in
    match result with
    | TimeoutExpired => ((false, "", "Timeout"), w1)
    | ProcRaised e => ((false, "", e), w1)
    | Completed returncode out err =>
        let success := returncode =? 0 in
        let stdout := strip out in
        let stderr := strip err in
        (* the working directory is read again with a second child *)
        let '(pwd_result, w2) := run_subprocess E "pwd" w1 in
        let w3 :=
          match pwd_result with
          | Completed rc pwd_out _ =>
              let new_dir := strip pwd_out in
              if ((rc =? 0) && negb (is_empty new_dir) && os_path_isdir E w2 new_dir
                  && negb (String.eqb new_dir (os_cwd w2)))%bool
              then chdir E new_dir w2 else w2
          | _ => w2
          end in
        ((success, stdout, stderr), w3)
    end.

(** The end of [execute]: the command goes to a shell. *)
Definition execute_run (E : Env) (tool : TerminalTool) (command : string) (w : World)
  : ExecResult * World :=
  let w := log (EvShell command) w in
  if (use_persistent_shell tool && persistent_shell tool)%bool
  then execute_persistent E command w
  else execute_fallback E command w.

Definition high_risk_keywords : list string :=
  [ "rm -rf"; "mkfs"; "fdisk"; "dd if="; "dd of="; "format"; "wipe" ].

Definition prompt_sudo : string := "确认执行此sudo命令？".
Definition prompt_high_risk : string := "确认执行此高风险命令？".
Definition prompt_normal : string := "是否执行此命令？".

(** [if needed: if not ui.confirm(message, default=default): return ...]:
    the answer, [True] when the question is not asked. *)
Definition ask (E : Env) (needed : bool) (message : string) (default : bool)
  (w : World) : bool * World :=
  if needed then confirm E message default w else (true, w).

(** [TerminalTool.execute] ([timeout] and [show_status] only reach the
    display and the child's time limit, which the oracles stand for). *)
Definition execute (E : Env) (cfg : Config) (tool : TerminalTool)
  (command : string) (require_confirm : bool) (w : World) : ExecResult * World :=
  (* final safety check *)
  if (safe_mode tool && is_dangerous_command cfg command)%bool
  then ((false, "", "Dangerous command blocked"), w)
  else
    let '(is_valid, msg) := validate_command cfg tool command in
    if negb is_valid then ((false, "", msg), w)
    else
      let command_lower := strip (lower command) in
      let is_sudo_command := startswith command_lower "sudo " in
      (* sudo commands are always confirmed *)
      let '(sudo_ok, w1) := ask E is_sudo_command prompt_sudo false w in
      if negb sudo_ok then ((false, "", "User cancelled sudo command"), w1)
      else
        let is_high_risk := any (fun keyword => contains command_lower keyword)
                              high_risk_keywords in
        let '(risk_ok, w2) :=
          ask E (is_high_risk && safe_mode tool) prompt_high_risk false w1 in
        if negb risk_ok then ((false, "", "User cancelled high-risk command"), w2)
        else
          let '(normal_ok, w3) :=
            ask E (require_confirm && negb is_sudo_command && negb is_high_risk)
                prompt_normal true w2 in
          if negb normal_ok then ((false, "", "User cancelled"), w3)
          else execute_run E tool command w3.

(* ================================================================== *)
(** ** agents.py: the response parser *)

(** [\s*```] at the head of [s] *)
Definition closes_block (s : string) : bool := startswith (lstrip s) "```".

(** The text after an opening brace, up to the first closing brace that is
    followed by the end of the block (the lazy [.*?] of the pattern, which
    also passes over new lines); [acc] is what was read, reversed. *)
Fixpoint shortest_payload (s acc : string) : option string :=
  match s with
  | EmptyString => None
  | String c r =>
      if (Ascii.eqb c "}" && closes_block r)%bool
      then Some (rev_acc (String c acc) EmptyString)
      else shortest_payload r (String c acc)
  end.

(** The pattern [```json\s*(\{.*?\})\s*```] matched at the head of [s]: the
    text of its group. *)
Definition match_block_here (s : string) : option string :=
  if startswith s "```json" then
    match lstrip (drop 7 s) with
    | String "{" r =>
        match shortest_payload r EmptyString with
        | Some p => Some (String "{" p)
        | None => None
        end
    | _ => None
    end
  else None.

(** [re.findall(json_pattern, response, re.DOTALL)]: [Some] of its first
    element, [None] when the list is empty. *)
Fixpoint find_json_block (s : string) : option string :=
  match match_block_here s with
  | Some p => Some p
  | None =>
      match s with
      | EmptyString => None
      | String _ r => find_json_block r
      end
  end.

(** The [for] loop of [_parse_response] over the text from the first
    opening brace: the index at which the brace count comes back to zero. *)
Fixpoint scan_braces (s : string) (i : nat) (brace_count : Z)
  (in_string escape_next : bool) : option nat :=
  match s with
  | EmptyString => None
  | String char r =>
      if escape_next then scan_braces r (S i) brace_count in_string false
      else if Ascii.eqb char backslash then scan_braces r (S i) brace_count in_string true
      else if Ascii.eqb char dquote then scan_braces r (S i) brace_count (negb in_string) false
      else if negb in_string then
        if Ascii.eqb char "{" then scan_braces r (S i) (brace_count + 1) in_string false
        else if Ascii.eqb char "}" then
          if brace_count - 1 =? 0 then Some i
          else scan_braces r (S i) (brace_count - 1) in_string false
        else scan_braces r (S i) brace_count in_string false
      else scan_braces r (S i) brace_count in_string false
  end.

(** The balanced text that starts at the first opening brace, if there is
    one: [response[start_idx:i+1]]. *)
Definition first_balanced (response : string) : option string :=
  match find_char "{" response with
  | None => None
  | Some start_idx =>
      match scan_braces (drop start_idx response) start_idx 0 false false with
      | Some i => Some (slice start_idx (S i) response)
      | None => None
      end
  end.

Definition is_interaction (data : dict) : bool :=
  match dict_get "status" data with
  | Some (JStr s) => String.eqb s "interaction"
  | _ => false
  end.

(** The dictionary returned for an interaction request. *)
Definition interaction_info (response : string) (data : dict) : dict :=
  [ ("interaction", JBool true);
    ("message", dict_get_default "message" (JStr response) data);
    ("options", dict_get_default "options" JNull data);
    ("allow_custom_input", dict_get_default "allow_custom_input" (JBool false) data) ].

(** The first half of [_parse_response]: the fenced block. *)
Definition parse_fenced (response : string) : option dict :=
  match find_json_block response with
  | Some payload =>
      match loads payload with
      | Some (JObj data) =>
          Some (if is_interaction data then interaction_info response data else data)
      | _ => None
      end
  | None => None
  end.

(** The second half: the first balanced object of the text. *)
Definition parse_bare (response : string) : option dict :=
  match first_balanced response with
  | Some json_str =>
      match loads json_str with
      | Some (JObj data) =>
          if is_interaction data then Some (interaction_info response data)
          else if (dict_has "command" data || dict_has "status" data)%bool then Some data
          else None
      | _ => None
      end
  | None => None
  end.

(** [CommandAgent._parse_response] *)
Definition parse_response (response : string) : option dict :=
  match parse_fenced response with
  | Some info => Some info
  | None => parse_bare response
  end.

Definition final_keywords : list string :=
  [ "完成"; "完结"; "finished"; "done"; "总结"; "summary" ].

(** [CommandAgent._is_final_summary] *)
Definition is_final_summary (response : string) : bool :=
  let response_lower := lower response in
  any (fun kw => contains response_lower kw) final_keywords.

(* ================================================================== *)
(** ** agents.py: CommandAgent *)

Record StepRecord : Type := mkStep {
  step_index : Z;            (* "step" *)
  step_command : string;     (* "command" *)
  step_success : bool;       (* "success" *)
  step_stdout : string;      (* "stdout" *)
  step_stderr : string       (* "stderr" *)
}.

(** The dictionary that [run] returns; a key that is absent is [None]. *)
Record RunResult : Type := mkResult {
  r_success : bool;
  r_steps : option (list StepRecord);
  r_summary : option json;
  r_error : option string
}.

Record CommandAgent : Type := mkAgent {
  tool : TerminalTool;
  max_steps : Z;
  require_confirm : bool;
  auto_mode : bool;
  max_idle_steps : Z;
  system_prompt : string
}.

(** [x or default] for an optional integer argument *)
Definition int_or (x : option Z) (default : Z) : Z :=
  match x with
  | Some n => if n =? 0 then default else n
  | None => default
  end.

(** [CommandAgent.__init__]; [prompt] is the value of
    [get_agent_system_prompt(auto_mode)].  The second component is the
    history the new agent starts with. *)
Definition CommandAgent_init (cfg : Config) (prompt : string)
  (max_steps : option Z) (require_confirm auto_mode : bool)
  (max_idle_steps : option Z) : CommandAgent * list Message :=
  (mkAgent (TerminalTool_init cfg true false)
           (int_or max_steps (MAX_STEPS cfg))
           require_confirm auto_mode
           (int_or max_idle_steps (MAX_IDLE_STEPS cfg))
           prompt,
   [mkMessage "system" prompt]).

(** [BaseAgent.add_to_history] *)
Definition add_to_history (history : list Message) (role content : string)
  : list Message :=
  history ++ [mkMessage role content].

(** The local variables of [run] and the history of the agent. *)
Record LoopState : Type := mkLoop {
  history : list Message;
  steps : list StepRecord;
  current_step : Z;
  idle_steps : Z
}.

Inductive Outcome : Type :=
| Continue (st : LoopState) (w : World)              (* on to the loop test *)
| Return (r : RunResult) (st : LoopState) (w : World).   (* [return] *)

Definition AGENT_USER_TEMPLATE (task : string) : string :=
  "任务: " ++ task ++ newline ++ newline ++ "请理解任务并开始执行。".

Definition py_bool (b : bool) : string := if b then "True" else "False".

Definition AGENT_OBSERVATION_TEMPLATE (command : string) (success : bool)
  (output error : string) : string :=
  "上一个命令的执行结果：" ++ newline ++ newline
  ++ "命令: " ++ command ++ newline
  ++ "成功: " ++ py_bool success ++ newline
  ++ "输出: " ++ output ++ newline
  ++ "错误: " ++ error ++ newline ++ newline
  ++ "请根据这个结果，决定下一步行动。".

Definition msg_invalid_prefix : string := "命令不合法: ".
Definition summary_none : string := "LLM 返回 None 响应".
Definition summary_blank : string := "LLM 返回空响应".
Definition summary_no_command : string := "未生成可执行命令".
Definition summary_invalid : string := "多次命令无效，已结束此次任务".
Definition summary_cancelled : string := "用户取消交互".

Definition failed_with_summary (st : LoopState) (summary : string) : RunResult :=
  mkResult false (Some (steps st)) (Some (JStr summary)) None.

Definition failed_with_error (st : LoopState) (error : string) : RunResult :=
  mkResult false (Some (steps st)) None (Some error).

(** [idle_steps += 1], then the test against [max_idle_steps]: the run
    ends with [r], or the loop goes on. *)
Definition count_idle (agent : CommandAgent) (st : LoopState) (w : World)
  (r : LoopState -> RunResult) : Outcome :=
  let st' := mkLoop (history st) (steps st) (current_step st) (idle_steps st + 1) in
  if idle_steps st' >=? max_idle_steps agent then Return (r st') st' w
  else Continue st' w.

(** The message of the [AttributeError] raised by [v.strip()]. *)
Definition no_strip (v : json) : string :=
  "'" ++ type_name v ++ "' object has no attribute 'strip'".

(** The branch [if "command" in command_info]. *)
Definition handle_command (E : Env) (cfg : Config) (agent : CommandAgent)
  (st : LoopState) (w : World) (command : json) : Outcome :=
  let invalid (msg : string) :=
    let observation := msg_invalid_prefix ++ msg in
    let st1 := mkLoop (add_to_history (history st) "user" observation)
                      (steps st) (current_step st) (idle_steps st) in
    count_idle agent st1 w (fun s => failed_with_summary s summary_invalid) in
  match command with
  | JStr c =>
      let '(is_valid, msg) := validate_command cfg (tool agent) c in
      if negb is_valid then invalid msg
      else
        let '((success, stdout, stderr), w1) :=
          execute E cfg (tool agent) c (require_confirm agent && negb (auto_mode agent)) w in
        let step_info := mkStep (current_step st) c success stdout stderr in
        let observation :=
          AGENT_OBSERVATION_TEMPLATE c success
            (if success then stdout else stderr)
            (if negb success then stderr else "") in
        Continue (mkLoop (add_to_history (history st) "user" observation)
                         (steps st ++ [step_info]) (current_step st) 0) w1
  | v =>
      (* [not command] holds for a false value; any other value has no [strip] *)
      if truthy v then Return (failed_with_error st (no_strip v)) st w
      else invalid msg_empty
  end.

(** The loop body after a successful parse; [idle_steps] was set to 0. *)
Definition handle_parsed (E : Env) (cfg : Config) (agent : CommandAgent)
  (st : LoopState) (w : World) (response : string) (command_info : dict) : Outcome :=
  if (dict_has "interaction" command_info
      && truthy (dict_get_default "interaction" JNull command_info))%bool then
    if negb (auto_mode agent) then
      let answer :=
        ui_interact E w (dict_get_default "message" (JStr response) command_info)
          (dict_get_default "options" JNull command_info)
          (dict_get_default "allow_custom_input" (JBool false) command_info) in
      let w1 := log EvInteract w in
      match answer with
      | UiRaised e => Return (failed_with_error st e) st w1
      | UiReply user_response =>
          if is_empty user_response
          then Return (failed_with_summary st summary_cancelled) st w1
          else Continue (mkLoop (add_to_history (history st) "user" user_response)
                                (steps st) (current_step st) (idle_steps st)) w1
      end
    else Continue st w
  else
    match dict_get "status" command_info with
    | Some status =>
        let summary := dict_get_default "summary" (JStr "") command_info in
        let success := match status with
                       | JStr s => String.eqb s "success"
                       | _ => false
                       end in
        Return (mkResult success (Some (steps st)) (Some summary) None) st w
    | None =>
        match dict_get "command" command_info with
        | Some command => handle_command E cfg agent st w command
        | None => Continue st w
        end
    end.

(** One pass through the body of the [while] loop of [run]. *)
Definition iteration (E : Env) (cfg : Config) (agent : CommandAgent)
  (st0 : LoopState) (w0 : World) : Outcome :=
  let st := mkLoop (history st0) (steps st0) (current_step st0 + 1) (idle_steps st0) in
  let w := log EvLLM w0 in
  match llm_generate E w0 (history st) with
  | LLMRaised error_msg =>
      count_idle agent st w
        (fun s => failed_with_error s ("LLM call failed: " ++ error_msg))
  | LLMNone =>
      count_idle agent st w (fun s => failed_with_summary s summary_none)
  | LLMText response =>
      if is_empty (strip response) then
        count_idle agent st w (fun s => failed_with_summary s summary_blank)
      else
        let st1 := mkLoop (add_to_history (history st) "assistant" response)
                          (steps st) (current_step st) (idle_steps st) in
        match parse_response response with
        | None =>
            if is_final_summary response then
              Return (mkResult true (Some (steps st1)) (Some (JStr response)) None) st1 w
            else
              count_idle agent st1 w
                (fun s => failed_with_summary s
                            (if is_empty response then summary_no_command else response))
        | Some command_info =>
            let st2 := mkLoop (history st1) (steps st1) (current_step st1) 0 in
            handle_parsed E cfg agent st2 w response command_info
        end
  end.

Definition max_steps_result (st : LoopState) : RunResult :=
  failed_with_error st "Max steps reached".

(** The [while current_step < self.max_steps] loop.  [fuel] bounds the
    number of passes; [None] means that it ran out. *)
Fixpoint run_loop (fuel : nat) (E : Env) (cfg : Config) (agent : CommandAgent)
  (st : LoopState) (w : World) : option (RunResult * LoopState * World) :=
  match fuel with
  | O => None
  | S f =>
      if current_step st <? max_steps agent then
        match iteration E cfg agent st w with
        | Continue st' w' => run_loop f E cfg agent st' w'
        | Return r st' w' => Some (r, st', w')
        end
      else Some (max_steps_result st, st, w)
  end.

Definition no_task_result : RunResult :=
  mkResult false None None (Some "No task provided").

(** The state in which the loop of [run] starts, or [None] when [run]
    returns at once for lack of a task. *)
Definition run_entry (history : list Message) (task : option string)
  (continue_execution : bool) : option LoopState :=
  let has_task := match task with Some t => negb (is_empty t) | None => false end in
  if (negb continue_execution && has_task)%bool then
    let prompt := AGENT_USER_TEMPLATE (match task with Some t => t | None => "" end) in
    Some (mkLoop (add_to_history history "user" prompt) [] 0 0)
  else if continue_execution then Some (mkLoop history [] 0 0)
  else None.

(** The passes that the loop can make: none for a budget below zero. *)
Definition budget (agent : CommandAgent) : nat := Z.to_nat (max_steps agent).

(** [CommandAgent.run] on an agent whose history is [history]. *)
Definition run (E : Env) (cfg : Config) (agent : CommandAgent)
  (history : list Message) (task : option string) (continue_execution : bool)
  (w : World) : option (RunResult * LoopState * World) :=
  match run_entry history task continue_execution with
  | None => Some (no_task_result, mkLoop history [] 0 0, w)
  | Some st => run_loop (S (budget agent)) E cfg agent st w
  end.

(* ================================================================== *)
(** ** A small world to run the model in

    The oracles used by the examples: an LLM that reads its replies from a
    script, a user who always gives the same answer, and a child shell that
    knows [export], [echo], [cd] and [pwd], joined by [&&]. *)

Module Demo.

Fixpoint env_lookup (k : string) (env : environ) : string :=
  match env with
  | [] => EmptyString
  | (k', v) :: r => if String.eqb k' k then v else env_lookup k r
  end.

(** The state of a child shell: its environment, its directory, its output. *)
Definition ShState : Type := (environ * string * string)%type.

(** One simple command in the child; [None] when the child does not know it. *)
Definition sh_simple (st : ShState) (cmd : string) : option ShState :=
  let '(env, cwd, out) := st in
  let cmd := strip cmd in
  if startswith cmd "export " then
    match split (drop 7 cmd) "=" with
    | k :: v :: _ => Some ((k, v) :: env, cwd, out)
    | _ => None
    end
  else if startswith cmd "echo $" then
    Some (env, cwd, out ++ env_lookup (drop 6 cmd) env ++ newline)
  else if startswith cmd "echo " then Some (env, cwd, out ++ drop 5 cmd ++ newline)
  else if String.eqb cmd "pwd" then Some (env, cwd, out ++ cwd ++ newline)
  else if startswith cmd "cd " then Some (env, drop 3 cmd, out)
  else None.

Fixpoint sh_list (st : ShState) (cmds : list string) : ProcOutcome :=
  match cmds with
  | [] => Completed 0 (snd st) EmptyString
  | c :: r =>
      match sh_simple st c with
      | Some st' => sh_list st' r
      | None => Completed 127 (snd st) ("sh: command not found: " ++ c)
      end
  end.

(** [sh -c shell_cmd], started by a process whose environment and
    directory are those of [w]; what the child sets dies with it. *)
Definition mini_sh (w : World) (shell_cmd : string) : ProcOutcome :=
  sh_list (os_environ w, os_cwd w, EmptyString) (split shell_cmd "&&").

Fixpoint llm_calls (t : list Event) : nat :=
  match t with
  | [] => O
  | EvLLM :: r => S (llm_calls r)
  | _ :: r => llm_calls r
  end.

(** The n-th call to the LLM gets the n-th reply of the script, and
    [None] once the script is over. *)
Definition scripted (replies : list LLMOutcome) (w : World) (_ : list Message)
  : LLMOutcome :=
  nth (llm_calls (trace w)) replies LLMNone.

Definition always (reply : LLMOutcome) (_ : World) (_ : list Message) : LLMOutcome :=
  reply.

Definition env_of (llm : World -> list Message -> LLMOutcome) (answer : bool) : Env :=
  mkEnv llm
        (fun _ _ _ => answer)
        (fun _ _ _ _ => UiReply EmptyString)
        mini_sh
        (fun w _ => ((false, EmptyString, "no persistent shell"), os_cwd w, os_environ w))
        (fun _ _ => true)
        (fun _ _ => true).

Definition world0 : World := mkWorld [] "/home/user" [("HOME", "/home/user")].

(** The agent of AUTO mode and the interactive one, with the default
    configuration. *)
Definition auto_agent : CommandAgent :=
  fst (CommandAgent_init default_config "system prompt" None false true None).
Definition interactive_agent : CommandAgent :=
  fst (CommandAgent_init default_config "system prompt" None true false None).
Definition history0 : list Message :=
  snd (CommandAgent_init default_config "system prompt" None false true None).

End Demo.

(* ================================================================== *)
(** ** Vocabulary of the properties *)

(** [s] is ASCII text: no byte is above 127.  On such a text the library
    functions of the embedding are those of Python. *)
Fixpoint is_ascii (s : string) : bool :=
  match s with
  | EmptyString => true
  | String c r => (Nat.ltb (nat_of_ascii c) 128 && is_ascii r)%bool
  end.

(** [s] holds no opening bracket, so that the display, which reads what it
    prints as console markup, finds no tag in it and prints it. *)
Definition no_markup (s : string) : bool := negb (contains s "[").


(** The events of a child process or of the persistent shell. *)
Definition is_child_event (e : Event) : bool :=
  match e with
  | EvSubprocess _ | EvChdir _ | EvPersistent _ => true
  | _ => false
  end.

(** [is_sudo_command] of [execute] *)
Definition is_sudo (command : string) : bool :=
  startswith (strip (lower command)) "sudo ".

(** [is_high_risk] of [execute] *)
Definition is_high_risk (command : string) : bool :=
  any (fun keyword => contains (strip (lower command)) keyword) high_risk_keywords.

(** The event that [ask] leaves behind. *)
Definition asked (needed : bool) (message : string) (default answer : bool)
  : list Event :=
  if needed then [EvConfirm message default answer] else [].

Definition state_of (o : Outcome) : LoopState :=
  match o with Continue st _ => st | Return _ st _ => st end.

Definition world_of (o : Outcome) : World :=
  match o with Continue _ w => w | Return _ _ w => w end.


(** The commands that reached a shell among the events [evs] all passed the
    two gates of [execute]. *)
Definition shells_gated (cfg : Config) (tl : TerminalTool) (evs : list Event) : Prop :=
  forall c, In (EvShell c) evs ->
            (safe_mode tl && is_dangerous_command cfg c)%bool = false
            /\ fst (validate_command cfg tl c) = true.

(** [reaches n st w st' w']: from the loop test in state [st], [n] passes
    through the body, none of which returned, lead to the loop test in
    state [st']. *)
Inductive reaches (E : Env) (cfg : Config) (agent : CommandAgent)
  : nat -> LoopState -> World -> LoopState -> World -> Prop :=
| reaches_here st w : reaches E cfg agent O st w st w
| reaches_pass n st w st1 w1 st2 w2 :
    current_step st < max_steps agent ->
    iteration E cfg agent st w = Continue st1 w1 ->
    reaches E cfg agent n st1 w1 st2 w2 ->
    reaches E cfg agent (S n) st w st2 w2.

(** The shape that [validate_command] looks for: a separator followed by a
    piece that starts with [rm]. *)
Definition injection_shape (command : string) : bool :=
  any (fun combo : string * string =>
         (contains command (fst combo) && contains (lower command) (snd combo)
          && any (fun part => startswith (lower (strip part)) (snd combo))
               (tl (split command (fst combo))))%bool)
      dangerous_chars_combinations.

(** The call to the LLM failed: it raised, or gave [None], or gave only
    white space. *)
Definition llm_failed (o : LLMOutcome) : bool :=
  match o with
  | LLMRaised _ => true
  | LLMNone => true
  | LLMText response => is_empty (strip response)
  end.

Definition is_object (v : json) : Prop := exists d, v = JObj d.

(** What [_parse_response] makes of the object that was decoded from the
    first balanced text. *)
Definition intent_of (response : string) (decoded : option json) : option dict :=
  match decoded with
  | Some (JObj data) =>
      if is_interaction data then Some (interaction_info response data)
      else if (dict_has "command" data || dict_has "status" data)%bool then Some data
      else None
  | _ => None
  end.

(** Two worlds in which the process has the same directory and environment. *)
Definition same_os (w1 w2 : World) : Prop :=
  os_cwd w1 = os_cwd w2 /\ os_environ w1 = os_environ w2.

(** The oracles answer from the directory and the environment of the
    process alone: what happened before does not matter to them. *)
Definition reads_only_os (E : Env) : Prop :=
  forall w1 w2, same_os w1 w2 ->
    (forall s, subprocess_run E w1 s = subprocess_run E w2 s)
    /\ (forall m d, ui_confirm E w1 m d = ui_confirm E w2 m d)
    /\ (forall p, os_path_isdir E w1 p = os_path_isdir E w2 p)
    /\ (forall p, os_chdir_ok E w1 p = os_chdir_ok E w2 p).

(** *** Inputs of the examples *)

(** An LLM that never answers, and a user who always gives [answer]. *)
Definition quiet_env (answer : bool) : Env := Demo.env_of (Demo.always LLMNone) answer.

(** An agent with a budget of one step, and one with a budget below zero. *)
Definition one_step_agent : CommandAgent :=
  fst (CommandAgent_init default_config "system prompt" (Some 1) false true None).
Definition negative_agent : CommandAgent :=
  fst (CommandAgent_init default_config "system prompt" (Some (-1)) false true None).

(** The state in which [run] enters its loop for the task [task]. *)
Definition task_state : LoopState :=
  mkLoop (add_to_history Demo.history0 "user" (AGENT_USER_TEMPLATE "task")) [] 0 0.

(** A sudo command in which a tab follows the word [sudo]. *)
Definition sudo_tab_ls : string := "sudo" ++ String "009" "ls".

Definition long_harmless : string := PyStr.repeat "a" 10001.

(** A reply whose first balanced text is no JSON, followed by a command. *)
Definition malformed_then_command : string := dq "{oops} {'command': 'ls'}".

(* ================================================================== *)
(** ** agents.py: CompleteAgent

    The history file is what [open] and the iteration over its lines give:
    no file, a failure of [open] or of a read, or the lines.  The value of
    [Config.HISTORY_MAX_LINES] is the argument [history_max_lines]. *)

Inductive HistoryFile : Type :=
| NoHistoryFile                       (* [os.path.exists] is false *)
| UnreadableHistory                   (* an exception inside the [try] *)
| HistoryLines (lines : list string).

(** A call that returns a value or raises [ValueError]. *)
Inductive Raises (A : Type) : Type :=
| Returns (a : A)
| ValueError (message : string).
Arguments Returns {A} a.
Arguments ValueError {A} message.

(** [deque.append] on a deque made with [maxlen]: what is too much falls
    off at the left. *)
Definition deque_append (maxlen : nat) (q : list string) (x : string) : list string :=
  let q' := (q ++ [x])%list in
  if Nat.ltb maxlen (List.length q') then List.tl q' else q'.

(** The body of the loop over the lines of the file: the command that the
    line adds, if any.  [line.split(";", 1)[1]] is what follows the first
    semicolon. *)
Definition history_entry (line : string) : option string :=
  let line := strip line in
  if is_empty line then None
  else
    let cmd :=
      if (startswith line ": " && contains line ";")%bool then
        match find_char ";" line with
        | Some i => drop (S i) line
        | None => line
        end
      else line in
    if is_empty cmd then None else Some cmd.

Definition read_history (maxlen : nat) (lines : list string) : list string :=
  fold_left (fun recent_lines line =>
               match history_entry line with
               | Some cmd => deque_append maxlen recent_lines cmd
               | None => recent_lines
               end)
            lines [].

(** The body of the last loop: [seen] and [ordered]. *)
Definition dedupe_step (acc : list string * list string) (cmd : string)
  : list string * list string :=
  let '(seen, ordered) := acc in
  if existsb (String.eqb cmd) seen then acc
  else (cmd :: seen, (ordered ++ [cmd])%list).

(** [CompleteAgent.load_recent_history]; [deque(maxlen=...)] raises for a
    negative length, before the [try]. *)
Definition load_recent_history (history_max_lines : Z) (file : HistoryFile)
  (max_lines : option Z) : Raises (list string) :=
  let max_lines := int_or max_lines history_max_lines in
  match file with
  | NoHistoryFile => Returns []
  | _ =>
      if max_lines <? 0 then ValueError "maxlen must be non-negative"
      else
        match file with
        | HistoryLines lines =>
            let recent_lines := read_history (Z.to_nat max_lines) lines in
            Returns (snd (fold_left dedupe_step (rev recent_lines) ([], [])))
        | _ => Returns []
        end
  end.

Definition COMPLETE_USER_TEMPLATE (user_input history : string) : string :=
  "请为以下输入补全可能的命令，结合最近的终端历史（如有），优先贴合历史习惯并保持安全："
  ++ newline ++ newline
  ++ "用户当前输入（可能是不完整的前缀）:" ++ newline
  ++ user_input ++ newline ++ newline
  ++ "最近历史命令（按时间从近到远，最多若干条）:" ++ newline
  ++ history.

(** The length of the longest prefix of [s] that matches [r]. *)
Fixpoint longest_prefix (r : Re.re) (s : string) : option nat :=
  if Re.is_void r then None
  else
    let here := if Re.nullable r then Some O else None in
    match s with
    | EmptyString => here
    | String c t =>
        match longest_prefix (Re.deriv c r) t with
        | Some n => Some (S n)
        | None => here
        end
    end.

(** Digits, then a full stop or a closing parenthesis, then white space:
    the pattern of [complete] without its anchor.  Every repetition of the
    pattern is followed by a class that excludes what it repeats, so that
    the match the [re] module finds is the longest one. *)
Definition numbering : Re.re :=
  Re.Seq (Re.plus (Re.Cls is_digit))
    (Re.Seq (Re.Cls (fun c => (Ascii.eqb c "." || Ascii.eqb c ")")%bool))
            (Re.Star Re.space)).

(** [re.sub(pattern, '', line)] for the pattern above, anchored at the
    start of the line. *)
Definition strip_numbering (line : string) : string :=
  match longest_prefix numbering line with
  | Some n => drop n line
  | None => line
  end.

(** The body of the loop over the lines of the reply: the command that the
    line adds, if any. *)
Definition suggestion_of_line (line : string) : option string :=
  let line := strip line in
  if startswith line "```" then None
  else
    let line := strip_numbering line in
    if (negb (is_empty line) && negb (startswith line "#"))%bool then Some line
    else None.

Fixpoint collect_commands (lines : list string) : list string :=
  match lines with
  | [] => []
  | line :: r =>
      match suggestion_of_line line with
      | Some command => command :: collect_commands r
      | None => collect_commands r
      end
  end.

(** [l[:k]] *)
Definition py_prefix {A : Type} (k : Z) (l : list A) : list A :=
  if 0 <=? k then firstn (Z.to_nat k) l
  else firstn (List.length l - Z.to_nat (- k)) l.

(** [CompleteAgent.complete]; [system_prompt] is [COMPLETE_SYSTEM_PROMPT].
    The history is loaded outside the [try], the reply is read inside. *)
Definition complete (E : Env) (system_prompt : string) (history_max_lines : Z)
  (file : HistoryFile) (user_input : string) (max_suggestions : Z) (w : World)
  : Raises (list string) * World :=
  if is_empty (strip user_input) then (Returns [], w)
  else
    match load_recent_history history_max_lines file None with
    | ValueError message => (ValueError message, w)
    | Returns history_lines =>
        let history_text :=
          match history_lines with
          | [] => "(no history)"
          | _ => join newline history_lines
          end in
        let prompt := COMPLETE_USER_TEMPLATE user_input history_text in
        let messages := [mkMessage "system" system_prompt; mkMessage "user" prompt] in
        let w1 := log EvLLM w in
        match llm_generate E w messages with
        | LLMText response =>
            let commands := collect_commands (split (strip response) newline) in
            (Returns (py_prefix max_suggestions commands), w1)
        | _ => (Returns [], w1)
        end
    end.

(* ================================================================== *)
(** ** models.py: OpenAILLM

    What the client library gives for one request: an exception, or a
    response with the content of its first choice and its usage. *)

Record Usage : Type := mkUsage {
  prompt_tokens : option Z;
  completion_tokens : option Z;
  usage_total_tokens : option Z        (* "total_tokens" *)
}.

Inductive ApiOutcome : Type :=
| ApiRaised (message : string)
| ApiResponse (content : option string) (usage : option Usage).

(** The counters of [BaseLLM]. *)
Record TokenStats : Type := mkStats {
  total_prompt_tokens : Z;
  total_completion_tokens : Z;
  total_tokens : Z;
  call_count : Z
}.

(** [BaseLLM.__init__] and [BaseLLM.reset_token_stats] *)
Definition reset_token_stats : TokenStats := mkStats 0 0 0 0.

(** What [generate] gives: a text, or a [RuntimeError] with its message. *)
Inductive Generated : Type :=
| GenText (content : string)
| GenRaised (message : string).

(** [str(n)] *)
Definition str_int (n : Z) : string := NilZero.string_of_int (Z.to_int n).

Definition none_content : string :=
  "LLM returned None content. This may indicate an API error or model issue.".

(** The [except] clause of [OpenAILLM.generate]. *)
Definition api_error (timeout : Z) (error_msg : string) : Generated :=
  if (contains (lower error_msg) "timeout" || contains (lower error_msg) "timed out")%bool
  then GenRaised ("LLM 调用超时（" ++ str_int timeout
                  ++ "秒）。请检查网络连接或增加超时时间。")
  else GenRaised ("OpenAI API error: " ++ error_msg).

(** [OpenAILLM.generate] on the counters [stats]. *)
Definition OpenAILLM_generate (cfg : Config) (timeout : option Z) (api : ApiOutcome)
  (stats : TokenStats) : Generated * TokenStats :=
  let timeout := match timeout with Some t => t | None => LLM_TIMEOUT cfg end in
  match api with
  | ApiRaised e => (api_error timeout e, stats)
  | ApiResponse None _ => (api_error timeout none_content, stats)
  | ApiResponse (Some content) usage =>
      (GenText content,
       match usage with
       | Some u =>
           mkStats (total_prompt_tokens stats + int_or (prompt_tokens u) 0)
                   (total_completion_tokens stats + int_or (completion_tokens u) 0)
                   (total_tokens stats + int_or (usage_total_tokens u) 0)
                   (call_count stats + 1)
       | None => stats
       end)
  end.

(* ================================================================== *)
(** ** agents.py: ChatAgent

    [generate] is what the [try] block of [chat] gives up to its last
    statement: the call of the LLM, which returns a text or raises, as
    both classes of models.py do, and the display of the statistics. *)

(** [ChatAgent.__init__]: the history of the new agent. *)
Definition ChatAgent_init (system_prompt : string) : list Message :=
  add_to_history [] "system" system_prompt.

(** [ChatAgent.chat]: the reply and the history afterwards. *)
Definition chat (generate : list Message -> Generated) (history : list Message)
  (user_input : string) : string * list Message :=
  if is_empty (strip user_input) then ("Please enter your question.", history)
  else
    let history := add_to_history history "user" user_input in
    match generate history with
    | GenText response => (response, add_to_history history "assistant" response)
    | GenRaised e => ("Sorry, an error occurred: " ++ e, history)
    end.

(* ================================================================== *)
(** ** ui.py: select_option and confirm

    The keyboard is the list of what [get_key] gives, call after call: an
    arrow, the return key, any other character, nothing (a sequence that
    is no arrow, or no terminal), or [KeyboardInterrupt]. *)

Inductive Key : Type :=
| KeyUp
| KeyDown
| KeyEnter
| KeyChar (c : ascii)
| KeyNone
| KeyInterrupt.

(** How a call of [select_option] ends: with the value of an option, with
    the text that the user typed, with an [IndexError] or an interrupt
    that leaves the function, or not at all on the keys given. *)
Inductive Selection (V : Type) : Type :=
| Chosen (value : V)
| Typed (text : string)
| IndexError
| Interrupted
| Waiting.
Arguments Chosen {V} value.
Arguments Typed {V} text.
Arguments IndexError {V}.
Arguments Interrupted {V}.
Arguments Waiting {V}.

(** [l[i]] for a Python [int] *)
Definition py_index {A : Type} (l : list A) (i : Z) : option A :=
  let n := Z.of_nat (List.length l) in
  if ((0 <=? i) && (i <? n))%bool then nth_error l (Z.to_nat i)
  else if ((- n <=? i) && (i <? 0))%bool then nth_error l (Z.to_nat (n + i))
  else None.

(** [return options[i][1]] *)
Definition option_value {V : Type} (options : list (string * V)) (i : Z) : Selection V :=
  match py_index options i with
  | Some (_, value) => Chosen value
  | None => IndexError
  end.

(** [int(key)] for an ASCII digit *)
Definition digit_value (c : ascii) : Z := Z.of_nat (nat_of_ascii c) - 48.

(** The [while True] loop on the keys; [typed] is what [pt_prompt] gives
    for the custom input, [None] when it is interrupted. *)
Fixpoint select_loop {V : Type} (options : list (string * V)) (default_index : Z)
  (allow_input : bool) (typed : option string) (current_index : Z) (keys : list Key)
  : Selection V :=
  let n := Z.of_nat (List.length options) in
  match keys with
  | [] => Waiting
  | key :: rest =>
      match key with
      | KeyUp =>
          select_loop options default_index allow_input typed
            (if 0 <? current_index then current_index - 1 else current_index) rest
      | KeyDown =>
          select_loop options default_index allow_input typed
            (if current_index <? n - 1 then current_index + 1 else current_index) rest
      | KeyEnter =>
          if (allow_input && (current_index =? n - 1))%bool then
            match typed with
            | Some user_input =>
                if (negb (is_empty user_input) && negb (is_empty (strip user_input)))%bool
                then Typed (strip user_input)
                else option_value options (n - 1)
            | None => option_value options default_index
            end
          else option_value options current_index
      | KeyChar c =>
          if is_digit c then
            let idx := digit_value c - 1 in
            if ((0 <=? idx) && (idx <? n))%bool then option_value options idx
            else select_loop options default_index allow_input typed current_index rest
          else select_loop options default_index allow_input typed current_index rest
      | KeyNone =>
          select_loop options default_index allow_input typed current_index rest
      | KeyInterrupt => option_value options default_index
      end
  end.

(** [int(choice)] for a text made of ASCII digits, short enough for the
    interpreter to convert it *)
Definition int_of_digits (s : string) : Z :=
  fold_left (fun acc c => 10 * acc + digit_value c) (list_ascii_of_string s) 0.

(** [choice.isdigit()], on ASCII text *)
Definition isdigit (s : string) : bool :=
  (negb (is_empty s) && forallb is_digit (list_ascii_of_string s))%bool.

(** [UI.select_option].  [has_pt] is [_HAS_PT]; without prompt_toolkit the
    choice is read by [input], whose line is [line], [None] when it
    raises.  The message and the texts of the options only go to the
    display. *)
Definition select_option {V : Type} (has_pt : bool) (message : string)
  (options : list (string * V))
  (default_index : Z) (allow_custom_input : bool) (line typed : option string)
  (keys : list Key) : Selection V :=
  let options := if Nat.ltb 4 (List.length options) then firstn 4 options else options in
  let allow_input := (allow_custom_input && Nat.leb 2 (List.length options))%bool in
  if negb has_pt then
    match line with
    | None => Interrupted
    | Some text =>
        let choice := strip text in
        let idx := int_of_digits choice - 1 in
        if (isdigit choice && (0 <=? idx) && (idx <? Z.of_nat (List.length options)))%bool
        then option_value options idx
        else option_value options default_index
    end
  else select_loop options default_index allow_input typed default_index keys.

(** [UI.confirm] *)
Definition UI_confirm (has_pt : bool) (message : string) (default : bool)
  (line : option string) (keys : list Key) : Selection bool :=
  let options := [("是", true); ("否", false)] in
  if default then select_option has_pt message options 0 false line None keys
  else select_option has_pt message options 1 false line None keys.

(* ================================================================== *)
(** ** main.py: MiniShellAgent and its control commands

    The texts that depend on the machine, and the two handlers that are
    not modelled, are the fields of [Program]; the writes of the user
    configuration are kept as a list, most recent first. *)

Inductive AgentObj : Type :=
| CompleteAgentObj (history : list Message) (system_prompt : string)
| ChatAgentObj (history : list Message) (system_prompt : string)
| CommandAgentObj (agent : CommandAgent) (history : list Message).

(** The dictionary that [_save_user_config] writes. *)
Definition UserConfig : Type := (string * string * option bool)%type.

Record MiniShellAgent : Type := mkApp {
  app_mode : string;                       (* self.mode *)
  app_agent_mode_type : string;            (* self.agent_mode_type *)
  app_require_confirm : option bool;       (* self.require_confirm, or None *)
  kwargs_max_steps : option Z;             (* self.kwargs.get("max_steps") *)
  kwargs_max_idle_steps : option Z;        (* self.kwargs.get("max_idle_steps") *)
  complete_tool : TerminalTool;
  app_agent : AgentObj;
  llm_stats : TokenStats;
  saved_configs : list UserConfig
}.

(** What [_process_slash_command] returns. *)
Inductive SlashResult : Type :=
| SlashNone
| SlashHandled
| SlashSwitch
| SlashExit
| SlashRaised (message : string).

Record Program : Type := mkProgram {
  get_agent_system_prompt : World -> bool -> string;
  COMPLETE_SYSTEM_PROMPT : string;
  CHAT_SYSTEM_PROMPT : string;
  handle_config_command : MiniShellAgent -> SlashResult * MiniShellAgent;
  handle_export_command : MiniShellAgent -> option string -> SlashResult * MiniShellAgent
}.

(** The truth of [self.require_confirm] *)
Definition confirm_wanted (require_confirm : option bool) : bool :=
  match require_confirm with Some b => b | None => false end.

(** [d.get(key, default)] for an integer *)
Definition get_or (x : option Z) (default : Z) : Z :=
  match x with Some n => n | None => default end.

(** [MiniShellAgent._create_agent] *)
Definition create_agent (P : Program) (cfg : Config) (w : World)
  (app : MiniShellAgent) (mode : string) : Raises AgentObj :=
  if String.eqb mode "complete" then
    Returns (CompleteAgentObj [] (COMPLETE_SYSTEM_PROMPT P))
  else if String.eqb mode "chat" then
    Returns (ChatAgentObj (ChatAgent_init (CHAT_SYSTEM_PROMPT P)) (CHAT_SYSTEM_PROMPT P))
  else if String.eqb mode "agent" then
    let auto := String.eqb (app_agent_mode_type app) "auto" in
    let require_confirm :=
      if auto then false else confirm_wanted (app_require_confirm app) in
    let '(agent, history) :=
      CommandAgent_init cfg (get_agent_system_prompt P w auto)
        (Some (get_or (kwargs_max_steps app) (MAX_STEPS cfg)))
        require_confirm auto
        (Some (get_or (kwargs_max_idle_steps app) (MAX_IDLE_STEPS cfg))) in
    Returns (CommandAgentObj agent history)
  else ValueError ("Unknown mode: " ++ mode).

(** [MiniShellAgent._save_user_config] *)
Definition save_user_config (app : MiniShellAgent) : MiniShellAgent :=
  mkApp (app_mode app) (app_agent_mode_type app) (app_require_confirm app)
        (kwargs_max_steps app) (kwargs_max_idle_steps app) (complete_tool app)
        (app_agent app) (llm_stats app)
        ((app_mode app, app_agent_mode_type app, app_require_confirm app)
         :: saved_configs app).

Definition with_settings (app : MiniShellAgent) (agent_mode_type : string)
  (require_confirm : option bool) : MiniShellAgent :=
  mkApp (app_mode app) agent_mode_type require_confirm
        (kwargs_max_steps app) (kwargs_max_idle_steps app) (complete_tool app)
        (app_agent app) (llm_stats app) (saved_configs app).

Definition with_agent (app : MiniShellAgent) (agent : AgentObj) : MiniShellAgent :=
  mkApp (app_mode app) (app_agent_mode_type app) (app_require_confirm app)
        (kwargs_max_steps app) (kwargs_max_idle_steps app) (complete_tool app)
        agent (llm_stats app) (saved_configs app).

(** [self.agent = self._create_agent(mode)], after the configuration was
    saved. *)
Definition recreate_agent (P : Program) (cfg : Config) (w : World)
  (app : MiniShellAgent) (mode : string) (result : SlashResult)
  : SlashResult * MiniShellAgent :=
  let app := save_user_config app in
  match create_agent P cfg w app mode with
  | Returns agent => (result, with_agent app agent)
  | ValueError message => (SlashRaised message, app)
  end.

(** The index of the first white space of [s], or its length. *)
Fixpoint word_end (s : string) : nat :=
  match s with
  | EmptyString => O
  | String c r => if isspace c then O else S (word_end r)
  end.

(** [user_input[1:].strip().split(None, 1)]: the first word and, if there
    is one, the rest. *)
Definition slash_parts (user_input : string) : option (string * option string) :=
  let s := strip (drop 1 user_input) in
  if is_empty s then None
  else
    let n := word_end s in
    let rest := lstrip (drop n s) in
    Some (take n s, if is_empty rest then None else Some rest).

(** The branch [cmd == "clean"]: every agent has [clear_history] and
    [system_prompt]. *)
Definition clean (P : Program) (w : World) (app : MiniShellAgent) : MiniShellAgent :=
  let prompt := get_agent_system_prompt P w false in
  let history := add_to_history [] "system" prompt in
  let agent :=
    match app_agent app with
    | CompleteAgentObj _ _ => CompleteAgentObj history prompt
    | ChatAgentObj _ _ => ChatAgentObj history prompt
    | CommandAgentObj a _ =>
        CommandAgentObj
          (mkAgent (tool a) (max_steps a) (require_confirm a) (auto_mode a)
                   (max_idle_steps a) prompt)
          history
    end in
  mkApp (app_mode app) (app_agent_mode_type app) (app_require_confirm app)
        (kwargs_max_steps app) (kwargs_max_idle_steps app) (complete_tool app)
        agent reset_token_stats (saved_configs app).

(** The branch [cmd in ("chat", "agent", "complete")]. *)
Definition switch_mode (P : Program) (cfg : Config) (w : World)
  (app : MiniShellAgent) (cmd : string) : SlashResult * MiniShellAgent :=
  if String.eqb cmd (app_mode app) then (SlashHandled, app)
  else
    let tool :=
      if String.eqb cmd "complete" then TerminalTool_init cfg true true
      else complete_tool app in
    let app :=
      mkApp cmd (app_agent_mode_type app) (app_require_confirm app)
            (kwargs_max_steps app) (kwargs_max_idle_steps app) tool
            (app_agent app) reset_token_stats (saved_configs app) in
    recreate_agent P cfg w app cmd SlashSwitch.

(** [MiniShellAgent._process_slash_command] *)
Definition process_slash_command (P : Program) (cfg : Config) (w : World)
  (app : MiniShellAgent) (user_input : string) : SlashResult * MiniShellAgent :=
  if negb (startswith user_input "/") then (SlashNone, app)
  else
    match slash_parts user_input with
    | None => (SlashHandled, app)
    | Some (word, arg) =>
        let cmd := lower word in
        let agent_only (body : SlashResult * MiniShellAgent) :=
          if negb (String.eqb (app_mode app) "agent") then (SlashHandled, app)
          else body in
        if String.eqb cmd "help" then (SlashHandled, app)
        else if String.eqb cmd "config" then handle_config_command P app
        else if String.eqb cmd "confirm" then
          agent_only
            (let on_off :=
               match arg with
               | Some a => (String.eqb (lower a) "on" || String.eqb (lower a) "off")%bool
               | None => false
               end in
             let require_confirm :=
               if on_off
               then String.eqb (lower (match arg with Some a => a | None => "" end)) "on"
               else negb (confirm_wanted (app_require_confirm app)) in
             recreate_agent P cfg w
               (with_settings app (app_agent_mode_type app) (Some require_confirm))
               "agent" SlashHandled)
        else if String.eqb cmd "auto" then
          agent_only
            (recreate_agent P cfg w (with_settings app "auto" (Some false))
               "agent" SlashHandled)
        else if String.eqb cmd "interactive" then
          agent_only
            (let require_confirm :=
               match app_require_confirm app with
               | None => Some true
               | Some b => Some b
               end in
             recreate_agent P cfg w (with_settings app "interactive" require_confirm)
               "agent" SlashHandled)
        else if String.eqb cmd "clean" then (SlashHandled, clean P w app)
        else if String.eqb cmd "export" then handle_export_command P app arg
        else if (String.eqb cmd "chat" || String.eqb cmd "agent"
                 || String.eqb cmd "complete")%bool
        then switch_mode P cfg w app cmd
        else if String.eqb cmd "exit" then (SlashExit, save_user_config app)
        else (SlashHandled, app)
    end.

(* ================================================================== *)
(** ** tools.py: the state file of PersistentShell

    [_init_state] writes the file, and [_execute_unix] reads the
    environment back from it after a command.  A file is its text; reading
    it line by line is done as Python does in text mode, where a carriage
    return, alone or before a line feed, ends a line as a line feed does. *)

Definition squote : ascii := "039"%char.

(** [value.replace(quote, quote dquote quote dquote quote)], the escape of
    [_init_state] for a single quote. *)
Fixpoint escape_quotes (value : string) : string :=
  match value with
  | EmptyString => EmptyString
  | String c r =>
      if Ascii.eqb c squote
      then String squote (String dquote (String squote (String dquote
             (String squote (escape_quotes r)))))
      else String c (escape_quotes r)
  end.

(** One line of the loop over [os.environ.items()]. *)
Definition export_line (key value : string) : string :=
  "export " ++ key ++ "='" ++ escape_quotes value ++ "'" ++ newline.

(** The text that [_init_state] writes to the state file (on Unix). *)
Definition init_state_text (initial_cwd : string) (env : environ) : string :=
  "cd '" ++ initial_cwd ++ "'" ++ newline
  ++ String.concat "" (map (fun kv => export_line (fst kv) (snd kv)) env).

(** [for line in f]: the lines of a text, each with its line feed; [cur]
    is the line being read, reversed. *)
Fixpoint readlines_go (cur : string) (s : string) : list string :=
  match s with
  | EmptyString => if is_empty cur then [] else [rev_acc cur EmptyString]
  | String c r =>
      if Ascii.eqb c "010" then
        rev_acc (String c cur) EmptyString :: readlines_go EmptyString r
      else if Ascii.eqb c "013" then
        rev_acc (String "010" cur) EmptyString
          :: match r with
             | String c' r' =>
                 if Ascii.eqb c' "010" then readlines_go EmptyString r'
                 else readlines_go EmptyString r
             | EmptyString => []
             end
      else readlines_go (String c cur) r
  end.

Definition readlines (text : string) : list string := readlines_go EmptyString text.

(** [s.strip(chars)] for the characters that satisfy [p]. *)
Fixpoint lstrip_of (p : ascii -> bool) (s : string) : string :=
  match s with
  | EmptyString => EmptyString
  | String c r => if p c then lstrip_of p r else s
  end.

Fixpoint all_of (p : ascii -> bool) (s : string) : bool :=
  match s with
  | EmptyString => true
  | String c r => if p c then all_of p r else false
  end.

Fixpoint rstrip_of (p : ascii -> bool) (s : string) : string :=
  match s with
  | EmptyString => EmptyString
  | String c r => if all_of p s then EmptyString else String c (rstrip_of p r)
  end.

Definition strip_of (p : ascii -> bool) (s : string) : string :=
  rstrip_of p (lstrip_of p s).

Definition is_quote (c : ascii) : bool := (Ascii.eqb c squote || Ascii.eqb c dquote)%bool.

(** The body of the loop that restores the environment: the variable that
    the line sets, if it is an [export] line. *)
Definition read_export (line : string) : option (string * string) :=
  let line := strip line in
  if (startswith line "export " && contains line "=")%bool then
    let text := drop 7 line in
    match find_char "=" text with
    | Some i =>
        let var_name := strip (take i text) in
        let var_value := strip_of is_quote (strip (drop (S i) text)) in
        Some (var_name, var_value)
    | None => None
    end
  else None.



(** One pass through the loop of [run_complete_mode] on the line that
    [input_prompt] gave: the signal that ends the loop, if any.  The tool
    of this mode runs the line without the ordinary confirmation; an
    exception is printed and the loop goes on. *)
Definition complete_mode_step (P : Program) (cfg : Config) (E : Env)
  (app : MiniShellAgent) (user_input : string) (w : World)
  : option SlashResult * MiniShellAgent * World :=
  if is_empty user_input then (None, app, w)
  else
    let '(slash_result, app1) := process_slash_command P cfg w app user_input in
    match slash_result with
    | SlashSwitch => (Some SlashSwitch, app1, w)
    | SlashExit => (Some SlashExit, app1, w)
    | SlashHandled => (None, app1, w)
    | SlashRaised _ => (None, app1, w)
    | SlashNone =>
        let '(is_valid, msg) := validate_command cfg (complete_tool app1) user_input in
        if negb is_valid then (None, app1, w)
        else
          let '(_, w1) := execute E cfg (complete_tool app1) user_input false w in
          (None, app1, w1)
    end.

(* ================================================================== *)
(** ** Vocabulary of the further properties *)

(** The number of calls to the LLM among the events [evs]. *)
Fixpoint llm_events (evs : list Event) : nat :=
  match evs with
  | [] => O
  | EvLLM :: r => S (llm_events r)
  | _ :: r => llm_events r
  end.

(** The indices of the step records [l] grow strictly, from above [lo] and
    up to [hi]. *)
Fixpoint indices_between (lo hi : Z) (l : list StepRecord) : Prop :=
  match l with
  | [] => True
  | s :: r => lo < step_index s <= hi /\ indices_between (step_index s) hi r
  end.

(** The effects of a part of the loop body that starts in state [st] and
    world [w]: the messages, the events and the step records it adds. *)
Definition adds (st : LoopState) (w : World) (o : Outcome)
  (max_msgs llm : nat) : Prop :=
  exists msgs evs new_steps,
    history (state_of o) = (history st ++ msgs)%list
    /\ (length msgs <= max_msgs)%nat
    /\ trace (world_of o) = (evs ++ trace w)%list
    /\ llm_events evs = llm
    /\ steps (state_of o) = (steps st ++ new_steps)%list
    /\ (new_steps = []
        \/ exists c ok out err, new_steps = [mkStep (current_step st) c ok out err])
    /\ current_step (state_of o) = current_step st.

(** The questions that [execute] asks before it hands [command] to a shell,
    most recent first, all answered yes. *)
Definition questions (tl : TerminalTool) (command : string) (require_confirm : bool)
  : list Event :=
  (asked (require_confirm && negb (is_sudo command) && negb (is_high_risk command))
         prompt_normal true true
   ++ asked (is_high_risk command && safe_mode tl) prompt_high_risk false true
   ++ asked (is_sudo command) prompt_sudo false true)%list.

(** An event that can occur while the agent works unattended: no dialogue
    with the user, and no question other than the one about sudo and the
    one about a high risk, whose default answer is no. *)
Definition unattended (e : Event) : Prop :=
  match e with
  | EvInteract => False
  | EvConfirm message default _ =>
      (message = prompt_sudo \/ message = prompt_high_risk) /\ default = false
  | _ => True
  end.

(** The first, and the last, character of [m] is no white space. *)
Definition first_solid (m : string) : bool :=
  match m with
  | String c _ => negb (isspace c)
  | EmptyString => false
  end.

Fixpoint last_solid (m : string) : bool :=
  match m with
  | EmptyString => false
  | String c EmptyString => negb (isspace c)
  | String _ r => last_solid r
  end.

(** The commands that the lines of a history file hold, in the order of
    the file, and the last [n] elements of a list. *)
Definition history_entries (lines : list string) : list string :=
  flat_map (fun line => match history_entry line with
                        | Some cmd => [cmd]
                        | None => []
                        end) lines.

Definition lastn {A : Type} (n : nat) (l : list A) : list A :=
  skipn (List.length l - n) l.

(** The elements of [l], each at its first place. *)
Fixpoint first_uses (l : list string) : list string :=
  match l with
  | [] => []
  | x :: r => x :: filter (fun y => negb (String.eqb x y)) (first_uses r)
  end.

(** A key that is no character, or an ASCII character. *)
Definition ascii_key (key : Key) : bool :=
  match key with
  | KeyChar c => Nat.ltb (nat_of_ascii c) 128
  | _ => true
  end.

(** A line that [input] can give and [int] can read: ASCII text of at most
    4300 characters. *)
Definition short_ascii (line : option string) : Prop :=
  match line with
  | Some text => is_ascii text = true /\ (String.length text <= 4300)%nat
  | None => True
  end.

(** The error texts of the LLM hold no markup. *)
Definition printable_errors (E : Env) : Prop :=
  forall w h e, llm_generate E w h = LLMRaised e -> no_markup e = true.

(** [s] is made of digits only. *)
Fixpoint all_digits (s : string) : bool :=
  match s with
  | EmptyString => true
  | String c r => if is_digit c then all_digits r else false
  end.

(** The characters that may close a numbering. *)
Definition closes_numbering (c : ascii) : bool :=
  (Ascii.eqb c "." || Ascii.eqb c ")")%bool.

(** The pattern [numbering] after its first digit. *)
Definition numbering_rest : Re.re :=
  Re.Seq (Re.Star (Re.Cls is_digit))
    (Re.Seq (Re.Cls (fun c => (Ascii.eqb c "." || Ascii.eqb c ")")%bool))
            (Re.Star Re.space)).

(** A conversation: [chat] called on each input in turn. *)
Fixpoint chat_all (generate : list Message -> Generated) (history : list Message)
  (inputs : list string) : list Message :=
  match inputs with
  | [] => history
  | user_input :: r => chat_all generate (snd (chat generate history user_input)) r
  end.

(** Every message of [h] is a question or an answer, and every answer
    comes directly after a question; [previous] is the role of the message
    before [h]. *)
Fixpoint answers_follow_questions (previous : string) (h : list Message) : bool :=
  match h with
  | [] => true
  | m :: r =>
      ((if String.eqb (role m) "assistant" then String.eqb previous "user"
        else String.eqb (role m) "user")
       && answers_follow_questions (role m) r)%bool
  end.

(** The texts of the questions of a history. *)
Definition questions_of (h : list Message) : list string :=
  map content (filter (fun m => String.eqb (role m) "user") h).

(** The requests of a session, each with its [timeout] argument, and the
    counters after them. *)
Definition generate_all (cfg : Config) (calls : list (option Z * ApiOutcome))
  (stats : TokenStats) : TokenStats :=
  fold_left (fun s call => snd (OpenAILLM_generate cfg (fst call) (snd call) s))
            calls stats.

(** The usage records of the replies that came with a content. *)
Definition usages (calls : list (option Z * ApiOutcome)) : list Usage :=
  flat_map (fun call => match snd call with
                        | ApiResponse (Some _) (Some u) => [u]
                        | _ => []
                        end) calls.

Definition sumZ (l : list Z) : Z := fold_right Z.add 0 l.

(** [user_input] is the control command [name], in any case and with any
    argument. *)
Definition is_command (user_input name : string) : bool :=
  (startswith user_input "/"
   && match slash_parts user_input with
      | Some (word, _) => String.eqb (lower word) name
      | None => false
      end)%bool.

Definition agent_history (agent : AgentObj) : list Message :=
  match agent with
  | CompleteAgentObj history _ => history
  | ChatAgentObj history _ => history
  | CommandAgentObj _ history => history
  end.

Definition agent_system_prompt (agent : AgentObj) : string :=
  match agent with
  | CompleteAgentObj _ prompt => prompt
  | ChatAgentObj _ prompt => prompt
  | CommandAgentObj a _ => system_prompt a
  end.

(** The mode that an agent object belongs to. *)
Definition agent_kind (agent : AgentObj) : string :=
  match agent with
  | CompleteAgentObj _ _ => "complete"
  | ChatAgentObj _ _ => "chat"
  | CommandAgentObj _ _ => "agent"
  end.

(** What [_save_user_config] would write now. *)
Definition settings (app : MiniShellAgent) : UserConfig :=
  (app_mode app, app_agent_mode_type app, app_require_confirm app).

(** The agent is the one that [_create_agent] makes for the current mode
    and settings: of the kind of the mode and, in agent mode, in AUTO mode
    exactly when the settings say so and asking for confirmation exactly
    when they ask for it outside AUTO mode. *)
Definition agent_in_sync (app : MiniShellAgent) : Prop :=
  agent_kind (app_agent app) = app_mode app
  /\ match app_agent app with
     | CommandAgentObj a _ =>
         auto_mode a = String.eqb (app_agent_mode_type app) "auto"
         /\ require_confirm a
            = (negb (String.eqb (app_agent_mode_type app) "auto")
               && confirm_wanted (app_require_confirm app))%bool
     | _ => True
     end.



(** The variables that the lines of a state file set, in their order. *)
Definition exports_of (lines : list string) : list (string * string) :=
  flat_map (fun line => match read_export line with
                        | Some x => [x]
                        | None => []
                        end) lines.

(** [is_directory_change_cmd] of the fallback path of [execute] *)
Definition is_directory_change (command : string) : bool :=
  let command_lower := lower (strip command) in
  (startswith command_lower "cd " || startswith command_lower "pushd "
   || String.eqb command_lower "popd" || startswith command_lower "popd ")%bool.

(** The process moved from the directory of [w] into [path], which an
    oracle call in some world took for an existing directory and let the
    process enter. *)
Definition entered (E : Env) (path : string) : Prop :=
  is_empty path = false
  /\ exists w0, os_path_isdir E w0 path = true /\ os_chdir_ok E w0 path = true.

(** [s] up to its first [ch], or all of it. *)
Fixpoint until (ch : ascii) (s : string) : string :=
  match s with
  | EmptyString => EmptyString
  | String c r => if Ascii.eqb ch c then EmptyString else String c (until ch r)
  end.

(* ================================================================== *)
(** ** Inputs of the further examples *)

(** An LLM that asks for one [echo] and then reports success. *)
Definition hello_env : Env :=
  Demo.env_of
    (Demo.scripted [LLMText (dq "{'command':'echo hi'}");
                    LLMText (dq "{'status':'success','summary':'done'}")])
    true.

(** A zsh history file. *)
Definition zsh_history : HistoryFile :=
  HistoryLines [ ": 1700000001:0;ls -l" ++ newline;
                 ": 1700000002:0;cd /tmp" ++ newline;
                 newline;
                 ": 1700000003:0;ls -l" ++ newline;
                 "make test" ++ newline ].

(** An LLM that fails on its second request. *)
Definition moody (history : list Message) : Generated :=
  if Nat.eqb (List.length history) 4 then GenRaised "connection reset"
  else GenText "use ls".

(** A session in agent mode, interactive, with confirmation. *)
Definition demo_program : Program :=
  mkProgram (fun _ auto => if auto then "auto prompt" else "interactive prompt")
            "complete prompt" "chat prompt"
            (fun app => (SlashHandled, app)) (fun app _ => (SlashHandled, app)).

Definition demo_app : MiniShellAgent :=
  mkApp "agent" "interactive" (Some true) None None
        (TerminalTool_init default_config true false)
        (CommandAgentObj Demo.interactive_agent Demo.history0)
        (mkStats 12 30 42 3) [].

(** What the session becomes when confirmation is switched off, and when
    the context is cleared. *)
Definition after_confirm_off : SlashResult * MiniShellAgent :=
  process_slash_command demo_program default_config Demo.world0 demo_app "/confirm off".

Definition after_clean : SlashResult * MiniShellAgent :=
  process_slash_command demo_program default_config Demo.world0 demo_app "/Clean".



(* ================================================================== *)
(** ** Proof tools *)

Arguments is_dangerous_command : simpl never.
Arguments validate_command : simpl never.
Arguments strip : simpl never.
Arguments lower : simpl never.
Arguments startswith : simpl never.
Arguments contains : simpl never.
Arguments any : simpl never.
Arguments split : simpl never.

Ltac in_asked :=
  unfold asked in *; simpl in *;
  repeat match goal with
         | H : In _ (_ ++ _) |- _ => apply in_app_or in H; destruct H
         | H : In _ (if ?b then _ else _) |- _ => destruct b; simpl in H
         | H : _ \/ _ |- _ => destruct H
         | H : False |- _ => contradiction
         | H : EvConfirm _ _ _ = EvConfirm _ _ _ |- _ => inversion H; subst; clear H
         end.

Ltac case_scrutinee H :=
  match type of H with
  | context [match ?x with _ => _ end] =>
      let E := fresh "E" in destruct x eqn:E; try discriminate H
  end.

(* ================================================================== *)
(** * Properties *)

(** *** The model on small inputs *)

Example dangerous_literal : is_dangerous_command default_config "rm -rf /" = true.
Proof. reflexivity. Qed.
Example dangerous_regex :
  is_dangerous_command default_config "RM   -rf   /home/me" = true.
Proof. vm_compute. reflexivity. Qed.
Example dangerous_sudo_format :
  is_dangerous_command default_config "sudo format c:" = true.
Proof. vm_compute. reflexivity. Qed.
Example dangerous_rm_lib :
  is_dangerous_command default_config "rm -r /lib/x" = true.
Proof. vm_compute. reflexivity. Qed.
Example not_dangerous_ls : is_dangerous_command default_config "ls -la" = false.
Proof. vm_compute. reflexivity. Qed.
Example not_dangerous_rm_local :
  is_dangerous_command default_config "rm -rf build" = false.
Proof. vm_compute. reflexivity. Qed.
Example not_dangerous_bare_sudo : is_dangerous_command default_config "sudo " = false.
Proof. vm_compute. reflexivity. Qed.
Example safe_mode_off :
  is_dangerous_command (mkConfig 10 2 120 false false) "rm -rf /" = false.
Proof. reflexivity. Qed.

Example loads_command :
  loads (dq "{'thought': 'list', 'command': 'ls -la'}")
  = Some (JObj [("thought", JStr "list"); ("command", JStr "ls -la")]).
Proof. vm_compute. reflexivity. Qed.
Example loads_nested :
  loads (dq " {'a': [1, 2.5e3, true, null, {'b': 'x\nyA'}], 'c': {}} ")
  = Some (JObj [("a", JArr [JNum "1"; JNum "2.5e3"; JBool true; JNull;
                            JObj [("b", JStr (String "x" (String "010" "yA")))]]);
                ("c", JObj [])]).
Proof. vm_compute. reflexivity. Qed.
Example loads_bare_word : loads "{oops}" = None.
Proof. vm_compute. reflexivity. Qed.
Example loads_trailing_comma : loads (dq "{'a': 1,}") = None.
Proof. vm_compute. reflexivity. Qed.
Example loads_extra_data : loads (dq "{'a': 1} x") = None.
Proof. vm_compute. reflexivity. Qed.
Example loads_leading_zero : loads "01" = None.
Proof. vm_compute. reflexivity. Qed.
Example dict_get_last : dict_get "a" [("a", JNum "1"); ("a", JNum "2")] = Some (JNum "2").
Proof. reflexivity. Qed.

Example parse_bare_command :
  parse_response (dq "I will list. {'thought': 't', 'command': 'ls'} ok")
  = Some [("thought", JStr "t"); ("command", JStr "ls")].
Proof. vm_compute. reflexivity. Qed.
Example parse_fenced_wins :
  parse_response (dq "```json
{'command': 'pwd'}
``` and {'command': 'ls'}")
  = Some [("command", JStr "pwd")].
Proof. vm_compute. reflexivity. Qed.
Example parse_braces_in_text :
  parse_response (dq "{'command': 'echo \'}{\' {'}")
  = Some [("command", JStr (dq "echo '}{' {"))].
Proof. vm_compute. reflexivity. Qed.
Example parse_interaction :
  parse_response (dq "{'status': 'interaction', 'message': 'which?'}")
  = Some [("interaction", JBool true); ("message", JStr "which?");
          ("options", JNull); ("allow_custom_input", JBool false)].
Proof. vm_compute. reflexivity. Qed.
Example parse_prose : parse_response "All done, nothing left." = None.
Proof. vm_compute. reflexivity. Qed.
Example final_summary_prose : is_final_summary "All DONE, nothing left." = true.
Proof. vm_compute. reflexivity. Qed.

Example sh_keeps_exports_within_one_child :
  Demo.mini_sh Demo.world0 "export FOO=bar && echo $FOO"
  = Completed 0 ("bar" ++ newline) "".
Proof. vm_compute. reflexivity. Qed.

(** Scenario "simple success" of the specification. *)
Example scenario_simple_success :
  let E := Demo.env_of
             (Demo.scripted [LLMText (dq "{'command':'echo hi'}");
                             LLMText (dq "{'status':'success','summary':'done'}")])
             true in
  match run E default_config Demo.auto_agent Demo.history0
            (Some "print the word hi") false Demo.world0 with
  | Some (r, st, _) =>
      r = mkResult true (Some [mkStep 1 "echo hi" true "hi" ""]) (Some (JStr "done")) None
      /\ current_step st = 2
  | None => False
  end.
Proof. vm_compute. split; reflexivity. Qed.

(** Scenario "dangerous refusal": no step record, an observation that
    says the command is not allowed, and a failed run. *)
Example scenario_dangerous_refusal :
  let E := Demo.env_of
             (Demo.scripted [LLMText (dq "{'command':'rm -rf /'}");
                             LLMText (dq "{'status':'failed','summary':'blocked'}")])
             true in
  match run E default_config Demo.auto_agent Demo.history0
            (Some "wipe root") false Demo.world0 with
  | Some (r, st, w) =>
      r = mkResult false (Some []) (Some (JStr "blocked")) None
      /\ nth 3 (history st) (mkMessage "" "")
         = mkMessage "user" (msg_invalid_prefix ++ msg_dangerous "rm -rf /")
      /\ trace w = [EvLLM; EvLLM]
  | None => False
  end.
Proof. vm_compute. repeat split; reflexivity. Qed.

(** Scenario "directory persistence": after [cd /tmp] the child of [pwd]
    starts in [/tmp], and so does the process. *)
Example scenario_directory_persistence :
  let E := Demo.env_of
             (Demo.scripted [LLMText (dq "{'command':'cd /tmp'}");
                             LLMText (dq "{'command':'pwd'}");
                             LLMText (dq "{'status':'success','summary':'ok'}")])
             true in
  match run E default_config Demo.auto_agent Demo.history0
            (Some "go to tmp") false Demo.world0 with
  | Some (r, st, w) =>
      r_steps r = Some [mkStep 1 "cd /tmp" true "" ""; mkStep 2 "pwd" true "/tmp" ""]
      /\ r_success r = true
      /\ os_cwd w = "/tmp"
  | None => False
  end.
Proof. vm_compute. repeat split; reflexivity. Qed.

(** Scenario "idle cap": the second empty reply in a row ends the run. *)
Example scenario_idle_cap :
  let E := Demo.env_of (Demo.always (LLMText "")) true in
  match run E default_config Demo.auto_agent Demo.history0
            (Some "anything") false Demo.world0 with
  | Some (r, st, w) =>
      r = mkResult false (Some []) (Some (JStr summary_blank)) None
      /\ current_step st = 2
      /\ idle_steps st = 2
      /\ history st = add_to_history Demo.history0 "user" (AGENT_USER_TEMPLATE "anything")
  | None => False
  end.
Proof. vm_compute. repeat split; reflexivity. Qed.

(** *** Events of [execute] *)

Lemma chdir_trace E p w :
  exists evs, trace (chdir E p w) = (evs ++ trace w)%list
              /\ forallb is_child_event evs = true
              /\ os_environ (chdir E p w) = os_environ w.
Proof.
  unfold chdir. destruct (os_chdir_ok E w p).
  - exists [EvChdir p]. auto.
  - exists []. auto.
Qed.

Lemma execute_fallback_trace E c w :
  exists evs, trace (snd (execute_fallback E c w)) = (evs ++ trace w)%list
              /\ forallb is_child_event evs = true
              /\ os_environ (snd (execute_fallback E c w)) = os_environ w.
Proof.
  unfold execute_fallback, run_subprocess.
  match goal with |- context [if ?b then _ else _] => destruct b end.
  - destruct (subprocess_run E w (c ++ " && pwd")) as [rc out err| |e]; simpl.
    + destruct (rc =? 0); simpl.
      * match goal with |- context [if ?b then _ else _] => destruct b end.
        -- destruct (chdir_trace E (last (split (strip out) newline) "")
                       (log (EvSubprocess (c ++ " && pwd")) w)) as (evs & Ht & Hc & He).
           exists (evs ++ [EvSubprocess (c ++ " && pwd")])%list.
           rewrite Ht, He. simpl. rewrite <- app_assoc. simpl.
           rewrite forallb_app, Hc. auto.
        -- exists [EvSubprocess (c ++ " && pwd")]. auto.
      * exists [EvSubprocess (c ++ " && pwd")]. auto.
    + exists [EvSubprocess (c ++ " && pwd")]. auto.
    + exists [EvSubprocess (c ++ " && pwd")]. auto.
  - destruct (subprocess_run E w c) as [rc out err| |e]; simpl.
    + set (w1 := log (EvSubprocess c) w).
      set (w2 := log (EvSubprocess "pwd") w1).
      destruct (subprocess_run E w1 "pwd") as [prc pout perr| |pe]; simpl.
      * match goal with |- context [if ?b then _ else _] => destruct b end.
        -- destruct (chdir_trace E (strip pout) w2) as (evs & Ht & Hc & He).
           exists (evs ++ [EvSubprocess "pwd"; EvSubprocess c])%list.
           rewrite Ht, He. simpl. rewrite <- app_assoc. simpl.
           rewrite forallb_app, Hc. auto.
        -- exists [EvSubprocess "pwd"; EvSubprocess c]. auto.
      * exists [EvSubprocess "pwd"; EvSubprocess c]. auto.
      * exists [EvSubprocess "pwd"; EvSubprocess c]. auto.
    + exists [EvSubprocess c]. auto.
    + exists [EvSubprocess c]. auto.
Qed.

Lemma execute_run_trace E tl c w :
  exists childs,
    trace (snd (execute_run E tl c w)) = (childs ++ EvShell c :: trace w)%list
    /\ forallb is_child_event childs = true.
Proof.
  unfold execute_run.
  destruct (use_persistent_shell tl && persistent_shell tl)%bool.
  - unfold execute_persistent.
    destruct (persistent_execute E (log (EvShell c) w) c) as [[res cwd] env].
    exists [EvPersistent c]. auto.
  - destruct (execute_fallback_trace E c (log (EvShell c) w)) as (evs & Ht & Hc & _).
    exists evs. auto.
Qed.

Lemma execute_run_environ E tl c w :
  use_persistent_shell tl = false ->
  os_environ (snd (execute_run E tl c w)) = os_environ w.
Proof.
  intros Hp. unfold execute_run. rewrite Hp. simpl.
  destruct (execute_fallback_trace E c (log (EvShell c) w)) as (evs & _ & _ & He).
  exact He.
Qed.

Lemma ask_trace E needed m d w ok w' :
  ask E needed m d w = (ok, w') ->
  trace w' = (asked needed m d ok ++ trace w)%list
  /\ (needed = false -> ok = true)
  /\ os_cwd w' = os_cwd w /\ os_environ w' = os_environ w.
Proof.
  unfold ask, confirm, asked. destruct needed; intros H; inversion H; subst; simpl; auto.
  repeat split; auto. discriminate.
Qed.

Lemma execute_shape E cfg tl c rc w :
  exists confs runs,
    trace (snd (execute E cfg tl c rc w)) = (runs ++ confs ++ trace w)%list
    /\ (forall e, In e confs -> exists m d a, e = EvConfirm m d a)
    /\ (runs = []
        \/ exists childs, runs = (childs ++ [EvShell c])%list
                          /\ forallb is_child_event childs = true)
    /\ (runs <> [] ->
        (safe_mode tl && is_dangerous_command cfg c)%bool = false
        /\ fst (validate_command cfg tl c) = true
        /\ (forall m d a, In (EvConfirm m d a) confs -> a = true)
        /\ (is_sudo c = true -> In (EvConfirm prompt_sudo false true) confs)
        /\ ((is_high_risk c && safe_mode tl)%bool = true ->
            In (EvConfirm prompt_high_risk false true) confs)
        /\ ((rc && negb (is_sudo c) && negb (is_high_risk c))%bool = true ->
            In (EvConfirm prompt_normal true true) confs))
    /\ (forall m d, In (EvConfirm m d false) confs ->
        runs = []
        /\ exists stderr, fst (execute E cfg tl c rc w) = (false, "", stderr)
                          /\ startswith stderr "User cancelled" = true).
Proof.
  unfold execute.
  change (startswith (strip (lower c)) "sudo ") with (is_sudo c).
  change (any (fun keyword => contains (strip (lower c)) keyword) high_risk_keywords)
    with (is_high_risk c).
  destruct (safe_mode tl && is_dangerous_command cfg c)%bool eqn:Hd.
  { exists [], []. simpl. repeat split; auto; try contradiction; intros; contradiction. }
  destruct (validate_command cfg tl c) as [is_valid msg] eqn:Hv.
  destruct is_valid; simpl.
  2:{ exists [], []. simpl. repeat split; auto; try contradiction; intros; contradiction. }
  destruct (ask E (is_sudo c) prompt_sudo false w) as [ok1 w1] eqn:A1.
  apply ask_trace in A1 as (T1 & N1 & _).
  destruct ok1; simpl.
  2:{ exists (asked (is_sudo c) prompt_sudo false false), []. simpl.
      split; [exact T1|]. split.
      { intros e He. in_asked. subst; eauto. }
      split; [auto|]. split; [intros; contradiction|].
      intros m d Hin. split; auto. eexists; split; reflexivity. }
  destruct (ask E (is_high_risk c && safe_mode tl) prompt_high_risk false w1)
    as [ok2 w2] eqn:A2.
  apply ask_trace in A2 as (T2 & N2 & _).
  destruct ok2; simpl.
  2:{ exists (asked (is_high_risk c && safe_mode tl) prompt_high_risk false false
              ++ asked (is_sudo c) prompt_sudo false true)%list, []. simpl.
      split; [rewrite T2, T1, app_assoc; reflexivity|]. split.
      { intros e He. in_asked; subst; eauto. }
      split; [auto|]. split; [intros; contradiction|].
      intros m d Hin. split; auto. eexists; split; reflexivity. }
  destruct (ask E (rc && negb (is_sudo c) && negb (is_high_risk c)) prompt_normal true w2)
    as [ok3 w3] eqn:A3.
  apply ask_trace in A3 as (T3 & N3 & _).
  set (confs := (asked (rc && negb (is_sudo c) && negb (is_high_risk c)) prompt_normal true ok3
                 ++ asked (is_high_risk c && safe_mode tl) prompt_high_risk false true
                 ++ asked (is_sudo c) prompt_sudo false true)%list).
  assert (Tc : trace w3 = (confs ++ trace w)%list).
  { unfold confs. rewrite T3, T2, T1, <- !app_assoc. reflexivity. }
  assert (Hc : forall e, In e confs -> exists m d a, e = EvConfirm m d a).
  { unfold confs. intros e He. in_asked; subst; eauto. }
  destruct ok3; simpl.
  2:{ exists confs, []. simpl. split; [exact Tc|]. split; [exact Hc|].
      split; [auto|]. split; [intros; contradiction|].
      intros m d Hin. split; auto. eexists; split; reflexivity. }
  destruct (execute_run_trace E tl c w3) as (childs & Tr & Hch).
  exists confs, (childs ++ [EvShell c])%list.
  split. { rewrite Tr, Tc, <- app_assoc. reflexivity. }
  split; [exact Hc|].
  split. { right. exists childs. auto. }
  split.
  { intros _. split; [reflexivity|]. split; [reflexivity|].
    split. { unfold confs. intros m d a Hin. in_asked; reflexivity. }
    split. { intros Hs. unfold confs. rewrite Hs. unfold asked. simpl.
             apply in_or_app. right. apply in_or_app. right. simpl. auto. }
    split. { intros Hs. unfold confs. rewrite Hs. unfold asked at 2. simpl.
             apply in_or_app. right. simpl. auto. }
    intros Hs. unfold confs. rewrite Hs. simpl. auto. }
  intros m d Hin. exfalso. unfold confs in Hin. in_asked.
Qed.

(** *** The loop body *)

Lemma shells_gated_nil cfg tl : shells_gated cfg tl [].
Proof. intros c []. Qed.

Lemma shells_gated_app cfg tl a b :
  shells_gated cfg tl a -> shells_gated cfg tl b -> shells_gated cfg tl (a ++ b).
Proof. intros Ha Hb c Hin. apply in_app_or in Hin. destruct Hin; auto. Qed.

Lemma child_events_no_shell childs c :
  forallb is_child_event childs = true -> ~ In (EvShell c) childs.
Proof.
  intros Hall Hin. rewrite forallb_forall in Hall. apply Hall in Hin. discriminate.
Qed.

Lemma execute_gated E cfg tl c rc w :
  exists evs, trace (snd (execute E cfg tl c rc w)) = (evs ++ trace w)%list
              /\ shells_gated cfg tl evs.
Proof.
  destruct (execute_shape E cfg tl c rc w) as (confs & runs & Ht & Hc & Hr & Hg & _).
  exists (runs ++ confs)%list. split. { rewrite Ht, app_assoc. reflexivity. }
  intros c' Hin. apply in_app_or in Hin. destruct Hin as [Hin|Hin].
  - destruct Hr as [->|(childs & -> & Hch)]; [contradiction|].
    apply in_app_or in Hin. destruct Hin as [Hin|Hin].
    + exfalso. eapply child_events_no_shell; eauto.
    + simpl in Hin. destruct Hin as [Heq|[]]. inversion Heq; subst c'.
      destruct Hg as (Hd & Hv & _). { destruct childs; discriminate. }
      auto.
  - apply Hc in Hin. destruct Hin as (m & d & a & Heq). discriminate.
Qed.

Lemma count_idle_world agent st w r : world_of (count_idle agent st w r) = w.
Proof. unfold count_idle. destruct (_ >=? _); reflexivity. Qed.

Lemma count_idle_state agent st w r :
  state_of (count_idle agent st w r)
  = mkLoop (history st) (steps st) (current_step st) (idle_steps st + 1).
Proof. unfold count_idle. destruct (_ >=? _); reflexivity. Qed.

Lemma handle_command_gated E cfg agent st w command :
  exists evs,
    trace (world_of (handle_command E cfg agent st w command)) = (evs ++ trace w)%list
    /\ shells_gated cfg (tool agent) evs.
Proof.
  unfold handle_command.
  assert (Hnil : forall o, world_of o = w ->
                 exists evs, trace (world_of o) = (evs ++ trace w)%list
                             /\ shells_gated cfg (tool agent) evs).
  { intros o ->. exists []. split; [reflexivity|apply shells_gated_nil]. }
  destruct command as [|b|l|c|l|d];
    try (destruct (truthy _); apply Hnil; [reflexivity|apply count_idle_world]).
  destruct (validate_command cfg (tool agent) c) as [is_valid msg].
  destruct is_valid; simpl; [|apply Hnil, count_idle_world].
  destruct (execute_gated E cfg (tool agent) c
              (require_confirm agent && negb (auto_mode agent)) w) as (evs & Ht & Hg).
  destruct (execute E cfg (tool agent) c (require_confirm agent && negb (auto_mode agent)) w)
    as [[[success stdout] stderr] w1].
  simpl in *. exists evs. auto.
Qed.

Lemma handle_parsed_gated E cfg agent st w response info :
  exists evs,
    trace (world_of (handle_parsed E cfg agent st w response info)) = (evs ++ trace w)%list
    /\ shells_gated cfg (tool agent) evs.
Proof.
  unfold handle_parsed.
  destruct (_ && _)%bool.
  - destruct (negb (auto_mode agent)).
    + exists [EvInteract]. split.
      * destruct (ui_interact _ _ _ _ _) as [u|e]; [destruct (is_empty u)|]; reflexivity.
      * intros c [H|[]]. discriminate.
    + exists []. split; [reflexivity|apply shells_gated_nil].
  - destruct (dict_get "status" info).
    + exists []. split; [reflexivity|apply shells_gated_nil].
    + destruct (dict_get "command" info).
      * apply handle_command_gated.
      * exists []. split; [reflexivity|apply shells_gated_nil].
Qed.

Lemma iteration_gated E cfg agent st w :
  exists evs,
    trace (world_of (iteration E cfg agent st w)) = (evs ++ trace w)%list
    /\ shells_gated cfg (tool agent) evs.
Proof.
  unfold iteration.
  assert (Hone : forall o, world_of o = log EvLLM w ->
                 exists evs, trace (world_of o) = (evs ++ trace w)%list
                             /\ shells_gated cfg (tool agent) evs).
  { intros o ->. exists [EvLLM]. split; [reflexivity|]. intros c [H|[]]. discriminate. }
  destruct (llm_generate _ _ _) as [e| |response];
    try (apply Hone, count_idle_world).
  destruct (is_empty (strip response)); [apply Hone, count_idle_world|].
  destruct (parse_response response) as [info|].
  - match goal with
    | |- context [handle_parsed E cfg agent ?s ?w' response info] =>
        destruct (handle_parsed_gated E cfg agent s w' response info) as (evs & Ht & Hg)
    end.
    exists (evs ++ [EvLLM])%list. split.
    + rewrite Ht. simpl. rewrite <- app_assoc. reflexivity.
    + apply shells_gated_app; auto. intros c [H|[]]. discriminate.
  - destruct (is_final_summary response); [apply Hone; reflexivity|].
    apply Hone, count_idle_world.
Qed.

Lemma run_loop_gated E cfg agent fuel : forall st w r st' w',
  run_loop fuel E cfg agent st w = Some (r, st', w') ->
  exists evs, trace w' = (evs ++ trace w)%list /\ shells_gated cfg (tool agent) evs.
Proof.
  induction fuel as [|f IH]; intros st w r st' w' H; simpl in H; [discriminate|].
  destruct (current_step st <? max_steps agent).
  - destruct (iteration_gated E cfg agent st w) as (evs1 & Ht1 & Hg1).
    destruct (iteration E cfg agent st w) as [st1 w1|r1 st1 w1]; simpl in Ht1.
    + apply IH in H. destruct H as (evs2 & Ht2 & Hg2).
      exists (evs2 ++ evs1)%list. split.
      * rewrite Ht2, Ht1, app_assoc. reflexivity.
      * apply shells_gated_app; auto.
    + inversion H; subst. exists evs1. auto.
  - inversion H; subst. exists []. split; [reflexivity|apply shells_gated_nil].
Qed.

(** *** The step counter *)

Lemma handle_command_step E cfg agent st w command :
  current_step (state_of (handle_command E cfg agent st w command)) = current_step st.
Proof.
  unfold handle_command.
  destruct command as [|b|l|c|l|d];
    try (destruct (truthy _); [reflexivity|rewrite count_idle_state; reflexivity]).
  destruct (validate_command cfg (tool agent) c) as [is_valid msg].
  destruct is_valid; simpl; [|rewrite count_idle_state; reflexivity].
  destruct (execute _ _ _ _ _ _) as [[[success stdout] stderr] w1]. reflexivity.
Qed.

Lemma handle_parsed_step E cfg agent st w response info :
  current_step (state_of (handle_parsed E cfg agent st w response info)) = current_step st.
Proof.
  unfold handle_parsed.
  destruct (_ && _)%bool.
  - destruct (negb (auto_mode agent)); [|reflexivity].
    destruct (ui_interact _ _ _ _ _) as [u|e]; [destruct (is_empty u)|]; reflexivity.
  - destruct (dict_get "status" info); [reflexivity|].
    destruct (dict_get "command" info); [apply handle_command_step|reflexivity].
Qed.

Lemma iteration_step E cfg agent st w :
  current_step (state_of (iteration E cfg agent st w)) = current_step st + 1.
Proof.
  unfold iteration.
  destruct (llm_generate _ _ _) as [e| |response];
    try (rewrite count_idle_state; reflexivity).
  destruct (is_empty (strip response)); [rewrite count_idle_state; reflexivity|].
  destruct (parse_response response) as [info|].
  - rewrite handle_parsed_step. reflexivity.
  - destruct (is_final_summary response); [reflexivity|].
    rewrite count_idle_state. reflexivity.
Qed.

Lemma reaches_counter E cfg agent n st w st' w' :
  reaches E cfg agent n st w st' w' ->
  current_step st' = current_step st + Z.of_nat n
  /\ (n <> O -> current_step st' <= max_steps agent).
Proof.
  induction 1 as [st w|n st w st1 w1 st2 w2 Hlt Hit Hr [IHc IHb]].
  - split; [lia|congruence].
  - pose proof (iteration_step E cfg agent st w) as Hs. rewrite Hit in Hs. simpl in Hs.
    split; [lia|]. intros _. destruct n as [|n]; [|apply IHb; discriminate].
    inversion Hr; subst. lia.
Qed.

Lemma run_loop_total E cfg agent fuel : forall st w,
  (Z.to_nat (max_steps agent - current_step st) < fuel)%nat ->
  exists r st' w', run_loop fuel E cfg agent st w = Some (r, st', w').
Proof.
  induction fuel as [|f IH]; intros st w Hf; [lia|]. simpl.
  destruct (current_step st <? max_steps agent) eqn:Hlt; [|eauto].
  apply Z.ltb_lt in Hlt.
  pose proof (iteration_step E cfg agent st w) as Hs.
  destruct (iteration E cfg agent st w) as [st1 w1|r1 st1 w1]; simpl in Hs; [|eauto].
  apply IH. lia.
Qed.

Lemma run_loop_counter E cfg agent fuel : forall st w r st' w',
  run_loop fuel E cfg agent st w = Some (r, st', w') ->
  current_step st <= current_step st' <= Z.max (current_step st) (max_steps agent).
Proof.
  induction fuel as [|f IH]; intros st w r st' w' H; simpl in H; [discriminate|].
  destruct (current_step st <? max_steps agent) eqn:Hlt.
  - apply Z.ltb_lt in Hlt.
    pose proof (iteration_step E cfg agent st w) as Hs.
    destruct (iteration E cfg agent st w) as [st1 w1|r1 st1 w1]; simpl in Hs.
    + apply IH in H. lia.
    + inversion H; subst. lia.
  - inversion H; subst. lia.
Qed.

Lemma run_loop_exhausted E cfg agent n st w st' w' :
  reaches E cfg agent n st w st' w' ->
  max_steps agent <= current_step st' ->
  forall fuel, (n < fuel)%nat ->
  run_loop fuel E cfg agent st w = Some (max_steps_result st', st', w').
Proof.
  induction 1 as [st w|n st w st1 w1 st2 w2 Hlt Hit Hr IH]; intros Hge fuel Hf.
  - destruct fuel as [|f]; [lia|]. simpl.
    destruct (current_step st <? max_steps agent) eqn:Hlt; [|reflexivity].
    apply Z.ltb_lt in Hlt. lia.
  - destruct fuel as [|f]; [lia|]. simpl.
    apply Z.ltb_lt in Hlt. rewrite Hlt, Hit. apply IH; [assumption|lia].
Qed.

Lemma run_entry_counter hist task cont st0 :
  run_entry hist task cont = Some st0 -> current_step st0 = 0 /\ steps st0 = [].
Proof.
  unfold run_entry. destruct (_ && _)%bool; [|destruct cont]; intros H; inversion H; auto.
Qed.

(** C3, as the code has it.  [CommandAgent.run] always returns, the calls
    to the outside being taken to return: the fuel given to the loop is
    enough.  The step counter stays between 0 and [max (max_steps, 0)], at
    the end of the run and at every loop test that a run reaches, where it
    equals the number of passes made; so it is at most [max_steps] whenever
    [max_steps] is not negative.  When a loop test is reached with the
    budget used up, the run returns success False, the steps recorded so
    far and the error [Max steps reached]. *)
Theorem run_terminates_within_budget E cfg agent hist task cont w :
  (exists r st' w',
      run E cfg agent hist task cont w = Some (r, st', w')
      /\ 0 <= current_step st' <= Z.max 0 (max_steps agent))
  /\ (forall st0, run_entry hist task cont = Some st0 ->
      forall n st w', reaches E cfg agent n st0 w st w' ->
        current_step st = Z.of_nat n
        /\ 0 <= current_step st <= Z.max 0 (max_steps agent)
        /\ (max_steps agent <= current_step st ->
            run E cfg agent hist task cont w
            = Some (mkResult false (Some (steps st)) None (Some "Max steps reached"),
                    st, w'))).
Proof.
  split.
  - unfold run. destruct (run_entry hist task cont) as [st0|] eqn:He.
    + destruct (run_entry_counter _ _ _ _ He) as [Hc _].
      destruct (run_loop_total E cfg agent (S (budget agent)) st0 w) as (r & st' & w' & Hr).
      { unfold budget. rewrite Hc, Z.sub_0_r. lia. }
      exists r, st', w'. split; [exact Hr|].
      apply run_loop_counter in Hr. rewrite Hc in Hr. exact Hr.
    + eexists _, _, _. split; [reflexivity|]. simpl. lia.
  - intros st0 He n st w' Hr.
    destruct (run_entry_counter _ _ _ _ He) as [Hc _].
    pose proof Hr as Hr'. apply reaches_counter in Hr' as [Hn Hb]. rewrite Hc in Hn. simpl in Hn.
    split; [exact Hn|]. split.
    + destruct n as [|n]; [lia|]. specialize (Hb ltac:(discriminate)). lia.
    + intros Hge. unfold run. rewrite He.
      eapply run_loop_exhausted; [exact Hr|exact Hge|]. unfold budget.
      destruct n as [|n]; [lia|]. specialize (Hb ltac:(discriminate)). lia.
Qed.

(** A budget of one step and an LLM that never answers: one idle pass, then
    the budget is used up. *)
Lemma run_terminates_within_budget_witness :
  run (quiet_env true) default_config one_step_agent Demo.history0 (Some "task") false
      Demo.world0
  = Some (mkResult false (Some []) None (Some "Max steps reached"),
          mkLoop (history task_state) [] 1 1, log EvLLM Demo.world0).
Proof.
  assert (Hr : reaches (quiet_env true) default_config one_step_agent 1
                 task_state Demo.world0
                 (mkLoop (history task_state) [] 1 1) (log EvLLM Demo.world0)).
  { eapply reaches_pass; [reflexivity|reflexivity|apply reaches_here]. }
  exact (proj2 (proj2 (proj2 (run_terminates_within_budget (quiet_env true) default_config
                                one_step_agent Demo.history0 (Some "task") false
                                Demo.world0)
                         task_state eq_refl 1%nat _ _ Hr))
           (Z.le_refl 1)).
Defined.

(** With [max_steps = -1] the body never runs: the run ends at once with
    [Max steps reached], and the counter, 0, is above the budget. *)
Lemma step_counter_above_negative_budget :
  max_steps negative_agent = -1
  /\ run (quiet_env true) default_config negative_agent Demo.history0 (Some "task") false
         Demo.world0
     = Some (mkResult false (Some []) None (Some "Max steps reached"),
             task_state, Demo.world0)
  /\ current_step task_state = 0
  /\ (current_step task_state <=? max_steps negative_agent) = false.
Proof. vm_compute. repeat split; reflexivity. Qed.

Lemma agent_tool_safe cfg0 prompt ms rcf am mi :
  tool (fst (CommandAgent_init cfg0 prompt ms rcf am mi)) = mkTool true false false.
Proof. reflexivity. Qed.

Lemma validate_rejects_dangerous cfg tl c :
  safe_mode tl = true -> is_dangerous_command cfg c = true ->
  fst (validate_command cfg tl c) = false.
Proof.
  intros Hs Hd. unfold validate_command.
  destruct (is_empty c || is_empty (strip c))%bool; [reflexivity|].
  rewrite Hs, Hd. reflexivity.
Qed.

(** X24.  A command in ASCII text that [Config.is_dangerous_command]
    classifies as dangerous is never handed to a shell.  For the tool of
    an agent built by [CommandAgent.__init__], whatever the configuration
    was then and is now: [execute] leaves the world as it found it, so that
    neither the user, nor the persistent shell, nor a child process is
    reached, and what it returns for a command without markup is False,
    no output and [Dangerous command blocked]; [validate_command] rejects
    the command, and the loop body then touches nothing outside the
    process and, for a command without markup, records no step; and in
    every run, no ASCII command that reached a shell is dangerous. *)
Theorem dangerous_commands_never_reach_a_shell
  (E : Env) (cfg cfg0 : Config) (prompt : string) (ms mi : option Z) (rcf am : bool) :
  let agent := fst (CommandAgent_init cfg0 prompt ms rcf am mi) in
  (forall c rc w, is_ascii c = true -> is_dangerous_command cfg c = true ->
     snd (execute E cfg (tool agent) c rc w) = w
     /\ (no_markup c = true ->
         fst (execute E cfg (tool agent) c rc w) = (false, "", "Dangerous command blocked")))
  /\ (forall c st w, is_ascii c = true -> is_dangerous_command cfg c = true ->
        fst (validate_command cfg (tool agent) c) = false
        /\ world_of (handle_command E cfg agent st w (JStr c)) = w
        /\ (no_markup c = true ->
            steps (state_of (handle_command E cfg agent st w (JStr c))) = steps st))
  /\ (forall hist task cont w r st' w',
        run E cfg agent hist task cont w = Some (r, st', w') ->
        exists evs, trace w' = (evs ++ trace w)%list
                    /\ forall c, is_ascii c = true -> In (EvShell c) evs ->
                                 is_dangerous_command cfg c = false).
Proof.
  intros agent.
  assert (Ht : tool agent = mkTool true false false) by apply agent_tool_safe.
  split; [|split].
  - intros c rc w _ Hd. unfold execute. rewrite Ht. simpl. rewrite Hd.
    split; [reflexivity|intros _; reflexivity].
  - intros c st w _ Hd.
    assert (Hv : fst (validate_command cfg (tool agent) c) = false).
    { apply validate_rejects_dangerous; [rewrite Ht; reflexivity|exact Hd]. }
    split; [exact Hv|]. unfold handle_command.
    destruct (validate_command cfg (tool agent) c) as [is_valid msg].
    simpl in Hv. subst is_valid. simpl.
    rewrite count_idle_world, count_idle_state. auto.
  - intros hist task cont w r st' w' Hrun. unfold run in Hrun.
    destruct (run_entry hist task cont) as [st0|].
    + apply run_loop_gated in Hrun. destruct Hrun as (evs & Htr & Hg).
      exists evs. split; [exact Htr|]. intros c _ Hin.
      destruct (Hg c Hin) as [Hd _]. rewrite Ht in Hd. exact Hd.
    + inversion Hrun; subst. exists []. split; [reflexivity|]. intros c _ [].
Qed.

(** [rm -rf /] with the agent of AUTO mode. *)
Lemma dangerous_commands_never_reach_a_shell_witness :
  is_dangerous_command default_config "rm -rf /" = true
  /\ snd (execute (quiet_env true) default_config (tool Demo.auto_agent) "rm -rf /" false
            Demo.world0)
     = Demo.world0.
Proof.
  split; [reflexivity|].
  exact (proj1 (proj1 (dangerous_commands_never_reach_a_shell (quiet_env true)
                         default_config default_config "system prompt" None None false true)
                  "rm -rf /" false Demo.world0 eq_refl eq_refl)).
Defined.

(** X25.  For a command in ASCII text without markup, the events of one
    call to [execute] are its confirmations [confs], followed in time by
    what the shell did, [runs] (the trace lists the most recent first).
    When the lower-cased, stripped command begins with [sudo ] and the
    command reached a shell, the user was asked the sudo question with
    default answer no and said yes, whatever [require_confirm] is.  When
    any confirmation was declined, nothing was run and the call returns
    False with an error text that begins with [User cancelled]; in the
    loop, the pass then records the failed step and leads on to the next
    pass: a declined confirmation ends the command, not the run. *)
Theorem sudo_needs_yes_and_declining_cancels
  (E : Env) (cfg : Config) (tl : TerminalTool) (c : string) (rc : bool) (w : World) :
  is_ascii c = true -> no_markup c = true ->
  exists confs runs,
    trace (snd (execute E cfg tl c rc w)) = (runs ++ confs ++ trace w)%list
    /\ (forall e, In e confs -> exists m d a, e = EvConfirm m d a)
    /\ (forall e, In e runs -> e = EvShell c \/ is_child_event e = true)
    /\ (is_sudo c = true -> runs <> [] -> In (EvConfirm prompt_sudo false true) confs)
    /\ (forall m d, In (EvConfirm m d false) confs ->
          runs = []
          /\ exists stderr,
               fst (execute E cfg tl c rc w) = (false, "", stderr)
               /\ startswith stderr "User cancelled" = true
               /\ forall agent st,
                    tool agent = tl ->
                    rc = (require_confirm agent && negb (auto_mode agent))%bool ->
                    fst (validate_command cfg tl c) = true ->
                    exists st',
                      handle_command E cfg agent st w (JStr c)
                      = Continue st' (snd (execute E cfg tl c rc w))
                      /\ steps st'
                         = (steps st ++ [mkStep (current_step st) c false "" stderr])%list).
Proof.
  intros _ _.
  destruct (execute_shape E cfg tl c rc w) as (confs & runs & Ht & Hc & Hr & Hg & Hn).
  exists confs, runs. split; [exact Ht|]. split; [exact Hc|]. split.
  { intros e Hin. destruct Hr as [->|(childs & -> & Hch)]; [contradiction|].
    apply in_app_or in Hin. destruct Hin as [Hin|[<-|[]]]; [|auto].
    right. rewrite forallb_forall in Hch. auto. }
  split. { intros Hs Hne. apply Hg in Hne. tauto. }
  intros m d Hin. destruct (Hn m d Hin) as (Hruns & stderr & Hres & Hst).
  split; [exact Hruns|]. exists stderr. split; [exact Hres|]. split; [exact Hst|].
  intros agent st Htl Hrc Hv. unfold handle_command. rewrite Htl, <- Hrc.
  destruct (validate_command cfg tl c) as [is_valid msg]. simpl in Hv. subst is_valid.
  simpl.
  remember (execute E cfg tl c rc w) as ex eqn:Hex.
  destruct ex as [[[success stdout] stderr'] w1]. cbn [fst snd] in *.
  inversion Hres; subst success stdout stderr'. eexists. split; reflexivity.
Qed.

(** A user who says no to [sudo apt update]. *)
Lemma sudo_needs_yes_and_declining_cancels_witness :
  is_sudo "sudo apt update" = true
  /\ exists stderr,
       fst (execute (quiet_env false) default_config (tool Demo.auto_agent)
              "sudo apt update" false Demo.world0)
       = (false, "", stderr)
       /\ startswith stderr "User cancelled" = true.
Proof.
  split; [reflexivity|].
  destruct (sudo_needs_yes_and_declining_cancels (quiet_env false) default_config
              (tool Demo.auto_agent) "sudo apt update" false Demo.world0 eq_refl eq_refl)
    as (confs & runs & Ht & Hc & Hr & _ & Hn).
  assert (Htr : trace (snd (execute (quiet_env false) default_config
                              (tool Demo.auto_agent) "sudo apt update" false Demo.world0))
                = [EvConfirm prompt_sudo false false]) by (vm_compute; reflexivity).
  rewrite Htr in Ht.
  assert (Hin : In (EvConfirm prompt_sudo false false) (runs ++ confs ++ [])).
  { change (@nil Event) with (trace Demo.world0). rewrite <- Ht. left. reflexivity. }
  apply in_app_or in Hin. destruct Hin as [Hin|Hin].
  - apply Hr in Hin. destruct Hin; discriminate.
  - rewrite app_nil_r in Hin. destruct (Hn _ _ Hin) as (_ & stderr & H1 & H2 & _).
    exists stderr. split; [exact H1|exact H2].
Defined.

(** C8, at the failing input.  The command [sudo ] begins with [sudo ],
    but stripped it is [sudo]: the test for a sudo command, which looks
    for [sudo ] at the start of the stripped text, does not take it for
    one, and with nothing to confirm in AUTO mode it goes to the shell
    although the user would have said no.  The same test misses a sudo
    command whose word [sudo] is followed by a tab. *)
Theorem bare_sudo_runs_without_confirmation :
  startswith "sudo " "sudo " = true
  /\ is_sudo "sudo " = false
  /\ validate_command default_config (tool Demo.auto_agent) "sudo " = (true, "OK")
  /\ trace (snd (execute (quiet_env false) default_config (tool Demo.auto_agent)
                   "sudo " false Demo.world0))
     = [EvSubprocess "pwd"; EvSubprocess "sudo "; EvShell "sudo "]
  /\ is_sudo sudo_tab_ls = false
  /\ validate_command default_config (tool Demo.auto_agent) sudo_tab_ls = (true, "OK")
  /\ trace (snd (execute (quiet_env false) default_config (tool Demo.auto_agent)
                   sudo_tab_ls false Demo.world0))
     = [EvSubprocess "pwd"; EvSubprocess sudo_tab_ls; EvShell sudo_tab_ls].
Proof. vm_compute. repeat split; reflexivity. Qed.

Lemma any_ext {A : Type} (p q : A -> bool) (l : list A) :
  (forall x, p x = q x) -> any p l = any q l.
Proof.
  intros H. induction l as [|x r IH]; [reflexivity|].
  unfold any; fold (@any A). rewrite H, IH. reflexivity.
Qed.

Lemma injection_suspected_safe tl c :
  safe_mode tl = true -> injection_suspected tl c = injection_shape c.
Proof.
  intros Hs. unfold injection_suspected, injection_shape.
  apply any_ext. intros combo. f_equal. apply any_ext. intros part.
  rewrite Hs. apply andb_true_r.
Qed.

Lemma validate_rejects_injection cfg tl c :
  injection_suspected tl c = true -> fst (validate_command cfg tl c) = false.
Proof.
  intros Hi. unfold validate_command.
  destruct (_ || _)%bool; [reflexivity|].
  destruct (_ && _)%bool; [reflexivity|].
  destruct (_ <? _); [reflexivity|]. rewrite Hi. reflexivity.
Qed.

(** C10.  When [Config.SAFE_MODE] is true, [TerminalTool(safe_mode=False)]
    is the same tool as [TerminalTool(safe_mode=True)]: its safe mode is
    on, a dangerous command (in ASCII text, where the oracle of the
    embedding is the one of the code) reaches neither the user nor a
    shell through it, it runs a high-risk command only after a yes to the
    high-risk question (default no), and it rejects a command of the
    injection shape.  A tool whose safe mode is off was built with
    [safe_mode=False] under a configuration whose [SAFE_MODE] is false. *)
Theorem safe_mode_argument_cannot_disable
  (cfg : Config) (ups : bool) (Hsafe : SAFE_MODE cfg = true) :
  let tl := TerminalTool_init cfg false ups in
  tl = TerminalTool_init cfg true ups
  /\ safe_mode tl = true
  /\ (forall E c rc w, is_ascii c = true -> is_dangerous_command cfg c = true ->
        snd (execute E cfg tl c rc w) = w)
  /\ (forall E c rc w, is_high_risk c = true ->
        exists confs runs,
          trace (snd (execute E cfg tl c rc w)) = (runs ++ confs ++ trace w)%list
          /\ (forall e, In e confs -> exists m d a, e = EvConfirm m d a)
          /\ (forall e, In e runs -> e = EvShell c \/ is_child_event e = true)
          /\ (runs <> [] -> In (EvConfirm prompt_high_risk false true) confs))
  /\ (forall c, injection_shape c = true -> fst (validate_command cfg tl c) = false)
  /\ (forall cfg' a u, safe_mode (TerminalTool_init cfg' a u) = false ->
        a = false /\ SAFE_MODE cfg' = false).
Proof.
  intros tl.
  assert (Hs : safe_mode tl = true) by (unfold tl; simpl; exact Hsafe).
  split. { unfold tl, TerminalTool_init. rewrite Hsafe. reflexivity. }
  split; [exact Hs|]. split.
  { intros E c rc w _ Hd. unfold execute. rewrite Hs, Hd. reflexivity. }
  split.
  { intros E c rc w Hh.
    destruct (execute_shape E cfg tl c rc w) as (confs & runs & Ht & Hc & Hr & Hg & _).
    exists confs, runs. split; [exact Ht|]. split; [exact Hc|]. split.
    - intros e Hin. destruct Hr as [->|(childs & -> & Hch)]; [contradiction|].
      apply in_app_or in Hin. destruct Hin as [Hin|[<-|[]]]; [|auto].
      right. rewrite forallb_forall in Hch. auto.
    - intros Hne. apply Hg in Hne. destruct Hne as (_ & _ & _ & _ & Hhr & _).
      apply Hhr. rewrite Hh, Hs. reflexivity. }
  split.
  { intros c Hi. apply validate_rejects_injection.
    rewrite injection_suspected_safe; assumption. }
  intros cfg' a u H. simpl in H. apply orb_false_iff in H. exact H.
Qed.

(** The default configuration. *)
Lemma safe_mode_argument_cannot_disable_witness :
  SAFE_MODE default_config = true
  /\ safe_mode (TerminalTool_init default_config false false) = true.
Proof.
  split; [reflexivity|].
  exact (proj1 (proj2 (safe_mode_argument_cannot_disable default_config false eq_refl))).
Defined.

(** *** The history *)

Lemma handle_command_history E cfg agent st w command :
  exists rest,
    history (state_of (handle_command E cfg agent st w command))
    = (history st ++ rest)%list.
Proof.
  unfold handle_command, add_to_history.
  destruct command as [|b|l|c|l|d];
    try (destruct (truthy _);
         [exists []; simpl; rewrite app_nil_r; reflexivity
         |rewrite count_idle_state; simpl; eauto]).
  destruct (validate_command cfg (tool agent) c) as [is_valid msg].
  destruct is_valid; simpl; [|rewrite count_idle_state; simpl; eauto].
  destruct (execute _ _ _ _ _ _) as [[[success stdout] stderr] w1]. simpl. eauto.
Qed.

Lemma handle_parsed_history E cfg agent st w response info :
  exists rest,
    history (state_of (handle_parsed E cfg agent st w response info))
    = (history st ++ rest)%list.
Proof.
  assert (Hnil : exists rest : list Message, history st = (history st ++ rest)%list).
  { exists []. rewrite app_nil_r. reflexivity. }
  unfold handle_parsed, add_to_history.
  destruct (_ && _)%bool.
  - destruct (negb (auto_mode agent)); [|exact Hnil].
    destruct (ui_interact _ _ _ _ _) as [u|e]; [destruct (is_empty u)|]; simpl; eauto.
  - destruct (dict_get "status" info); [exact Hnil|].
    destruct (dict_get "command" info); [apply handle_command_history|exact Hnil].
Qed.

Lemma count_idle_cases agent st w r :
  let st' := mkLoop (history st) (steps st) (current_step st) (idle_steps st + 1) in
  (idle_steps st + 1 < max_idle_steps agent -> count_idle agent st w r = Continue st' w)
  /\ (max_idle_steps agent <= idle_steps st + 1 -> count_idle agent st w r = Return (r st') st' w).
Proof.
  unfold count_idle. simpl.
  destruct (idle_steps st + 1 >=? max_idle_steps agent) eqn:H.
  - apply Z.geb_le in H. split; intros; [lia|reflexivity].
  - rewrite Z.geb_leb in H. apply Z.leb_gt in H. split; intros; [reflexivity|lia].
Qed.

(** X26.  Let the error text of the LLM hold no markup, its reply be ASCII
    text, and [Config.VERBOSE] be off.  In a pass in which the call to the
    LLM fails (it raises, which includes a timeout, or returns [None] or
    only white space), the history and the step records are left as they
    were and [idle_steps] grows by one; the loop then goes on while
    [idle_steps] is below [max_idle_steps], and otherwise the run ends
    without success.  After a reply that is not blank the history is the
    old one followed by the assistant message of that reply, then possibly
    more; and a history that changed means that the call did not fail. *)
Theorem llm_failure_leaves_history
  (E : Env) (cfg : Config) (agent : CommandAgent) (st : LoopState) (w : World) :
  VERBOSE cfg = false ->
  (forall e, llm_generate E w (history st) = LLMRaised e -> no_markup e = true) ->
  (forall response, llm_generate E w (history st) = LLMText response ->
                    is_ascii response = true) ->
  let o := iteration E cfg agent st w in
  (llm_failed (llm_generate E w (history st)) = true ->
     history (state_of o) = history st
     /\ steps (state_of o) = steps st
     /\ idle_steps (state_of o) = idle_steps st + 1
     /\ (idle_steps st + 1 < max_idle_steps agent ->
         o = Continue (state_of o) (log EvLLM w))
     /\ (max_idle_steps agent <= idle_steps st + 1 ->
         exists r, o = Return r (state_of o) (log EvLLM w)
                   /\ r_success r = false /\ r_steps r = Some (steps st)))
  /\ (forall response,
        llm_generate E w (history st) = LLMText response ->
        is_empty (strip response) = false ->
        exists rest,
          history (state_of o)
          = (history st ++ mkMessage "assistant" response :: rest)%list)
  /\ (history (state_of o) <> history st ->
        llm_failed (llm_generate E w (history st)) = false).
Proof.
  intros _ _ _ o.
  assert (Hfail : llm_failed (llm_generate E w (history st)) = true ->
                  exists r, o = count_idle agent
                                  (mkLoop (history st) (steps st) (current_step st + 1)
                                          (idle_steps st))
                                  (log EvLLM w) r
                            /\ forall s, r_success (r s) = false
                                         /\ r_steps (r s) = Some (steps s)).
  { unfold o, iteration. simpl.
    destruct (llm_generate E w (history st)) as [e| |response]; simpl; intros Hf.
    - eexists. split; [reflexivity|]. intros s. split; reflexivity.
    - eexists. split; [reflexivity|]. intros s. split; reflexivity.
    - rewrite Hf. eexists. split; [reflexivity|]. intros s. split; reflexivity. }
  assert (Hpart1 :
    llm_failed (llm_generate E w (history st)) = true ->
    history (state_of o) = history st
    /\ steps (state_of o) = steps st
    /\ idle_steps (state_of o) = idle_steps st + 1
    /\ (idle_steps st + 1 < max_idle_steps agent -> o = Continue (state_of o) (log EvLLM w))
    /\ (max_idle_steps agent <= idle_steps st + 1 ->
        exists r, o = Return r (state_of o) (log EvLLM w)
                  /\ r_success r = false /\ r_steps r = Some (steps st))).
  { intros Hf. destruct (Hfail Hf) as (r & Ho & Hr).
    destruct (count_idle_cases agent
                (mkLoop (history st) (steps st) (current_step st + 1) (idle_steps st))
                (log EvLLM w) r) as [Hlow Hhigh].
    simpl in Hlow, Hhigh.
    rewrite Ho, count_idle_state. simpl.
    repeat split; try reflexivity.
    - exact Hlow.
    - intros Hge. eexists. split; [apply Hhigh; exact Hge|].
      destruct (Hr (mkLoop (history st) (steps st) (current_step st + 1)
                           (idle_steps st + 1))) as [H1 H2].
      split; [exact H1|exact H2]. }
  split; [exact Hpart1|]. split.
  - intros response Hllm Hne. unfold o, iteration. simpl. rewrite Hllm, Hne.
    destruct (parse_response response) as [info|].
    + match goal with
      | |- context [handle_parsed E cfg agent ?s ?w' response info] =>
          destruct (handle_parsed_history E cfg agent s w' response info) as (rest & Hh)
      end.
      rewrite Hh. simpl. unfold add_to_history. rewrite <- app_assoc. simpl. eauto.
    + destruct (is_final_summary response).
      * simpl. unfold add_to_history. eauto.
      * rewrite count_idle_state. simpl. unfold add_to_history. eauto.
  - intros Hneq. destruct (llm_failed (llm_generate E w (history st))) eqn:Hf; [|reflexivity].
    exfalso. apply Hneq. apply Hpart1. reflexivity.
Qed.

(** A call to the LLM that returns [None]. *)
Lemma llm_failure_leaves_history_witness :
  history (state_of (iteration (quiet_env true) default_config Demo.auto_agent
                       (mkLoop Demo.history0 [] 0 0) Demo.world0))
  = Demo.history0
  /\ idle_steps (state_of (iteration (quiet_env true) default_config Demo.auto_agent
                             (mkLoop Demo.history0 [] 0 0) Demo.world0))
     = 1.
Proof.
  assert (He : forall e, llm_generate (quiet_env true) Demo.world0
                           (history (mkLoop Demo.history0 [] 0 0)) = LLMRaised e ->
                         no_markup e = true) by (intros e H; discriminate H).
  assert (Ha : forall response, llm_generate (quiet_env true) Demo.world0
                                  (history (mkLoop Demo.history0 [] 0 0))
                                = LLMText response ->
                                is_ascii response = true)
    by (intros response H; discriminate H).
  pose proof (proj1 (llm_failure_leaves_history (quiet_env true) default_config
                       Demo.auto_agent (mkLoop Demo.history0 [] 0 0) Demo.world0
                       eq_refl He Ha)
                eq_refl) as (Hh & _ & Hi & _).
  split; [exact Hh|exact Hi].
Defined.

Lemma any_true_iff {A : Type} (p : A -> bool) (l : list A) :
  any p l = true <-> exists x, In x l /\ p x = true.
Proof.
  induction l as [|a r IH]; unfold any; fold (@any A).
  - split; [discriminate|]. intros (x & [] & _).
  - destruct (p a) eqn:Ha.
    + split; [|reflexivity]. intros _. exists a. simpl. auto.
    + rewrite IH. split.
      * intros (x & Hin & Hp). exists x. simpl. auto.
      * intros (x & [->|Hin] & Hp); [congruence|eauto].
Qed.






(** *** The order of the checks of [validate_command] *)




Example long_harmless_is_too_long :
  validate_command default_config (tool Demo.auto_agent) long_harmless
  = (false, msg_too_long).
Proof. vm_compute. reflexivity. Qed.


(** C2, at the failing input.  With the default budgets (ten steps, two
    idle steps) and an LLM that proposes [rm -rf /] at every call, every
    pass parses the reply, which sets [idle_steps] back to 0, and then
    rejects the command, which raises it to 1 and never to 2.  The run
    makes all ten passes, none of which records a step, and ends with
    [Max steps reached]. *)
Theorem rejected_commands_do_not_use_up_idle_budget :
  let E := Demo.env_of (Demo.always (LLMText (dq "{'command':'rm -rf /'}"))) true in
  match run E default_config Demo.auto_agent Demo.history0
            (Some "wipe root") false Demo.world0 with
  | Some (r, st, w) =>
      max_idle_steps Demo.auto_agent = 2
      /\ r = mkResult false (Some []) None (Some "Max steps reached")
      /\ current_step st = 10
      /\ idle_steps st = 1
      /\ Demo.llm_calls (trace w) = 10%nat
  | None => False
  end.
Proof. vm_compute. repeat split; reflexivity. Qed.

Lemma parse_members_object fuel : forall s acc v r,
  parse_members fuel s acc = Some (v, r) -> is_object v.
Proof.
  induction fuel as [|f IH]; intros s acc v r H; [discriminate|].
  simpl in H.
  repeat first
    [ match type of H with
      | parse_members f _ _ = Some _ => fail 1
      | Some _ = Some _ => fail 1
      end
    | case_scrutinee H ];
    first [ eapply IH; eassumption | inversion H; eexists; reflexivity ].
Qed.

Lemma parse_value_brace f r :
  parse_value (S f) (String "{" r)
  = if startswith (skip_ws r) "}" then Some (JObj [], drop 1 (skip_ws r))
    else parse_members f (skip_ws r) [].
Proof. reflexivity. Qed.

Lemma loads_brace_object r v :
  loads (String "{" r) = Some v -> is_object v.
Proof.
  unfold loads. simpl skip_ws. rewrite parse_value_brace.
  destruct (startswith (skip_ws r) "}").
  - destruct (is_empty _); [|discriminate].
    intros H; inversion H. eexists; reflexivity.
  - destruct (parse_members _ _ _) as [[v' rest]|] eqn:Hp; [|discriminate].
    destruct (is_empty _); [|discriminate].
    intros H; inversion H; subst v'.
    eapply parse_members_object; eassumption.
Qed.

Lemma find_json_block_brace s p :
  find_json_block s = Some p -> exists t, p = String "{" t.
Proof.
  induction s as [|a s IH]; simpl.
  - unfold match_block_here. simpl. discriminate.
  - destruct (match_block_here (String a s)) as [q|] eqn:Hm.
    + intros H; inversion H; subst q. unfold match_block_here in Hm.
      repeat case_scrutinee Hm. inversion Hm. eauto.
    + exact IH.
Qed.

Lemma find_char_drop c r n :
  find_char c r = Some n -> exists t, drop n r = String c t.
Proof.
  revert n. induction r as [|a r IH]; intros n H; simpl in H; [discriminate|].
  destruct (Ascii.eqb a c) eqn:Ha.
  - inversion H. apply Ascii.eqb_eq in Ha. subst. simpl. eauto.
  - destruct (find_char c r) as [i|]; [|discriminate]. inversion H. simpl. auto.
Qed.

Lemma scan_braces_ge s : forall i bc ins esc k,
  scan_braces s i bc ins esc = Some k -> (i <= k)%nat.
Proof.
  induction s as [|a s IH]; intros i bc ins esc k H; simpl in H; [discriminate|].
  assert (Hrec : forall bc' ins' esc',
             scan_braces s (S i) bc' ins' esc' = Some k -> (i <= k)%nat).
  { intros bc' ins' esc' H'. apply IH in H'. lia. }
  repeat first
    [ match type of H with
      | scan_braces s _ _ _ _ = Some _ => fail 1
      | Some _ = Some _ => fail 1
      end
    | case_scrutinee H ];
    try (eapply Hrec; eassumption).
  inversion H. lia.
Qed.

Lemma first_balanced_brace r js :
  first_balanced r = Some js -> exists t, js = String "{" t.
Proof.
  unfold first_balanced.
  destruct (find_char "{" r) as [start|] eqn:Hf; [|discriminate].
  destruct (scan_braces _ start 0 false false) as [i|] eqn:Hs; [|discriminate].
  intros H; inversion H. unfold slice.
  destruct (find_char_drop _ _ _ Hf) as (t & ->).
  apply scan_braces_ge in Hs.
  replace (S i - start)%nat with (S (i - start)) by lia. simpl. eauto.
Qed.

(** The texts that [_parse_response] hands to [json.loads] start with a
    brace, so what comes back is a dictionary. *)
Lemma parsed_texts_are_objects response text v :
  find_json_block response = Some text \/ first_balanced response = Some text ->
  loads text = Some v -> is_object v.
Proof.
  intros [H|H] Hl.
  - destruct (find_json_block_brace _ _ H) as (t & ->). eapply loads_brace_object; eassumption.
  - destruct (first_balanced_brace _ _ H) as (t & ->). eapply loads_brace_object; eassumption.
Qed.

(** *** The scan for the first balanced object *)

Lemma find_char_app c r t n :
  find_char c r = Some n ->
  find_char c (r ++ t) = Some n /\ (n < String.length r)%nat.
Proof.
  revert n. induction r as [|a r IH]; intros n H; simpl in *; [discriminate|].
  destruct (Ascii.eqb a c).
  - inversion H. split; [reflexivity|lia].
  - destruct (find_char c r) as [i|]; [|discriminate].
    inversion H. destruct (IH i eq_refl) as [-> Hlt]. split; [reflexivity|lia].
Qed.

Lemma drop_app n r t :
  (n <= String.length r)%nat -> drop n (r ++ t) = drop n r ++ t.
Proof.
  revert r. induction n as [|n IH]; intros r H; [reflexivity|].
  destruct r as [|a r]; simpl in *; [lia|]. apply IH. lia.
Qed.

Lemma drop_length n r : String.length (drop n r) = (String.length r - n)%nat.
Proof.
  revert r. induction n as [|n IH]; intros r; simpl; [lia|].
  destruct r as [|a r]; simpl; [reflexivity|apply IH].
Qed.

Lemma take_app n r t :
  (n <= String.length r)%nat -> take n (r ++ t) = take n r.
Proof.
  revert r. induction n as [|n IH]; intros r H; [destruct r; reflexivity|].
  destruct r as [|a r]; simpl in *; [lia|]. f_equal. apply IH. lia.
Qed.

Lemma slice_app i j r t :
  (i <= String.length r)%nat -> (j <= String.length r)%nat ->
  slice i j (r ++ t) = slice i j r.
Proof.
  intros Hi Hj. unfold slice. rewrite drop_app by exact Hi.
  apply take_app. rewrite drop_length. lia.
Qed.

Lemma scan_braces_app s t : forall i bc ins esc k,
  scan_braces s i bc ins esc = Some k ->
  scan_braces (s ++ t) i bc ins esc = Some k /\ (k < i + String.length s)%nat.
Proof.
  induction s as [|a s IH]; intros i bc ins esc k H; simpl in *; [discriminate|].
  assert (Hrec : forall bc' ins' esc',
             scan_braces s (S i) bc' ins' esc' = Some k ->
             scan_braces (s ++ t) (S i) bc' ins' esc' = Some k
             /\ (k < i + S (String.length s))%nat).
  { intros bc' ins' esc' H'. destruct (IH _ _ _ _ _ H') as [-> Hlt]. split; [reflexivity|lia]. }
  destruct esc; [auto|].
  destruct (Ascii.eqb a backslash); [auto|].
  destruct (Ascii.eqb a dquote); [auto|].
  destruct (negb ins); [|auto].
  destruct (Ascii.eqb a "{"); [auto|].
  destruct (Ascii.eqb a "}"); [|auto].
  destruct (bc - 1 =? 0); [|auto].
  inversion H; subst. split; [reflexivity|lia].
Qed.

(** What follows the first balanced object is not looked at. *)
Lemma first_balanced_app r t js :
  first_balanced r = Some js -> first_balanced (r ++ t) = Some js.
Proof.
  unfold first_balanced.
  destruct (find_char "{" r) as [start|] eqn:Hf; [|discriminate].
  destruct (find_char_app _ _ t _ Hf) as [-> Hlt].
  rewrite drop_app by lia.
  destruct (scan_braces (drop start r) start 0 false false) as [i|] eqn:Hs; [|discriminate].
  destruct (scan_braces_app _ t _ _ _ _ _ Hs) as [-> Hi].
  rewrite drop_length in Hi.
  intros H. inversion H. f_equal. apply slice_app; lia.
Qed.

(** C5, as the code has it.  When the reply has no fenced block and
    [js] is the balanced text that starts at its first opening brace,
    whatever follows that text has no part in the result: the scan gives
    [js] again, the result of the parser is what [js] alone decodes to,
    and when [js] is not JSON the parser returns [None]. *)
Theorem only_first_balanced_object_is_tried
  (response rest js : string)
  (Hfirst : first_balanced response = Some js)
  (Hnofence : find_json_block (response ++ rest) = None) :
  first_balanced (response ++ rest) = Some js
  /\ parse_response (response ++ rest) = intent_of (response ++ rest) (loads js)
  /\ (loads js = None -> parse_response (response ++ rest) = None).
Proof.
  pose proof (first_balanced_app response rest js Hfirst) as Hb.
  assert (Hp : parse_response (response ++ rest) = intent_of (response ++ rest) (loads js)).
  { unfold parse_response, parse_fenced, parse_bare. rewrite Hnofence, Hb. reflexivity. }
  split; [exact Hb|]. split; [exact Hp|].
  intros Hl. rewrite Hp, Hl. reflexivity.
Qed.

(** The reply [{oops}] followed by a command. *)
Lemma only_first_balanced_object_is_tried_witness :
  first_balanced (dq "{oops}") = Some "{oops}"
  /\ find_json_block malformed_then_command = None
  /\ parse_response malformed_then_command = None.
Proof.
  assert (H1 : first_balanced (dq "{oops}") = Some "{oops}") by reflexivity.
  assert (H2 : find_json_block (dq "{oops}" ++ dq " {'command': 'ls'}") = None)
    by reflexivity.
  split; [exact H1|]. split; [exact H2|].
  exact (proj2 (proj2 (only_first_balanced_object_is_tried
                         (dq "{oops}") (dq " {'command': 'ls'}") "{oops}" H1 H2)) eq_refl).
Defined.

(** The command that follows [{oops}] would parse on its own, and is never
    tried. *)
Lemma later_object_is_not_tried :
  find_json_block malformed_then_command = None
  /\ first_balanced malformed_then_command = Some "{oops}"
  /\ loads "{oops}" = None
  /\ parse_response (dq "{'command': 'ls'}") = Some [("command", JStr "ls")]
  /\ parse_response malformed_then_command = None.
Proof. vm_compute. repeat split; reflexivity. Qed.

(** *** The environment of the process *)

Lemma execute_environ E cfg tl c rc w :
  use_persistent_shell tl = false ->
  os_environ (snd (execute E cfg tl c rc w)) = os_environ w.
Proof.
  intros Hp. unfold execute.
  destruct (safe_mode tl && is_dangerous_command cfg c)%bool; [reflexivity|].
  destruct (validate_command cfg tl c) as [is_valid msg].
  destruct is_valid; simpl; [|reflexivity].
  destruct (ask E _ prompt_sudo false w) as [ok1 w1] eqn:A1.
  apply ask_trace in A1 as (_ & _ & _ & E1).
  destruct ok1; simpl; [|exact E1].
  destruct (ask E _ prompt_high_risk false w1) as [ok2 w2] eqn:A2.
  apply ask_trace in A2 as (_ & _ & _ & E2).
  destruct ok2; simpl; [|congruence].
  destruct (ask E _ prompt_normal true w2) as [ok3 w3] eqn:A3.
  apply ask_trace in A3 as (_ & _ & _ & E3).
  destruct ok3; simpl; [|congruence].
  rewrite execute_run_environ by exact Hp. congruence.
Qed.

Lemma same_os_log e1 e2 w1 w2 : same_os w1 w2 -> same_os (log e1 w1) (log e2 w2).
Proof. intros [H1 H2]. split; assumption. Qed.

Lemma chdir_same E p w1 w2 :
  reads_only_os E -> same_os w1 w2 -> same_os (chdir E p w1) (chdir E p w2).
Proof.
  intros HE Hw. unfold chdir.
  destruct (HE w1 w2 Hw) as (_ & _ & _ & Hc). rewrite Hc.
  destruct (os_chdir_ok E w2 p); [|exact Hw].
  destruct Hw as [_ He]. split; [reflexivity|exact He].
Qed.

Lemma ask_same E needed m d w1 w2 :
  reads_only_os E -> same_os w1 w2 ->
  fst (ask E needed m d w1) = fst (ask E needed m d w2)
  /\ same_os (snd (ask E needed m d w1)) (snd (ask E needed m d w2)).
Proof.
  intros HE Hw. unfold ask, confirm. destruct needed; simpl; [|auto].
  destruct (HE w1 w2 Hw) as (_ & Hc & _). rewrite Hc. split; [reflexivity|].
  apply same_os_log. exact Hw.
Qed.

Lemma execute_fallback_same E c w1 w2 :
  reads_only_os E -> same_os w1 w2 ->
  fst (execute_fallback E c w1) = fst (execute_fallback E c w2)
  /\ same_os (snd (execute_fallback E c w1)) (snd (execute_fallback E c w2)).
Proof.
  intros HE Hw. unfold execute_fallback, run_subprocess.
  destruct (HE w1 w2 Hw) as (Hs & _).
  match goal with |- context [if ?b then _ else _] => destruct b end.
  - rewrite Hs.
    pose proof (same_os_log (EvSubprocess (c ++ " && pwd")) (EvSubprocess (c ++ " && pwd")) _ _ Hw)
      as Hw1.
    destruct (subprocess_run E w2 (c ++ " && pwd")) as [rc out err| |e]; simpl; auto.
    destruct (rc =? 0); simpl; auto.
    destruct (HE _ _ Hw1) as (_ & _ & Hd & _). rewrite Hd.
    split; [reflexivity|].
    match goal with |- context [if ?b then _ else _] => destruct b end; [|exact Hw1].
    apply chdir_same; assumption.
  - rewrite Hs.
    pose proof (same_os_log (EvSubprocess c) (EvSubprocess c) _ _ Hw) as Hw1.
    destruct (subprocess_run E w2 c) as [rc out err| |e]; simpl; auto.
    destruct (HE _ _ Hw1) as (Hs1 & _). rewrite Hs1.
    pose proof (same_os_log (EvSubprocess "pwd") (EvSubprocess "pwd") _ _ Hw1) as Hw2.
    split; [reflexivity|].
    destruct (subprocess_run E (log (EvSubprocess c) w2) "pwd") as [prc pout perr| |pe];
      simpl; auto.
    destruct (HE _ _ Hw2) as (_ & _ & Hd & _). rewrite Hd.
    destruct Hw2 as [Hcwd Henv]. simpl in Hcwd. rewrite Hcwd.
    match goal with |- context [if ?b then _ else _] => destruct b end.
    + apply chdir_same; [assumption|]. split; assumption.
    + split; assumption.
Qed.

Lemma execute_same E cfg tl c rc w1 w2 :
  reads_only_os E -> use_persistent_shell tl = false -> same_os w1 w2 ->
  fst (execute E cfg tl c rc w1) = fst (execute E cfg tl c rc w2)
  /\ same_os (snd (execute E cfg tl c rc w1)) (snd (execute E cfg tl c rc w2)).
Proof.
  intros HE Hp Hw. unfold execute.
  destruct (safe_mode tl && is_dangerous_command cfg c)%bool; [auto|].
  destruct (validate_command cfg tl c) as [is_valid msg].
  destruct is_valid; simpl; [|auto].
  match goal with
  | |- context [ask E ?n prompt_sudo false w1] =>
      destruct (ask_same E n prompt_sudo false _ _ HE Hw) as [Ha Hw']
  end.
  destruct (ask E _ prompt_sudo false w1) as [ok1 v1].
  destruct (ask E _ prompt_sudo false w2) as [ok1' v1'].
  simpl in Ha, Hw'. subst ok1'. destruct ok1; simpl; [|auto].
  match goal with
  | |- context [ask E ?n prompt_high_risk false v1] =>
      destruct (ask_same E n prompt_high_risk false _ _ HE Hw') as [Hb Hw'']
  end.
  destruct (ask E _ prompt_high_risk false v1) as [ok2 v2].
  destruct (ask E _ prompt_high_risk false v1') as [ok2' v2'].
  simpl in Hb, Hw''. subst ok2'. destruct ok2; simpl; [|auto].
  match goal with
  | |- context [ask E ?n prompt_normal true v2] =>
      destruct (ask_same E n prompt_normal true _ _ HE Hw'') as [Hc Hw''']
  end.
  destruct (ask E _ prompt_normal true v2) as [ok3 v3].
  destruct (ask E _ prompt_normal true v2') as [ok3' v3'].
  simpl in Hc, Hw'''. subst ok3'. destruct ok3; simpl; [|auto].
  unfold execute_run. rewrite Hp. simpl.
  apply execute_fallback_same; [assumption|]. apply same_os_log. assumption.
Qed.

(** C4, as the code has it.  The tool of an agent built by
    [CommandAgent.__init__] does not use the persistent shell.  A call to
    its [execute] leaves [os.environ] as it was.  When the oracles answer
    from the directory and the environment of the process alone, the
    result of a call that follows another call which left the directory
    in place is the result it would have had without that other call. *)
Theorem agent_tool_does_not_keep_exports
  (E : Env) (cfg cfg0 : Config) (prompt : string) (ms mi : option Z) (rcf am : bool) :
  let tl := tool (fst (CommandAgent_init cfg0 prompt ms rcf am mi)) in
  use_persistent_shell tl = false
  /\ (forall c rc w, os_environ (snd (execute E cfg tl c rc w)) = os_environ w)
  /\ (reads_only_os E ->
      forall c1 c2 rc w,
        os_cwd (snd (execute E cfg tl c1 rc w)) = os_cwd w ->
        fst (execute E cfg tl c2 rc (snd (execute E cfg tl c1 rc w)))
        = fst (execute E cfg tl c2 rc w)).
Proof.
  intros tl. split; [reflexivity|]. split.
  - intros c rc w. apply execute_environ. reflexivity.
  - intros HE c1 c2 rc w Hcwd.
    apply execute_same; [assumption|reflexivity|].
    split; [exact Hcwd|]. apply execute_environ. reflexivity.
Qed.

Lemma demo_env_reads_only_os llm answer :
  (forall w1 w2 h, llm w1 h = llm w2 h) -> reads_only_os (Demo.env_of llm answer).
Proof.
  intros _ w1 w2 [Hc He]. simpl. unfold Demo.mini_sh. rewrite Hc, He. auto.
Qed.

(** [echo $FOO] gives the same after [export FOO=bar] as without it. *)
Lemma agent_tool_does_not_keep_exports_witness :
  fst (execute (quiet_env true) default_config (tool Demo.auto_agent) "echo $FOO" false
         (snd (execute (quiet_env true) default_config (tool Demo.auto_agent)
                 "export FOO=bar" false Demo.world0)))
  = fst (execute (quiet_env true) default_config (tool Demo.auto_agent) "echo $FOO" false
           Demo.world0).
Proof.
  apply (proj2 (proj2 (agent_tool_does_not_keep_exports (quiet_env true) default_config
                         default_config "system prompt" None None false true))).
  - apply demo_env_reads_only_os. reflexivity.
  - reflexivity.
Defined.

(** With the agent's tool, [echo $FOO] after [export FOO=bar] prints an
    empty line: each command had a child shell of its own. *)
Lemma export_is_lost_between_calls :
  let E := Demo.env_of (Demo.always LLMNone) true in
  let tl := tool Demo.auto_agent in
  let first := execute E default_config tl "export FOO=bar" false Demo.world0 in
  let second := execute E default_config tl "echo $FOO" false (snd first) in
  fst first = (true, "", "")
  /\ fst second = (true, "", "")
  /\ endswith (snd (fst (fst second))) "bar" = false
  /\ trace (snd second)
     = [EvSubprocess "pwd"; EvSubprocess "echo $FOO"; EvShell "echo $FOO";
        EvSubprocess "pwd"; EvSubprocess "export FOO=bar"; EvShell "export FOO=bar"].
Proof. vm_compute. repeat split; reflexivity. Qed.

(* ================================================================== *)
(** * Further properties *)

(** *** What a run leaves behind *)

Lemma llm_events_app a b : llm_events (a ++ b) = (llm_events a + llm_events b)%nat.
Proof.
  induction a as [|e a IH]; [reflexivity|]. simpl. destruct e; simpl; rewrite IH; reflexivity.
Qed.

Lemma llm_events_none l : (forall e, In e l -> e <> EvLLM) -> llm_events l = O.
Proof.
  induction l as [|e l IH]; intros H; [reflexivity|].
  simpl. destruct e; try (apply IH; intros e' He'; apply H; right; exact He').
  exfalso. exact (H EvLLM (or_introl eq_refl) eq_refl).
Qed.

Lemma indices_between_weaken lo lo' hi hi' l :
  indices_between lo hi l -> lo' <= lo -> hi <= hi' -> indices_between lo' hi' l.
Proof.
  revert lo lo'. induction l as [|s r IH]; intros lo lo' H Hlo Hhi; [exact I|].
  simpl in *. destruct H as [Hs Hr]. split; [lia|].
  apply (IH (step_index s)); [exact Hr|lia|exact Hhi].
Qed.

Lemma indices_between_app lo mid hi a b :
  indices_between lo mid a -> indices_between mid hi b -> lo <= mid <= hi ->
  indices_between lo hi (a ++ b).
Proof.
  revert lo. induction a as [|s r IH]; intros lo Ha Hb Hm; simpl.
  - apply (indices_between_weaken mid lo hi hi); [exact Hb|lia|lia].
  - simpl in Ha. destruct Ha as [Hs Hr]. split; [lia|]. apply IH; [exact Hr|exact Hb|lia].
Qed.

(** What one call to [execute] adds to the trace holds no call to the LLM. *)
Lemma execute_llm_events E cfg tl c rc w :
  exists evs, trace (snd (execute E cfg tl c rc w)) = (evs ++ trace w)%list
              /\ llm_events evs = O.
Proof.
  destruct (execute_shape E cfg tl c rc w) as (confs & runs & Ht & Hc & Hr & _).
  exists (runs ++ confs)%list. split; [rewrite Ht, app_assoc; reflexivity|].
  apply llm_events_none. intros e Hin Heq. subst e.
  apply in_app_or in Hin. destruct Hin as [Hin|Hin].
  - destruct Hr as [->|(childs & -> & Hch)]; [contradiction|].
    apply in_app_or in Hin. destruct Hin as [Hin|[Hin|[]]]; [|discriminate].
    rewrite forallb_forall in Hch. apply Hch in Hin. discriminate.
  - apply Hc in Hin. destruct Hin as (m & d & a & Heq). discriminate.
Qed.

Lemma adds_nothing st w o k :
  history (state_of o) = history st -> world_of o = w ->
  steps (state_of o) = steps st -> current_step (state_of o) = current_step st ->
  adds st w o k O.
Proof.
  intros Hh Hw Hs Hc. exists [], [], []. rewrite Hh, Hw, Hs, !app_nil_r.
  repeat split; auto. simpl. lia.
Qed.

Lemma adds_message st w o role content :
  history (state_of o) = add_to_history (history st) role content -> world_of o = w ->
  steps (state_of o) = steps st -> current_step (state_of o) = current_step st ->
  adds st w o 1 O.
Proof.
  intros Hh Hw Hs Hc. exists [mkMessage role content], [], [].
  rewrite Hh, Hw, Hs, !app_nil_r. repeat split; auto.
Qed.

Lemma adds_more st w o k k' n : adds st w o k n -> (k <= k')%nat -> adds st w o k' n.
Proof.
  intros (msgs & evs & ns & H1 & H2 & H3) Hk. exists msgs, evs, ns.
  split; [exact H1|]. split; [lia|exact H3].
Qed.

Lemma handle_command_adds E cfg agent st w command :
  adds st w (handle_command E cfg agent st w command) 1 O.
Proof.
  unfold handle_command.
  assert (Hinvalid : forall msg f,
            adds st w
              (count_idle agent
                 (mkLoop (add_to_history (history st) "user" (msg_invalid_prefix ++ msg))
                         (steps st) (current_step st) (idle_steps st)) w f) 1 O).
  { intros msg f. eapply adds_message.
    - rewrite count_idle_state. reflexivity.
    - apply count_idle_world.
    - rewrite count_idle_state. reflexivity.
    - rewrite count_idle_state. reflexivity. }
  destruct command as [|b|l|c|l|d];
    try (destruct (truthy _); [apply adds_nothing; reflexivity|apply Hinvalid]).
  destruct (validate_command cfg (tool agent) c) as [is_valid msg].
  destruct is_valid; simpl; [|apply Hinvalid].
  destruct (execute_llm_events E cfg (tool agent) c
              (require_confirm agent && negb (auto_mode agent)) w) as (evs & Ht & Hl).
  destruct (execute E cfg (tool agent) c (require_confirm agent && negb (auto_mode agent)) w)
    as [[[success stdout] stderr] w1].
  simpl in Ht.
  eexists [_], evs, [_]. simpl.
  repeat split; try reflexivity; auto.
  right. eauto.
Qed.

Lemma handle_parsed_adds E cfg agent st w response info :
  adds st w (handle_parsed E cfg agent st w response info) 1 O.
Proof.
  unfold handle_parsed.
  destruct (_ && _)%bool.
  - destruct (negb (auto_mode agent)); [|apply adds_nothing; reflexivity].
    destruct (ui_interact _ _ _ _ _) as [u|e]; [destruct (is_empty u)|]; simpl.
    + exists [], [EvInteract], []. rewrite !app_nil_r. repeat split; auto.
    + eexists [_], [EvInteract], []. rewrite !app_nil_r. repeat split; auto.
    + exists [], [EvInteract], []. rewrite !app_nil_r. repeat split; auto.
  - destruct (dict_get "status" info); [apply adds_nothing; reflexivity|].
    destruct (dict_get "command" info);
      [apply handle_command_adds|apply adds_nothing; reflexivity].
Qed.

(** One pass: at most two messages, exactly one call to the LLM, at most
    one step record, whose index is the number of the pass. *)
Lemma iteration_adds E cfg agent st w :
  exists msgs evs new_steps,
    history (state_of (iteration E cfg agent st w)) = (history st ++ msgs)%list
    /\ (length msgs <= 2)%nat
    /\ trace (world_of (iteration E cfg agent st w)) = (evs ++ trace w)%list
    /\ llm_events evs = 1%nat
    /\ steps (state_of (iteration E cfg agent st w)) = (steps st ++ new_steps)%list
    /\ indices_between (current_step st) (current_step st + 1) new_steps.
Proof.
  assert (Hidle : forall f o,
            o = count_idle agent
                  (mkLoop (history st) (steps st) (current_step st + 1) (idle_steps st))
                  (log EvLLM w) f ->
            exists msgs evs new_steps,
              history (state_of o) = (history st ++ msgs)%list
              /\ (length msgs <= 2)%nat
              /\ trace (world_of o) = (evs ++ trace w)%list
              /\ llm_events evs = 1%nat
              /\ steps (state_of o) = (steps st ++ new_steps)%list
              /\ indices_between (current_step st) (current_step st + 1) new_steps).
  { intros f o ->. exists [], [EvLLM], [].
    rewrite count_idle_state, count_idle_world, !app_nil_r. simpl.
    repeat split; auto. }
  unfold iteration.
  destruct (llm_generate E w _) as [e| |response]; try (eapply Hidle; reflexivity).
  destruct (is_empty (strip response)); [eapply Hidle; reflexivity|].
  assert (Hafter : forall o k,
            adds (mkLoop (add_to_history (history st) "assistant" response)
                         (steps st) (current_step st + 1) k) (log EvLLM w) o 1 O ->
            exists msgs evs new_steps,
              history (state_of o) = (history st ++ msgs)%list
              /\ (length msgs <= 2)%nat
              /\ trace (world_of o) = (evs ++ trace w)%list
              /\ llm_events evs = 1%nat
              /\ steps (state_of o) = (steps st ++ new_steps)%list
              /\ indices_between (current_step st) (current_step st + 1) new_steps).
  { intros o k (msgs & evs & ns & Hh & Hl & Ht & Hn & Hs & Hns & _). simpl in *.
    exists (mkMessage "assistant" response :: msgs), (evs ++ [EvLLM])%list, ns.
    split. { rewrite Hh. unfold add_to_history. rewrite <- app_assoc. reflexivity. }
    split; [simpl; lia|].
    split. { rewrite Ht, <- app_assoc. reflexivity. }
    split. { rewrite llm_events_app, Hn. reflexivity. }
    split; [exact Hs|].
    destruct Hns as [->|(c & ok & out & err & ->)]; simpl; [exact I|]. lia. }
  destruct (parse_response response) as [info|].
  - eapply Hafter. apply handle_parsed_adds.
  - destruct (is_final_summary response).
    + eapply (Hafter _ (idle_steps st)). apply adds_nothing; reflexivity.
    + eapply (Hafter _ (idle_steps st)). apply adds_nothing.
      * rewrite count_idle_state. reflexivity.
      * apply count_idle_world.
      * rewrite count_idle_state. reflexivity.
      * rewrite count_idle_state. reflexivity.
Qed.

(** The whole loop, from the state [st] in which it starts. *)
Lemma run_loop_adds E cfg agent fuel : forall st w r st' w',
  run_loop fuel E cfg agent st w = Some (r, st', w') ->
  exists msgs evs new_steps,
    history st' = (history st ++ msgs)%list
    /\ Z.of_nat (length msgs) <= 2 * (current_step st' - current_step st)
    /\ trace w' = (evs ++ trace w)%list
    /\ Z.of_nat (llm_events evs) = current_step st' - current_step st
    /\ steps st' = (steps st ++ new_steps)%list
    /\ indices_between (current_step st) (current_step st') new_steps.
Proof.
  induction fuel as [|f IH]; intros st w r st' w' H; [discriminate|].
  cbn [run_loop] in H.
  destruct (current_step st <? max_steps agent).
  - destruct (iteration_adds E cfg agent st w)
      as (m1 & e1 & n1 & Hh1 & Hl1 & Ht1 & Hn1 & Hs1 & Hi1).
    pose proof (iteration_step E cfg agent st w) as Hc1.
    destruct (iteration E cfg agent st w) as [st1 w1|r1 st1 w1] eqn:Hit;
      cbn [state_of world_of] in Hh1, Ht1, Hs1, Hc1.
    + pose proof (run_loop_counter E cfg agent f st1 w1 r st' w' H) as Hge.
      apply IH in H.
      destruct H as (m2 & e2 & n2 & Hh2 & Hl2 & Ht2 & Hn2 & Hs2 & Hi2).
      exists (m1 ++ m2)%list, (e2 ++ e1)%list, (n1 ++ n2)%list.
      split. { rewrite Hh2, Hh1, app_assoc. reflexivity. }
      split. { rewrite length_app. lia. }
      split. { rewrite Ht2, Ht1, app_assoc. reflexivity. }
      split. { rewrite llm_events_app. lia. }
      split. { rewrite Hs2, Hs1, app_assoc. reflexivity. }
      rewrite <- Hc1 in Hi1.
      eapply indices_between_app; [exact Hi1|exact Hi2|lia].
    + inversion H; subst r1 st1 w1. clear H.
      exists m1, e1, n1.
      split; [exact Hh1|]. split; [lia|]. split; [exact Ht1|]. split; [lia|].
      split; [exact Hs1|]. rewrite Hc1; exact Hi1.
  - inversion H; subst. exists [], [], []. rewrite !app_nil_r.
    cbn [length llm_events indices_between app].
    split; [reflexivity|]. split; [lia|]. split; [reflexivity|]. split; [lia|].
    split; [reflexivity|exact I].
Qed.

Lemma iteration_result_steps E cfg agent st w r st' w' :
  iteration E cfg agent st w = Return r st' w' -> r_steps r = Some (steps st').
Proof.
  assert (Hidle : forall s w0 f,
            (forall s', r_steps (f s') = Some (steps s')) ->
            count_idle agent s w0 f = Return r st' w' -> r_steps r = Some (steps st')).
  { intros s w0 f Hf. unfold count_idle. destruct (_ >=? _); [|discriminate].
    intros H. inversion H; subst. apply Hf. }
  unfold iteration.
  destruct (llm_generate E w _) as [e| |response];
    [apply Hidle; intros; reflexivity|apply Hidle; intros; reflexivity|].
  destruct (is_empty (strip response)); [apply Hidle; intros; reflexivity|].
  destruct (parse_response response) as [info|].
  - unfold handle_parsed.
    destruct (_ && _)%bool.
    + destruct (negb (auto_mode agent)); [|discriminate].
      destruct (ui_interact _ _ _ _ _) as [u|e]; [destruct (is_empty u)|];
        intros H; inversion H; subst; reflexivity.
    + destruct (dict_get "status" info); [intros H; inversion H; subst; reflexivity|].
      destruct (dict_get "command" info) as [command|]; [|discriminate].
      unfold handle_command.
      destruct command as [|b|l|c|l|d];
        try (destruct (truthy _);
             [intros H; inversion H; subst; reflexivity
             |intros H; unfold count_idle in H; destruct (_ >=? _) in H; [|discriminate];
              inversion H; subst; reflexivity]).
      destruct (validate_command cfg (tool agent) c) as [is_valid msg].
      destruct is_valid; simpl.
      * destruct (execute _ _ _ _ _ _) as [[[success stdout] stderr] w1]. discriminate.
      * intros H; unfold count_idle in H; destruct (_ >=? _) in H; [|discriminate].
        inversion H; subst; reflexivity.
  - destruct (is_final_summary response).
    + intros H; inversion H; subst; reflexivity.
    + apply Hidle. intros; reflexivity.
Qed.

Lemma run_loop_result_steps E cfg agent fuel : forall st w r st' w',
  run_loop fuel E cfg agent st w = Some (r, st', w') -> r_steps r = Some (steps st').
Proof.
  induction fuel as [|f IH]; intros st w r st' w' H; [discriminate|].
  cbn [run_loop] in H.
  destruct (current_step st <? max_steps agent).
  - destruct (iteration E cfg agent st w) as [st1 w1|r1 st1 w1] eqn:Hit.
    + eapply IH; exact H.
    + inversion H; subst. eapply iteration_result_steps; exact Hit.
  - inversion H; subst. reflexivity.
Qed.

Lemma run_entry_history hist task cont st0 :
  run_entry hist task cont = Some st0 ->
  exists msgs, history st0 = (hist ++ msgs)%list /\ (length msgs <= 1)%nat.
Proof.
  unfold run_entry. destruct (_ && _)%bool; [|destruct cont]; intros H; inversion H.
  - eexists [_]. split; reflexivity.
  - exists []. rewrite app_nil_r. split; [reflexivity|simpl; lia].
Qed.

(** X1.  A run never rewrites the conversation: the history it leaves is the
    history it found followed by new messages, at most the task prompt and
    two messages (the reply and the observation or the user's answer) for
    each pass of the loop. *)
Theorem run_only_appends_to_history E cfg agent hist task cont w r st' w' :
  run E cfg agent hist task cont w = Some (r, st', w') ->
  exists msgs,
    history st' = (hist ++ msgs)%list
    /\ Z.of_nat (length msgs) <= 1 + 2 * current_step st'.
Proof.
  unfold run. destruct (run_entry hist task cont) as [st0|] eqn:He; intros H.
  - destruct (run_entry_counter _ _ _ _ He) as [Hc _].
    destruct (run_entry_history _ _ _ _ He) as (m0 & Hh0 & Hl0).
    apply run_loop_adds in H.
    destruct H as (msgs & _ & _ & Hh & Hl & _).
    exists (m0 ++ msgs)%list. split.
    + rewrite Hh, Hh0, app_assoc. reflexivity.
    + rewrite length_app. lia.
  - inversion H; subst. exists []. rewrite app_nil_r. split; [reflexivity|simpl; lia].
Qed.

Lemma run_only_appends_to_history_witness :
  exists r st' w',
    run hello_env default_config Demo.auto_agent Demo.history0
        (Some "print the word hi") false Demo.world0 = Some (r, st', w')
    /\ exists msgs,
         history st' = (Demo.history0 ++ msgs)%list
         /\ Z.of_nat (length msgs) <= 1 + 2 * current_step st'.
Proof.
  eexists _, _, _. split; [vm_compute; reflexivity|].
  eapply (run_only_appends_to_history hello_env default_config Demo.auto_agent
           Demo.history0 (Some "print the word hi") false Demo.world0).
  vm_compute. reflexivity.
Defined.

(** X2.  The step records of a run are in the order of the passes that made
    them: their indices grow strictly and lie between 1 and the number of
    passes made, and the result of the run reports exactly these records.
    So there are never more records than passes, and the indices need not
    be consecutive (the index is the number of the pass, and a pass may
    run no command). *)
Theorem run_step_records_are_ordered E cfg agent hist task cont w r st' w' :
  run E cfg agent hist task cont w = Some (r, st', w') ->
  indices_between 0 (current_step st') (steps st')
  /\ (r = no_task_result \/ r_steps r = Some (steps st')).
Proof.
  unfold run. destruct (run_entry hist task cont) as [st0|] eqn:He; intros H.
  - destruct (run_entry_counter _ _ _ _ He) as [Hc Hs0].
    split; [|right; eapply run_loop_result_steps; exact H].
    apply run_loop_adds in H.
    destruct H as (_ & _ & ns & _ & _ & _ & _ & Hs & Hi).
    rewrite Hs, Hs0, Hc in *. exact Hi.
  - inversion H; subst. split; [exact I|left; reflexivity].
Qed.

Lemma run_step_records_are_ordered_witness :
  exists r st' w',
    run hello_env default_config Demo.auto_agent Demo.history0
        (Some "print the word hi") false Demo.world0 = Some (r, st', w')
    /\ indices_between 0 (current_step st') (steps st')
    /\ (r = no_task_result \/ r_steps r = Some (steps st')).
Proof.
  eexists _, _, _. split; [vm_compute; reflexivity|].
  eapply (run_step_records_are_ordered hello_env default_config Demo.auto_agent
           Demo.history0 (Some "print the word hi") false Demo.world0).
  vm_compute. reflexivity.
Defined.

(** X3.  A run calls the LLM exactly once for each pass of its loop, and
    nowhere else: the number of calls it adds to the trace is the final
    value of the step counter, hence at most [max_steps] (none for a
    budget below zero). *)
Theorem run_calls_llm_once_per_pass E cfg agent hist task cont w r st' w' :
  run E cfg agent hist task cont w = Some (r, st', w') ->
  exists evs,
    trace w' = (evs ++ trace w)%list
    /\ Z.of_nat (llm_events evs) = current_step st'
    /\ current_step st' <= Z.max 0 (max_steps agent).
Proof.
  unfold run. destruct (run_entry hist task cont) as [st0|] eqn:He; intros H.
  - destruct (run_entry_counter _ _ _ _ He) as [Hc _].
    pose proof (run_loop_counter _ _ _ _ _ _ _ _ _ H) as Hb.
    apply run_loop_adds in H.
    destruct H as (_ & evs & _ & _ & _ & Ht & Hn & _).
    exists evs. split; [exact Ht|]. split; lia.
  - inversion H; subst. exists []. split; [reflexivity|]. simpl. lia.
Qed.

Lemma run_calls_llm_once_per_pass_witness :
  exists r st' w',
    run hello_env default_config Demo.auto_agent Demo.history0
        (Some "print the word hi") false Demo.world0 = Some (r, st', w')
    /\ exists evs,
         trace w' = (evs ++ trace Demo.world0)%list
         /\ Z.of_nat (llm_events evs) = current_step st'
         /\ current_step st' <= Z.max 0 (max_steps Demo.auto_agent).
Proof.
  eexists _, _, _. split; [vm_compute; reflexivity|].
  eapply (run_calls_llm_once_per_pass hello_env default_config Demo.auto_agent
           Demo.history0 (Some "print the word hi") false Demo.world0).
  vm_compute. reflexivity.
Defined.

(** *** The questions of [execute] *)

Lemma asked_known n m d a e :
  In e (asked n m d a) -> n = true /\ e = EvConfirm m d a.
Proof.
  unfold asked. destruct n; [|intros []]. intros [<-|[]]. split; reflexivity.
Qed.

Lemma questions_length tl c rc : (length (questions tl c rc) <= 2)%nat.
Proof.
  unfold questions, asked. rewrite !length_app.
  destruct rc, (is_sudo c), (is_high_risk c), (safe_mode tl); simpl; lia.
Qed.

(** Either the command went to a shell after the questions [questions],
    or the call failed and left only questions behind. *)
Lemma execute_questions E cfg tl c rc w :
  (exists childs,
      trace (snd (execute E cfg tl c rc w))
      = (childs ++ [EvShell c] ++ questions tl c rc ++ trace w)%list
      /\ forallb is_child_event childs = true)
  \/ (exists stderr confs,
         fst (execute E cfg tl c rc w) = (false, "", stderr)
         /\ trace (snd (execute E cfg tl c rc w)) = (confs ++ trace w)%list
         /\ (length confs <= 2)%nat
         /\ (forall e, In e confs ->
               exists a, e = EvConfirm prompt_sudo false a
                         \/ e = EvConfirm prompt_high_risk false a
                         \/ (rc = true /\ e = EvConfirm prompt_normal true a))).
Proof.
  unfold execute.
  destruct (_ && _)%bool.
  { right. exists "Dangerous command blocked", []. repeat split; auto. intros e []. }
  destruct (validate_command cfg tl c) as [is_valid msg].
  destruct is_valid; cbn [negb];
    [|right; exists msg, []; repeat split; auto; intros e []].
  fold (is_sudo c). fold (is_high_risk c).
  destruct (ask E (is_sudo c) prompt_sudo false w) as [sudo_ok w1] eqn:H1.
  apply ask_trace in H1. destruct H1 as (T1 & N1 & _).
  destruct sudo_ok; cbn [negb].
  2:{ right. exists "User cancelled sudo command", (asked (is_sudo c) prompt_sudo false false).
      split; [reflexivity|]. split; [exact T1|].
      split; [unfold asked; destruct (is_sudo c); simpl; lia|].
      intros e He. apply asked_known in He. destruct He as [_ ->]. eauto. }
  destruct (ask E (is_high_risk c && safe_mode tl) prompt_high_risk false w1)
    as [risk_ok w2] eqn:H2.
  apply ask_trace in H2. destruct H2 as (T2 & N2 & _).
  destruct risk_ok; cbn [negb].
  2:{ right.
      exists "User cancelled high-risk command",
        (asked (is_high_risk c && safe_mode tl) prompt_high_risk false false
         ++ asked (is_sudo c) prompt_sudo false true)%list.
      split; [reflexivity|].
      split; [simpl snd; rewrite T2, T1, app_assoc; reflexivity|].
      split. { rewrite length_app. unfold asked.
               destruct (_ && _)%bool; destruct (is_sudo c); simpl; lia. }
      intros e He. apply in_app_or in He.
      destruct He as [He|He]; apply asked_known in He; destruct He as [_ ->]; eauto. }
  destruct (ask E (rc && negb (is_sudo c) && negb (is_high_risk c)) prompt_normal true w2)
    as [normal_ok w3] eqn:H3.
  apply ask_trace in H3. destruct H3 as (T3 & N3 & _).
  destruct normal_ok; cbn [negb].
  2:{ right.
      exists "User cancelled",
        (asked (rc && negb (is_sudo c) && negb (is_high_risk c)) prompt_normal true false
         ++ asked (is_high_risk c && safe_mode tl) prompt_high_risk false true
         ++ asked (is_sudo c) prompt_sudo false true)%list.
      split; [reflexivity|].
      split; [simpl snd; rewrite T3, T2, T1, <- !app_assoc; reflexivity|].
      split. { rewrite !length_app. unfold asked.
               destruct rc, (is_sudo c), (is_high_risk c), (safe_mode tl); simpl; lia. }
      intros e He. apply in_app_or in He. destruct He as [He|He].
      - apply asked_known in He. destruct He as [Hn ->]. exists false. right. right.
        split; [|reflexivity]. destruct rc; [reflexivity|discriminate].
      - apply in_app_or in He.
        destruct He as [He|He]; apply asked_known in He; destruct He as [_ ->]; eauto. }
  left.
  destruct (execute_run_trace E tl c w3) as (childs & Tr & Hc).
  exists childs. split; [|exact Hc].
  rewrite Tr, T3, T2, T1. unfold questions. cbn [app]. rewrite <- !app_assoc. reflexivity.
Qed.

(** X4.  Let the command be ASCII text without markup.  Before it reaches
    a shell, [execute] has asked exactly the questions [questions], in a
    fixed order (about sudo, then about the high risk, then the ordinary
    one) and all were answered yes; these are at most two, and none at all
    for a command that is neither sudo nor high-risk when confirmation is
    not required (the AUTO mode).  In every other case nothing is run: the
    call fails with an empty stdout and leaves only questions behind, at
    most two. *)
Theorem execute_asks_before_running E cfg tl c rc w :
  is_ascii c = true -> no_markup c = true ->
  (exists childs,
      trace (snd (execute E cfg tl c rc w))
      = (childs ++ [EvShell c] ++ questions tl c rc ++ trace w)%list
      /\ forallb is_child_event childs = true
      /\ (length (questions tl c rc) <= 2)%nat
      /\ ((rc || is_sudo c || is_high_risk c)%bool = false -> questions tl c rc = []))
  \/ (exists stderr confs,
         fst (execute E cfg tl c rc w) = (false, "", stderr)
         /\ trace (snd (execute E cfg tl c rc w)) = (confs ++ trace w)%list
         /\ (forall e, In e confs -> exists m d a, e = EvConfirm m d a)
         /\ (length confs <= 2)%nat).
Proof.
  intros _ _.
  destruct (execute_questions E cfg tl c rc w)
    as [(childs & Ht & Hc)|(stderr & confs & Hr & Ht & Hl & Hq)].
  - left. exists childs. split; [exact Ht|]. split; [exact Hc|].
    split; [apply questions_length|].
    unfold questions, asked.
    destruct rc, (is_sudo c), (is_high_risk c); simpl; try discriminate. reflexivity.
  - right. exists stderr, confs. split; [exact Hr|]. split; [exact Ht|].
    split; [|exact Hl].
    intros e He. destruct (Hq e He) as (a & [->|[->|[_ ->]]]); eauto.
Qed.

(** [ls -la] in AUTO mode goes to the shell without a question. *)
Lemma execute_asks_before_running_witness :
  (exists childs,
      trace (snd (execute (quiet_env true) default_config (tool Demo.auto_agent)
                    "ls -la" false Demo.world0))
      = (childs ++ [EvShell "ls -la"]
         ++ questions (tool Demo.auto_agent) "ls -la" false ++ trace Demo.world0)%list
      /\ forallb is_child_event childs = true
      /\ (length (questions (tool Demo.auto_agent) "ls -la" false) <= 2)%nat
      /\ ((false || is_sudo "ls -la" || is_high_risk "ls -la")%bool = false ->
          questions (tool Demo.auto_agent) "ls -la" false = []))
  \/ (exists stderr confs,
         fst (execute (quiet_env true) default_config (tool Demo.auto_agent)
                "ls -la" false Demo.world0) = (false, "", stderr)
         /\ trace (snd (execute (quiet_env true) default_config (tool Demo.auto_agent)
                          "ls -la" false Demo.world0))
            = (confs ++ trace Demo.world0)%list
         /\ (forall e, In e confs -> exists m d a, e = EvConfirm m d a)
         /\ (length confs <= 2)%nat).
Proof.
  apply (execute_asks_before_running (quiet_env true) default_config
           (tool Demo.auto_agent) "ls -la" false Demo.world0); reflexivity.
Defined.

(** *** The events of a run *)

Section RunEvents.

Variable P : Event -> Prop.
Variables (E : Env) (cfg : Config) (agent : CommandAgent).
Hypothesis P_llm : P EvLLM.
Hypothesis P_interact : auto_mode agent = false -> P EvInteract.
Hypothesis P_execute : forall c w,
  exists evs,
    trace (snd (execute E cfg (tool agent) c
                  (require_confirm agent && negb (auto_mode agent)) w))
    = (evs ++ trace w)%list
    /\ Forall P evs.

Lemma handle_command_events st w command :
  exists evs,
    trace (world_of (handle_command E cfg agent st w command)) = (evs ++ trace w)%list
    /\ Forall P evs.
Proof.
  assert (Hnil : forall o, world_of o = w ->
            exists evs, trace (world_of o) = (evs ++ trace w)%list /\ Forall P evs).
  { intros o ->. exists []. split; [reflexivity|constructor]. }
  unfold handle_command.
  destruct command as [|b|l|c|l|d];
    try (destruct (truthy _); apply Hnil; [reflexivity|apply count_idle_world]).
  destruct (validate_command cfg (tool agent) c) as [is_valid msg].
  destruct is_valid; simpl; [|apply Hnil; apply count_idle_world].
  destruct (P_execute c w) as (evs & Ht & HP).
  destruct (execute E cfg (tool agent) c (require_confirm agent && negb (auto_mode agent)) w)
    as [[[success stdout] stderr] w1].
  exists evs. split; [exact Ht|exact HP].
Qed.

Lemma handle_parsed_events st w response info :
  exists evs,
    trace (world_of (handle_parsed E cfg agent st w response info)) = (evs ++ trace w)%list
    /\ Forall P evs.
Proof.
  assert (Hnil : exists evs, trace w = (evs ++ trace w)%list /\ Forall P evs).
  { exists []. split; [reflexivity|constructor]. }
  unfold handle_parsed.
  case (dict_has "interaction" info
        && truthy (dict_get_default "interaction" JNull info))%bool.
  - case_eq (auto_mode agent); intros Ha; cbn [negb]; [exact Hnil|].
    assert (Hi : exists evs, trace (log EvInteract w) = (evs ++ trace w)%list /\ Forall P evs).
    { exists [EvInteract]. split; [reflexivity|]. constructor; [auto|constructor]. }
    case (ui_interact E w (dict_get_default "message" (JStr response) info)
            (dict_get_default "options" JNull info)
            (dict_get_default "allow_custom_input" (JBool false) info));
      [intros u; case (is_empty u)|intros e]; exact Hi.
  - case (dict_get "status" info); [intros status; exact Hnil|].
    case (dict_get "command" info);
      [intros command; apply handle_command_events|exact Hnil].
Qed.

Lemma iteration_events st w :
  exists evs,
    trace (world_of (iteration E cfg agent st w)) = (evs ++ trace w)%list
    /\ Forall P evs.
Proof.
  assert (Hllm : forall o, world_of o = log EvLLM w ->
            exists evs, trace (world_of o) = (evs ++ trace w)%list /\ Forall P evs).
  { intros o ->. exists [EvLLM]. split; [reflexivity|]. constructor; [auto|constructor]. }
  unfold iteration.
  destruct (llm_generate E w _) as [e| |response];
    [apply Hllm, count_idle_world|apply Hllm, count_idle_world|].
  destruct (is_empty (strip response)); [apply Hllm, count_idle_world|].
  destruct (parse_response response) as [info|].
  - match goal with
    | |- context [handle_parsed E cfg agent ?s ?w0 ?r ?i] =>
        destruct (handle_parsed_events s w0 r i) as (evs & Ht & HP)
    end.
    exists (evs ++ [EvLLM])%list. split.
    + rewrite Ht, <- app_assoc. reflexivity.
    + apply Forall_app. split; [exact HP|]. constructor; [auto|constructor].
  - destruct (is_final_summary response); [apply Hllm; reflexivity|apply Hllm, count_idle_world].
Qed.

Lemma run_loop_events fuel : forall st w r st' w',
  run_loop fuel E cfg agent st w = Some (r, st', w') ->
  exists evs, trace w' = (evs ++ trace w)%list /\ Forall P evs.
Proof.
  induction fuel as [|f IH]; intros st w r st' w' H; [discriminate|].
  cbn [run_loop] in H.
  destruct (current_step st <? max_steps agent).
  - destruct (iteration_events st w) as (e1 & Ht1 & HP1).
    destruct (iteration E cfg agent st w) as [st1 w1|r1 st1 w1]; cbn [world_of] in Ht1.
    + apply IH in H. destruct H as (e2 & Ht2 & HP2).
      exists (e2 ++ e1)%list. split.
      * rewrite Ht2, Ht1, app_assoc. reflexivity.
      * apply Forall_app. split; assumption.
    + inversion H; subst. exists e1. split; assumption.
  - inversion H; subst. exists []. split; [reflexivity|constructor].
Qed.

Lemma run_events hist task cont w r st' w' :
  run E cfg agent hist task cont w = Some (r, st', w') ->
  exists evs, trace w' = (evs ++ trace w)%list /\ Forall P evs.
Proof.
  unfold run. destruct (run_entry hist task cont) as [st0|]; intros H.
  - eapply run_loop_events; exact H.
  - inversion H; subst. exists []. split; [reflexivity|constructor].
Qed.

End RunEvents.

Lemma execute_unattended E cfg tl c w :
  exists evs,
    trace (snd (execute E cfg tl c false w)) = (evs ++ trace w)%list
    /\ Forall unattended evs.
Proof.
  assert (Hasked : forall n m a, m = prompt_sudo \/ m = prompt_high_risk ->
            Forall unattended (asked n m false a)).
  { intros n m a Hm. unfold asked. destruct n; [|constructor].
    constructor; [split; [exact Hm|reflexivity]|constructor]. }
  destruct (execute_questions E cfg tl c false w)
    as [(childs & Ht & Hc)|(stderr & confs & _ & Ht & _ & Hq)].
  - exists (childs ++ [EvShell c] ++ questions tl c false)%list. split.
    + rewrite Ht, <- !app_assoc. reflexivity.
    + apply Forall_app. split.
      * apply Forall_forall. intros e He. rewrite forallb_forall in Hc.
        apply Hc in He. destruct e; try discriminate; exact I.
      * apply Forall_app. split; [repeat constructor|].
        unfold questions. cbn [andb asked app].
        apply Forall_app. split; apply Hasked; auto.
  - exists confs. split; [exact Ht|]. apply Forall_forall. intros e He.
    destruct (Hq e He) as (a & [->|[->|[Hrc _]]]); [simpl; auto|simpl; auto|discriminate].
Qed.

(** X5.  In AUTO mode a run never stops for the user, with two exceptions:
    it holds no dialogue and asks no ordinary confirmation, whatever
    [require_confirm] says; the only questions it can ask are the one
    about a sudo command and the one about a high-risk command, both with
    the default answer no. *)
Theorem auto_mode_asks_only_for_sudo_and_high_risk
  E cfg agent hist task cont w r st' w' :
  auto_mode agent = true ->
  run E cfg agent hist task cont w = Some (r, st', w') ->
  exists evs, trace w' = (evs ++ trace w)%list /\ Forall unattended evs.
Proof.
  intros Ha H.
  apply (run_events unattended E cfg agent) with (hist := hist) (task := task)
    (cont := cont) (r := r) (st' := st'); [exact I| |intros c w0|exact H].
  - rewrite Ha. discriminate.
  - rewrite Ha, andb_false_r. apply execute_unattended.
Qed.

Lemma auto_mode_asks_only_for_sudo_and_high_risk_witness :
  exists r st' w',
    run hello_env default_config Demo.auto_agent Demo.history0
        (Some "print the word hi") false Demo.world0 = Some (r, st', w')
    /\ exists evs, trace w' = (evs ++ trace Demo.world0)%list /\ Forall unattended evs.
Proof.
  eexists _, _, _. split; [vm_compute; reflexivity|].
  eapply (auto_mode_asks_only_for_sudo_and_high_risk hello_env default_config
            Demo.auto_agent Demo.history0 (Some "print the word hi") false Demo.world0).
  - reflexivity.
  - vm_compute. reflexivity.
Defined.

(** *** Prose before the JSON object *)

Lemma find_char_skip c p r :
  find_char c p = None ->
  find_char c (p ++ r) = option_map (Nat.add (String.length p)) (find_char c r).
Proof.
  induction p as [|a p IH]; intros H; simpl.
  - destruct (find_char c r); reflexivity.
  - simpl in H. destruct (Ascii.eqb a c); [discriminate|].
    destruct (find_char c p); [discriminate|].
    rewrite IH by reflexivity. destruct (find_char c r); reflexivity.
Qed.

Lemma drop_skip p n r : drop (String.length p + n) (p ++ r) = drop n r.
Proof. induction p as [|a p IH]; simpl; [reflexivity|exact IH]. Qed.

Lemma scan_braces_shift n s : forall i bc ins esc,
  scan_braces s (n + i) bc ins esc = option_map (Nat.add n) (scan_braces s i bc ins esc).
Proof.
  induction s as [|ch s IH]; intros i bc ins esc; [reflexivity|].
  cbn [scan_braces]. rewrite !plus_n_Sm, !IH.
  repeat match goal with
         | |- context [if ?b then _ else _] => destruct b
         end; reflexivity.
Qed.

Lemma first_balanced_skip prose r :
  find_char "{" prose = None -> first_balanced (prose ++ r) = first_balanced r.
Proof.
  intros H. unfold first_balanced. rewrite (find_char_skip _ _ _ H).
  destruct (find_char "{" r) as [start|]; [|reflexivity]. cbn [option_map].
  rewrite drop_skip, scan_braces_shift.
  destruct (scan_braces (drop start r) start 0 false false) as [i|]; [|reflexivity].
  cbn [option_map]. f_equal. unfold slice.
  rewrite drop_skip. f_equal. lia.
Qed.

(** X6.  Text before the first opening brace has no part in what the
    second half of the parser finds: with any prose in front that holds no
    opening brace, the balanced text that is tried is the same, and the
    result is what that text decodes to; a result that is not an
    interaction request is the same dictionary (the prose shows only in
    the message of an interaction request, which defaults to the whole
    reply). *)
Theorem leading_prose_is_skipped (prose r : string) :
  find_char "{" prose = None ->
  first_balanced (prose ++ r) = first_balanced r
  /\ parse_bare (prose ++ r)
     = intent_of (prose ++ r)
         (match first_balanced r with Some js => loads js | None => None end)
  /\ (forall data,
        parse_bare r = Some data -> dict_has "interaction" data = false ->
        parse_bare (prose ++ r) = Some data).
Proof.
  intros H. pose proof (first_balanced_skip prose r H) as Hb.
  split; [exact Hb|]. unfold parse_bare, intent_of. rewrite Hb. split.
  - destruct (first_balanced r) as [js|]; reflexivity.
  - intros data. destruct (first_balanced r) as [js|]; [|discriminate].
    destruct (loads js) as [[| | | | |d]|]; try discriminate.
    destruct (is_interaction d) eqn:Hi.
    + intros Hd Hh. inversion Hd; subst data. discriminate.
    + destruct (_ || _)%bool; [|discriminate]. intros Hd _. exact Hd.
Qed.

Lemma leading_prose_is_skipped_witness :
  first_balanced ("I will list the files: " ++ dq "{'command': 'ls'} and more")
  = first_balanced (dq "{'command': 'ls'} and more")
  /\ parse_bare ("I will list the files: " ++ dq "{'command': 'ls'} and more")
     = intent_of ("I will list the files: " ++ dq "{'command': 'ls'} and more")
         (match first_balanced (dq "{'command': 'ls'} and more") with
          | Some js => loads js
          | None => None
          end)
  /\ (forall data,
        parse_bare (dq "{'command': 'ls'} and more") = Some data ->
        dict_has "interaction" data = false ->
        parse_bare ("I will list the files: " ++ dq "{'command': 'ls'} and more")
        = Some data).
Proof.
  apply (leading_prose_is_skipped "I will list the files: "
           (dq "{'command': 'ls'} and more")).
  reflexivity.
Defined.

(** *** Dangerous texts inside a command *)

Lemma lower_app a b : lower (a ++ b) = lower a ++ lower b.
Proof.
  induction a as [|c a IH]; [reflexivity|].
  change (String (lower_char c) (lower (a ++ b)) = String (lower_char c) (lower a ++ lower b)).
  rewrite IH. reflexivity.
Qed.

Lemma startswith_cons a p b s :
  startswith (String b s) (String a p) = if Ascii.eqb a b then startswith s p else false.
Proof. reflexivity. Qed.

Lemma contains_cons_eq c s m :
  contains (String c s) m = if startswith (String c s) m then true else contains s m.
Proof. reflexivity. Qed.

Lemma startswith_app m s : startswith (m ++ s) m = true.
Proof.
  induction m as [|c m IH]; [destruct s; reflexivity|].
  change (startswith (String c (m ++ s)) (String c m) = true).
  rewrite startswith_cons, Ascii.eqb_refl. exact IH.
Qed.

Lemma contains_here s m : startswith s m = true -> contains s m = true.
Proof.
  intros H. destruct s as [|c s].
  - destruct m; [reflexivity|discriminate].
  - rewrite contains_cons_eq, H. reflexivity.
Qed.

Lemma contains_cons c s m : contains s m = true -> contains (String c s) m = true.
Proof.
  intros H. rewrite contains_cons_eq.
  destruct (startswith (String c s) m); [reflexivity|exact H].
Qed.

Lemma contains_app p m s : contains (p ++ m ++ s) m = true.
Proof.
  induction p as [|c p IH].
  - apply contains_here. exact (startswith_app m s).
  - apply (contains_cons c (p ++ m ++ s) m), IH.
Qed.

Lemma contains_cases c s m :
  contains (String c s) m = true ->
  startswith (String c s) m = true \/ contains s m = true.
Proof.
  rewrite contains_cons_eq.
  destruct (startswith (String c s) m); [left; reflexivity|right; assumption].
Qed.

Lemma contains_lstrip s m :
  first_solid m = true -> contains s m = true -> contains (lstrip s) m = true.
Proof.
  intros Hm. induction s as [|c s IH]; intros H; [exact H|].
  cbn [lstrip]. destruct (isspace c) eqn:Hc; [|exact H].
  apply contains_cases in H. destruct H as [H|H]; [|apply IH, H].
  destruct m as [|a m]; [discriminate|].
  rewrite startswith_cons in H. simpl in Hm.
  destruct (Ascii.eqb a c) eqn:Ha; [|discriminate].
  apply Ascii.eqb_eq in Ha. subst a. rewrite Hc in Hm. discriminate.
Qed.

Lemma all_space_prefix s m :
  all_space s = true -> startswith s m = true -> all_space m = true.
Proof.
  revert s. induction m as [|a m IH]; intros s Hs H; [reflexivity|].
  destruct s as [|c s]; [discriminate|].
  rewrite startswith_cons in H. simpl in Hs.
  destruct (Ascii.eqb a c) eqn:Ha; [|discriminate].
  apply Ascii.eqb_eq in Ha. subst a. simpl.
  destruct (isspace c); [|discriminate]. eapply IH; eassumption.
Qed.

Lemma all_space_not_solid m : all_space m = true -> last_solid m = false.
Proof.
  induction m as [|a m IH]; [reflexivity|]. simpl.
  destruct (isspace a); [|discriminate]. intros H.
  destruct m; [reflexivity|]. apply IH, H.
Qed.

Lemma startswith_rstrip m : forall s,
  last_solid m = true -> startswith s m = true -> startswith (rstrip s) m = true.
Proof.
  induction m as [|a m IH]; intros s Hm H; [discriminate|].
  destruct s as [|c s]; [discriminate|].
  cbn [rstrip]. destruct (all_space (String c s)) eqn:Hs.
  - pose proof (all_space_prefix _ _ Hs H) as Ha.
    apply all_space_not_solid in Ha. congruence.
  - rewrite startswith_cons in H. rewrite startswith_cons.
    destruct (Ascii.eqb a c); [|discriminate].
    destruct m as [|b m]; [destruct (rstrip s); reflexivity|]. apply IH; [exact Hm|exact H].
Qed.

Lemma all_space_contains s m :
  all_space s = true -> contains s m = true -> all_space m = true.
Proof.
  induction s as [|c s IH]; intros Hs H.
  - destruct m; [reflexivity|discriminate].
  - apply contains_cases in H. destruct H as [H|H].
    + eapply all_space_prefix; eassumption.
    + simpl in Hs. destruct (isspace c); [|discriminate]. apply IH; assumption.
Qed.

Lemma contains_rstrip s m :
  last_solid m = true -> contains s m = true -> contains (rstrip s) m = true.
Proof.
  intros Hm. induction s as [|c s IH]; intros H; [exact H|].
  cbn [rstrip]. destruct (all_space (String c s)) eqn:Hs.
  - pose proof (all_space_contains _ _ Hs H) as Ha.
    apply all_space_not_solid in Ha. congruence.
  - apply contains_cases in H. destruct H as [H|H].
    + apply contains_here.
      pose proof (startswith_rstrip m (String c s) Hm H) as Hr.
      cbn [rstrip] in Hr. rewrite Hs in Hr. exact Hr.
    + apply contains_cons, IH, H.
Qed.

Lemma contains_strip s m :
  first_solid m = true -> last_solid m = true ->
  contains s m = true -> contains (strip s) m = true.
Proof.
  intros Hf Hl H. unfold strip. apply contains_rstrip; [exact Hl|].
  apply contains_lstrip; [exact Hf|exact H].
Qed.

Lemma dangerous_commands_solid d :
  In d DANGEROUS_COMMANDS ->
  first_solid (lower d) = true /\ last_solid (lower d) = true.
Proof.
  assert (H : forallb (fun d => first_solid (lower d) && last_solid (lower d))%bool
                DANGEROUS_COMMANDS = true) by (vm_compute; reflexivity).
  rewrite forallb_forall in H. intros Hd. apply H in Hd.
  apply andb_true_iff in Hd. exact Hd.
Qed.

(** X7.  A command that holds one of the texts of [DANGEROUS_COMMANDS]
    anywhere, in any mix of upper and lower case, is dangerous as soon as
    [SAFE_MODE] is on, whatever stands before and after the text; and
    through a tool in safe mode it reaches neither the user nor a shell:
    [execute] leaves the world as it was, and what it returns for a
    command without markup is False, no output and
    [Dangerous command blocked]. *)
Theorem dangerous_literal_anywhere (cfg : Config) (d d' p s : string) :
  SAFE_MODE cfg = true -> In d DANGEROUS_COMMANDS -> lower d' = lower d ->
  is_dangerous_command cfg (p ++ d' ++ s) = true
  /\ (forall E tl rc w,
        safe_mode tl = true ->
        snd (execute E cfg tl (p ++ d' ++ s) rc w) = w
        /\ (no_markup (p ++ d' ++ s) = true ->
            fst (execute E cfg tl (p ++ d' ++ s) rc w)
            = (false, "", "Dangerous command blocked"))).
Proof.
  intros Hsafe Hd Hl.
  assert (H : is_dangerous_command cfg (p ++ d' ++ s) = true).
  { unfold is_dangerous_command. rewrite Hsafe. cbn [negb].
    assert (Ha : any (fun dangerous =>
                        contains (strip (lower (p ++ d' ++ s))) (lower dangerous))
                   DANGEROUS_COMMANDS = true).
    { apply any_true_iff. exists d. split; [exact Hd|].
      destruct (dangerous_commands_solid d Hd) as [Hf Hs].
      apply contains_strip; [exact Hf|exact Hs|].
      rewrite !lower_app, Hl. apply contains_app. }
    rewrite Ha. reflexivity. }
  split; [exact H|].
  intros E tl rc w Ht. unfold execute. rewrite Ht, H.
  split; [reflexivity|intros _; reflexivity].
Qed.

Lemma dangerous_literal_anywhere_witness :
  is_dangerous_command default_config ("echo x; " ++ "RM -RF /" ++ "tmp/y") = true
  /\ (forall E tl rc w,
        safe_mode tl = true ->
        snd (execute E default_config tl ("echo x; " ++ "RM -RF /" ++ "tmp/y") rc w) = w
        /\ (no_markup ("echo x; " ++ "RM -RF /" ++ "tmp/y") = true ->
            fst (execute E default_config tl ("echo x; " ++ "RM -RF /" ++ "tmp/y") rc w)
            = (false, "", "Dangerous command blocked"))).
Proof.
  apply (dangerous_literal_anywhere default_config "rm -rf /" "RM -RF /" "echo x; " "tmp/y").
  - reflexivity.
  - left. reflexivity.
  - reflexivity.
Defined.

(** *** The recent history of the terminal *)

Lemma lastn_length {A : Type} (n : nat) (l : list A) :
  (List.length (lastn n l) <= n)%nat.
Proof. unfold lastn. rewrite length_skipn. lia. Qed.

Lemma lastn_all {A : Type} (n : nat) (l : list A) :
  (List.length l <= n)%nat -> lastn n l = l.
Proof.
  intros H. unfold lastn. replace (List.length l - n)%nat with O by lia. reflexivity.
Qed.

Lemma lastn_cons {A : Type} (n : nat) (x : A) (l : list A) :
  (n < List.length (x :: l))%nat -> lastn n (x :: l) = lastn n l.
Proof.
  intros H. unfold lastn. simpl in H. simpl List.length.
  replace (S (List.length l) - n)%nat with (S (List.length l - n)) by lia. reflexivity.
Qed.

Lemma deque_append_spec maxlen q x rest :
  (List.length q <= maxlen)%nat ->
  (List.length (deque_append maxlen q x) <= maxlen)%nat
  /\ lastn maxlen (deque_append maxlen q x ++ rest) = lastn maxlen (q ++ x :: rest).
Proof.
  intros Hq. unfold deque_append.
  replace (q ++ x :: rest)%list with ((q ++ [x]) ++ rest)%list
    by (rewrite <- app_assoc; reflexivity).
  destruct (Nat.ltb maxlen (List.length (q ++ [x]))) eqn:Hlt.
  - apply Nat.ltb_lt in Hlt. rewrite length_app in Hlt. simpl in Hlt.
    destruct (q ++ [x])%list as [|y t] eqn:Hqx.
    + destruct q; discriminate.
    + assert (Hlen : List.length (y :: t) = S (List.length q)).
      { rewrite <- Hqx, length_app. simpl. lia. }
      simpl in Hlen. simpl List.tl. split; [lia|].
      change ((y :: t) ++ rest)%list with (y :: (t ++ rest))%list.
      rewrite lastn_cons; [reflexivity|]. simpl. rewrite length_app. lia.
  - apply Nat.ltb_ge in Hlt. split; [exact Hlt|reflexivity].
Qed.

Lemma read_history_from maxlen lines : forall q,
  (List.length q <= maxlen)%nat ->
  fold_left (fun recent_lines line =>
               match history_entry line with
               | Some cmd => deque_append maxlen recent_lines cmd
               | None => recent_lines
               end) lines q
  = lastn maxlen (q ++ history_entries lines).
Proof.
  induction lines as [|line lines IH]; intros q Hq.
  - simpl. rewrite app_nil_r. symmetry. apply lastn_all, Hq.
  - cbn [fold_left history_entries flat_map]. fold (history_entries lines).
    destruct (history_entry line) as [cmd|].
    + destruct (deque_append_spec maxlen q cmd (history_entries lines) Hq) as [Hl He].
      rewrite IH by exact Hl. exact He.
    + apply IH, Hq.
Qed.

(** The deque holds the last [maxlen] commands of the file. *)
Lemma read_history_lastn maxlen lines :
  read_history maxlen lines = lastn maxlen (history_entries lines).
Proof. unfold read_history. rewrite read_history_from; [reflexivity|simpl; lia]. Qed.

Lemma existsb_eqb_In cmd seen : existsb (String.eqb cmd) seen = true <-> In cmd seen.
Proof.
  rewrite existsb_exists. split.
  - intros (x & Hx & He). apply String.eqb_eq in He. subst x. exact Hx.
  - intros H. exists cmd. split; [exact H|apply String.eqb_refl].
Qed.

(** The last loop of [load_recent_history], from any state in which
    [seen] holds the elements of [ordered]. *)
Lemma dedupe_from l : forall seen ordered,
  (forall x, In x seen <-> In x ordered) -> NoDup ordered ->
  exists more,
    snd (fold_left dedupe_step l (seen, ordered)) = (ordered ++ more)%list
    /\ NoDup (ordered ++ more)
    /\ (forall x, In x (ordered ++ more) <-> In x ordered \/ In x l)
    /\ (ordered = [] -> hd_error more = hd_error l).
Proof.
  induction l as [|cmd l IH]; intros seen ordered Hs Hn.
  - exists []. rewrite app_nil_r. simpl. repeat split; auto. intros [H|[]]; exact H.
  - cbn [fold_left dedupe_step].
    destruct (existsb (String.eqb cmd) seen) eqn:Hin.
    + apply existsb_eqb_In in Hin. apply Hs in Hin.
      destruct (IH seen ordered Hs Hn) as (more & He & Hd & Hm & Hh).
      exists more. split; [exact He|]. split; [exact Hd|]. split.
      * intros x. rewrite Hm. simpl. split; [tauto|].
        intros [H|[H|H]]; auto. subst x. auto.
      * intros Ho. subst ordered. contradiction.
    + assert (Hnot : ~ In cmd ordered).
      { intros H. apply Hs in H. apply existsb_eqb_In in H. congruence. }
      destruct (IH (cmd :: seen) (ordered ++ [cmd])%list) as (more & He & Hd & Hm & Hh).
      { intros x. simpl. rewrite in_app_iff, Hs. simpl. tauto. }
      { apply NoDup_app; [exact Hn|repeat constructor; intros []|].
        intros x Hx [<-|[]]. exact (Hnot Hx). }
      exists (cmd :: more). rewrite <- app_assoc in He, Hd, Hm. simpl in He, Hd, Hm.
      split; [exact He|]. split; [exact Hd|]. split.
      * intros x. rewrite Hm, in_app_iff. simpl. tauto.
      * intros _. reflexivity.
Qed.

Lemma filter_filter_and {A : Type} (f g : A -> bool) (l : list A) :
  filter f (filter g l) = filter (fun x => (g x && f x)%bool) l.
Proof.
  induction l as [|x l IH]; [reflexivity|]. cbn [filter].
  destruct (g x); cbn [andb filter]; rewrite IH; reflexivity.
Qed.

(** The last loop of [load_recent_history] keeps the first occurrence of
    every command that [seen] does not hold. *)
Lemma dedupe_first_uses l : forall seen ordered,
  snd (fold_left dedupe_step l (seen, ordered))
  = (ordered ++ filter (fun y => negb (existsb (String.eqb y) seen)) (first_uses l))%list.
Proof.
  induction l as [|cmd l IH]; intros seen ordered.
  - simpl. rewrite app_nil_r. reflexivity.
  - cbn [fold_left dedupe_step first_uses filter].
    destruct (existsb (String.eqb cmd) seen) eqn:Hin; cbn [negb].
    + rewrite IH. f_equal. rewrite filter_filter_and. apply filter_ext. intros y.
      destruct (String.eqb cmd y) eqn:He; cbn [negb andb]; [|reflexivity].
      apply String.eqb_eq in He. subst y. rewrite Hin. reflexivity.
    + rewrite IH, <- app_assoc. cbn [List.app]. f_equal. f_equal.
      rewrite filter_filter_and. apply filter_ext. intros y.
      cbn [existsb]. rewrite negb_orb, (String.eqb_sym y cmd). reflexivity.
Qed.

Lemma dedupe_all l : snd (fold_left dedupe_step l ([], [])) = first_uses l.
Proof.
  rewrite dedupe_first_uses. cbn [List.app existsb negb].
  induction (first_uses l) as [|x r IH]; [reflexivity|]. cbn [filter]. rewrite IH. reflexivity.
Qed.

Lemma history_entry_not_empty line cmd : history_entry line = Some cmd -> cmd <> "".
Proof.
  unfold history_entry. destruct (is_empty (strip line)); [discriminate|].
  match goal with |- context [is_empty ?c] => destruct c as [|a r] end;
    [discriminate|]. intros H. inversion H. discriminate.
Qed.

Lemma history_entries_not_empty lines cmd : In cmd (history_entries lines) -> cmd <> "".
Proof.
  unfold history_entries. rewrite in_flat_map. intros (line & _ & H).
  destruct (history_entry line) as [c|] eqn:He; [|destruct H].
  destruct H as [<-|[]]. eapply history_entry_not_empty, He.
Qed.

Lemma lastn_incl {A : Type} (n : nat) (l : list A) x : In x (lastn n l) -> In x l.
Proof.
  unfold lastn. intros H.
  rewrite <- (firstn_skipn (List.length l - n) l). apply in_or_app. right. exact H.
Qed.

(** X8.  The history that [load_recent_history] reads from a file of
    ASCII text is made of the commands of the last [max_lines] command
    lines (blank lines and empty commands do not count, and [max_lines] is
    [Config.HISTORY_MAX_LINES] when the argument is absent or zero): each
    of these commands occurs exactly once, in the order of its last use,
    the most recent first; no entry is empty, and there are at most
    [max_lines] entries. *)
Theorem load_recent_history_is_recent_and_distinct
  (history_max_lines : Z) (lines : list string) (max_lines : option Z)
  (l : list string) :
  Forall (fun line => is_ascii line = true) lines ->
  load_recent_history history_max_lines (HistoryLines lines) max_lines = Returns l ->
  let n := Z.to_nat (int_or max_lines history_max_lines) in
  let window := lastn n (history_entries lines) in
  NoDup l
  /\ (forall cmd, In cmd l <-> In cmd window)
  /\ l = first_uses (rev window)
  /\ (forall cmd, In cmd l -> cmd <> "")
  /\ (List.length l <= n)%nat.
Proof.
  intros _. unfold load_recent_history.
  destruct (int_or max_lines history_max_lines <? 0); [discriminate|].
  intros H. inversion H as [Hl]. clear H.
  rewrite read_history_lastn.
  set (n := Z.to_nat (int_or max_lines history_max_lines)).
  set (window := lastn n (history_entries lines)).
  destruct (dedupe_from (rev window) [] []) as (more & He & Hd & Hm & Hh).
  { intros x. tauto. }
  { constructor. }
  pose proof (dedupe_all (rev window)) as Hf.
  rewrite He. rewrite He in Hf. simpl in *.
  assert (Hin : forall cmd, In cmd more <-> In cmd window).
  { intros cmd. rewrite Hm, <- in_rev. tauto. }
  split; [exact Hd|]. split; [exact Hin|]. split; [exact Hf|]. split.
  - intros cmd Hc. apply Hin in Hc. apply lastn_incl in Hc.
    eapply history_entries_not_empty, Hc.
  - transitivity (List.length window); [|apply lastn_length].
    apply NoDup_incl_length; [exact Hd|]. intros x Hx. apply Hin, Hx.
Qed.

Lemma load_recent_history_is_recent_and_distinct_witness :
  load_recent_history 200 zsh_history (Some 2) = Returns ["make test"; "ls -l"]
  /\ let n := Z.to_nat (int_or (Some 2) 200) in
     let window :=
       lastn n (history_entries
                  [ ": 1700000001:0;ls -l" ++ newline;
                    ": 1700000002:0;cd /tmp" ++ newline;
                    newline;
                    ": 1700000003:0;ls -l" ++ newline;
                    "make test" ++ newline ]) in
     NoDup ["make test"; "ls -l"]
     /\ (forall cmd, In cmd ["make test"; "ls -l"] <-> In cmd window)
     /\ ["make test"; "ls -l"] = first_uses (rev window)
     /\ (forall cmd, In cmd ["make test"; "ls -l"] -> cmd <> "")
     /\ (List.length ["make test"; "ls -l"] <= n)%nat.
Proof.
  split; [vm_compute; reflexivity|].
  apply (load_recent_history_is_recent_and_distinct 200 _ (Some 2) ["make test"; "ls -l"]).
  - repeat constructor.
  - vm_compute. reflexivity.
Defined.

(** *** Suggestions *)

Lemma longest_prefix_void s : longest_prefix Re.Void s = None.
Proof. destruct s; reflexivity. Qed.

(** White space, as often as it comes: the rest is [lstrip]. *)
Lemma longest_prefix_spaces s :
  exists n, longest_prefix (Re.Star Re.space) s = Some n /\ drop n s = lstrip s.
Proof.
  induction s as [|c s (n & Hn & Hd)]; [exists O; split; reflexivity|].
  cbn [longest_prefix Re.is_void Re.nullable Re.deriv Re.space lstrip].
  destruct (isspace c).
  - cbn [Re.seq]. fold Re.space. rewrite Hn. exists (S n). split; [reflexivity|exact Hd].
  - cbn [Re.seq]. rewrite longest_prefix_void. exists O. split; reflexivity.
Qed.

Lemma digit_closes_nothing c : is_digit c = true -> closes_numbering c = false.
Proof.
  destruct c as [[] [] [] [] [] [] [] []]; vm_compute; intros H;
    first [reflexivity|discriminate H].
Qed.

Lemma longest_prefix_numbering_rest ds c rest :
  all_digits ds = true -> closes_numbering c = true ->
  exists n, longest_prefix numbering_rest (ds ++ String c rest) = Some n
            /\ drop n (ds ++ String c rest) = lstrip rest.
Proof.
  intros Hd Hc. induction ds as [|d ds IH].
  - destruct (longest_prefix_spaces rest) as (n & Hn & Hr).
    assert (Hnd : is_digit c = false).
    { destruct (is_digit c) eqn:H; [|reflexivity].
      apply digit_closes_nothing in H. congruence. }
    exists (S n). split; [|exact Hr].
    change (longest_prefix numbering_rest (String c rest) = Some (S n)).
    unfold numbering_rest.
    cbn [longest_prefix Re.is_void Re.nullable Re.deriv andb].
    unfold closes_numbering in Hc. rewrite Hnd, Hc.
    cbn [Re.seq Re.alt]. rewrite Hn. reflexivity.
  - simpl in Hd. destruct (is_digit d) eqn:Hdd; [|discriminate].
    destruct (IH Hd) as (n & Hn & Hr).
    exists (S n). split; [|exact Hr].
    change (longest_prefix numbering_rest (String d (ds ++ String c rest)) = Some (S n)).
    pose proof (digit_closes_nothing d Hdd) as Hcl. unfold closes_numbering in Hcl.
    unfold numbering_rest in *.
    cbn [longest_prefix Re.is_void Re.nullable Re.deriv andb].
    rewrite Hdd, Hcl. cbn [Re.seq Re.alt]. rewrite Hn. reflexivity.
Qed.

Lemma longest_prefix_numbering_rest_none ds rest :
  all_digits ds = true ->
  match rest with
  | EmptyString => True
  | String c _ => is_digit c = false /\ closes_numbering c = false
  end ->
  longest_prefix numbering_rest (ds ++ rest) = None.
Proof.
  intros Hd Hr. induction ds as [|d ds IH].
  - destruct rest as [|c rest]; [reflexivity|]. destruct Hr as [Hnd Hc].
    change (longest_prefix numbering_rest (String c rest) = None).
    unfold numbering_rest, closes_numbering in *.
    cbn [longest_prefix Re.is_void Re.nullable Re.deriv andb].
    rewrite Hnd, Hc. cbn [Re.seq Re.alt]. rewrite longest_prefix_void. reflexivity.
  - simpl in Hd. destruct (is_digit d) eqn:Hdd; [|discriminate].
    specialize (IH Hd).
    change (longest_prefix numbering_rest (String d (ds ++ rest)) = None).
    pose proof (digit_closes_nothing d Hdd) as Hcl. unfold closes_numbering in Hcl.
    unfold numbering_rest in *.
    cbn [longest_prefix Re.is_void Re.nullable Re.deriv andb].
    rewrite Hdd, Hcl. cbn [Re.seq Re.alt]. rewrite IH. reflexivity.
Qed.

Lemma numbering_first d s :
  is_digit d = true ->
  longest_prefix numbering (String d s)
  = match longest_prefix numbering_rest s with
    | Some n => Some (S n)
    | None => None
    end.
Proof.
  intros Hd. unfold numbering, numbering_rest, Re.plus.
  cbn [longest_prefix Re.is_void Re.nullable Re.deriv andb].
  rewrite Hd. cbn [Re.seq Re.alt]. reflexivity.
Qed.

(** X11.  What [complete] removes from the start of a line of ASCII text
    is a numbering and nothing else: digits (at least one), then a full
    stop or a closing parenthesis, then the white space that follows.  A
    line that does not begin with a digit, and a line whose leading digits
    are followed by anything but these two characters, is left as it
    is. *)
Theorem strip_numbering_removes_one_numbering :
  (forall d ds c rest,
      is_ascii rest = true ->
      is_digit d = true -> all_digits ds = true -> closes_numbering c = true ->
      strip_numbering (String d ds ++ String c rest) = lstrip rest)
  /\ (forall line,
        is_ascii line = true ->
        match line with
        | EmptyString => True
        | String c _ => is_digit c = false
        end ->
        strip_numbering line = line)
  /\ (forall ds rest,
        is_ascii rest = true ->
        all_digits ds = true ->
        match rest with
        | EmptyString => True
        | String c _ => is_digit c = false /\ closes_numbering c = false
        end ->
        strip_numbering (ds ++ rest) = ds ++ rest).
Proof.
  split; [|split].
  - intros d ds c rest _ Hd Hds Hc. unfold strip_numbering.
    change (String d ds ++ String c rest) with (String d (ds ++ String c rest)).
    rewrite (numbering_first d _ Hd).
    destruct (longest_prefix_numbering_rest ds c rest Hds Hc) as (n & -> & Hr).
    exact Hr.
  - intros line _ Hl. unfold strip_numbering.
    destruct line as [|c line]; [reflexivity|].
    unfold numbering, Re.plus.
    cbn [longest_prefix Re.is_void Re.nullable Re.deriv andb].
    rewrite Hl. cbn [Re.seq Re.alt]. rewrite longest_prefix_void. reflexivity.
  - intros ds rest _ Hds Hr. unfold strip_numbering.
    destruct ds as [|d ds].
    + destruct rest as [|c rest]; [reflexivity|]. destruct Hr as [Hnd _].
      change ("" ++ String c rest) with (String c rest).
      unfold numbering, Re.plus.
      cbn [longest_prefix Re.is_void Re.nullable Re.deriv andb].
      rewrite Hnd. cbn [Re.seq Re.alt]. rewrite longest_prefix_void. reflexivity.
    + simpl in Hds. destruct (is_digit d) eqn:Hd; [|discriminate].
      change (String d ds ++ rest) with (String d (ds ++ rest)).
      rewrite (numbering_first d _ Hd).
      rewrite (longest_prefix_numbering_rest_none ds rest Hds Hr). reflexivity.
Qed.

Lemma find_char_rev_acc ch cur : forall acc,
  find_char ch cur = None -> find_char ch acc = None ->
  find_char ch (rev_acc cur acc) = None.
Proof.
  induction cur as [|c cur IH]; intros acc Hc Ha; [exact Ha|].
  simpl in Hc. destruct (Ascii.eqb c ch) eqn:He; [discriminate|].
  destruct (find_char ch cur) eqn:Hf; [discriminate|].
  simpl. apply IH; [reflexivity|]. simpl. rewrite He, Ha. reflexivity.
Qed.

(** The pieces of a split at a character hold no such character. *)
Lemma split_go_pieces ch s : forall cur,
  find_char ch cur = None ->
  Forall (fun piece => find_char ch piece = None)
         (split_go (String ch EmptyString) O cur s).
Proof.
  induction s as [|c s IH]; intros cur Hc.
  - simpl. constructor; [|constructor]. apply find_char_rev_acc; [exact Hc|reflexivity].
  - cbn [split_go]. rewrite startswith_cons.
    destruct (Ascii.eqb ch c) eqn:He.
    + assert (Hs : startswith s "" = true) by (destruct s; reflexivity).
      rewrite Hs. constructor.
      * apply find_char_rev_acc; [exact Hc|reflexivity].
      * apply IH. reflexivity.
    + apply IH. simpl.
      assert (Hce : Ascii.eqb c ch = false).
      { apply Ascii.eqb_neq. intros ->. rewrite Ascii.eqb_refl in He. discriminate. }
      rewrite Hce, Hc. reflexivity.
Qed.

Lemma find_char_drop_none ch n : forall s,
  find_char ch s = None -> find_char ch (drop n s) = None.
Proof.
  induction n as [|n IH]; intros s H; [exact H|].
  destruct s as [|c s]; [reflexivity|]. simpl in H. simpl.
  destruct (Ascii.eqb c ch); [discriminate|].
  destruct (find_char ch s) eqn:Hf; [discriminate|]. apply IH, Hf.
Qed.

Lemma find_char_lstrip_none ch s :
  find_char ch s = None -> find_char ch (lstrip s) = None.
Proof.
  induction s as [|c s IH]; intros H; [reflexivity|].
  cbn [lstrip]. destruct (isspace c); [|exact H].
  simpl in H. destruct (Ascii.eqb c ch); [discriminate|].
  destruct (find_char ch s); [discriminate|]. apply IH. reflexivity.
Qed.

Lemma find_char_rstrip_none ch s :
  find_char ch s = None -> find_char ch (rstrip s) = None.
Proof.
  induction s as [|c s IH]; intros H; [reflexivity|].
  cbn [rstrip]. destruct (all_space (String c s)); [reflexivity|].
  simpl in H. simpl. destruct (Ascii.eqb c ch); [discriminate|].
  destruct (find_char ch s); [discriminate|]. rewrite IH; reflexivity.
Qed.

Lemma suggestion_of_line_shape ch line command :
  suggestion_of_line line = Some command ->
  command <> "" /\ startswith command "#" = false
  /\ (find_char ch line = None -> find_char ch command = None).
Proof.
  unfold suggestion_of_line.
  destruct (startswith (strip line) "```"); [discriminate|].
  destruct (is_empty (strip_numbering (strip line))) eqn:He; [discriminate|].
  destruct (startswith (strip_numbering (strip line)) "#") eqn:Hh; [discriminate|].
  cbn [negb andb]. intros H. inversion H; subst command. clear H.
  split; [intros H; rewrite H in He; discriminate|]. split; [exact Hh|].
  intros Hl. unfold strip_numbering.
  assert (Hs : find_char ch (strip line) = None).
  { unfold strip. apply find_char_rstrip_none, find_char_lstrip_none, Hl. }
  destruct (longest_prefix numbering (strip line)); [|exact Hs].
  apply find_char_drop_none, Hs.
Qed.

Lemma collect_commands_shape ch lines :
  Forall (fun line => find_char ch line = None) lines ->
  Forall (fun command => command <> "" /\ startswith command "#" = false
                         /\ find_char ch command = None)
         (collect_commands lines).
Proof.
  induction 1 as [|line lines Hl _ IH]; [constructor|].
  cbn [collect_commands]. destruct (suggestion_of_line line) as [command|] eqn:Hs; [|exact IH].
  constructor; [|exact IH].
  destruct (suggestion_of_line_shape ch line command Hs) as (H1 & H2 & H3). auto.
Qed.

Lemma py_prefix_incl {A : Type} (k : Z) (l : list A) x : In x (py_prefix k l) -> In x l.
Proof.
  unfold py_prefix. destruct (0 <=? k); intros H.
  - rewrite <- (firstn_skipn (Z.to_nat k) l). apply in_or_app. left. exact H.
  - rewrite <- (firstn_skipn (List.length l - Z.to_nat (- k)) l).
    apply in_or_app. left. exact H.
Qed.

Lemma py_prefix_length {A : Type} (k : Z) (l : list A) :
  0 <= k -> Z.of_nat (List.length (py_prefix k l)) <= k.
Proof.
  intros Hk. unfold py_prefix. destruct (0 <=? k) eqn:H; [|lia].
  rewrite length_firstn. lia.
Qed.

(** X10.  For an input and a reply of the LLM in ASCII text, what
    [complete] returns are commands, one to a line of the reply: no
    suggestion is empty, none begins with the comment sign, none holds a
    line feed, and there are at most [max_suggestions] of them when that
    number is not negative.  A blank input gives no suggestion and no call
    to the LLM; otherwise the LLM is called exactly once. *)
Theorem complete_suggestions_are_single_commands
  (E : Env) (system_prompt : string) (history_max_lines : Z) (file : HistoryFile)
  (user_input : string) (max_suggestions : Z) (w w' : World) (l : list string) :
  is_ascii user_input = true ->
  (forall messages response,
      llm_generate E w messages = LLMText response -> is_ascii response = true) ->
  complete E system_prompt history_max_lines file user_input max_suggestions w
  = (Returns l, w') ->
  (forall command, In command l ->
     command <> "" /\ startswith command "#" = false
     /\ find_char "010" command = None)
  /\ (0 <= max_suggestions -> Z.of_nat (List.length l) <= max_suggestions)
  /\ (if is_empty (strip user_input) then l = [] /\ w' = w else w' = log EvLLM w).
Proof.
  intros _ _. unfold complete.
  assert (Hnone :
            (forall command, In command [] ->
               command <> "" /\ startswith command "#" = false
               /\ find_char "010" command = None)
            /\ (0 <= max_suggestions ->
                Z.of_nat (List.length (@nil string)) <= max_suggestions)).
  { split; [intros c []|simpl; lia]. }
  destruct (is_empty (strip user_input)).
  { intros H. inversion H; subst. destruct Hnone as [H1 H2]. auto. }
  destruct (load_recent_history history_max_lines file None) as [history_lines|message];
    [|discriminate].
  match goal with
  | |- context [llm_generate E w ?m] => set (messages := m)
  end.
  destruct (llm_generate E w messages) as [e| |response] eqn:Hg;
    intros H; inversion H; subst; clear H;
    [destruct Hnone as [H1 H2]; auto|destruct Hnone as [H1 H2]; auto|].
  split; [|split].
  - intros command Hc. apply py_prefix_incl in Hc.
    pose proof (collect_commands_shape "010" (split (strip response) newline)
                  (split_go_pieces "010" (strip response) "" eq_refl)) as Hf.
    rewrite Forall_forall in Hf. apply Hf, Hc.
  - apply py_prefix_length.
  - reflexivity.
Qed.

Lemma complete_suggestions_are_single_commands_witness :
  exists w' l,
    complete (Demo.env_of (Demo.always (LLMText
                ("```" ++ newline ++ "1. ls -l" ++ newline ++ "# a remark" ++ newline
                 ++ "2) ls -a" ++ newline ++ "```"))) true)
             "system prompt" 200 zsh_history "ls" 5 Demo.world0
    = (Returns l, w')
    /\ l = ["ls -l"; "ls -a"]
    /\ (forall command, In command l ->
          command <> "" /\ startswith command "#" = false
          /\ find_char "010" command = None)
    /\ (0 <= 5 -> Z.of_nat (List.length l) <= 5)
    /\ (if is_empty (strip "ls") then l = [] /\ w' = Demo.world0
        else w' = log EvLLM Demo.world0).
Proof.
  eexists _, _. split; [vm_compute; reflexivity|]. split; [reflexivity|].
  eapply (complete_suggestions_are_single_commands
            (Demo.env_of (Demo.always (LLMText
                ("```" ++ newline ++ "1. ls -l" ++ newline ++ "# a remark" ++ newline
                 ++ "2) ls -a" ++ newline ++ "```"))) true)
            "system prompt" 200 zsh_history "ls" 5 Demo.world0).
  - reflexivity.
  - intros messages response H. vm_compute in H. inversion H. reflexivity.
  - vm_compute. reflexivity.
Defined.



(** *** Conversations *)

Lemma answers_follow_questions_app previous h m :
  answers_follow_questions previous (h ++ [m])
  = (answers_follow_questions previous h
     && (if String.eqb (role m) "assistant"
         then String.eqb (last (previous :: map role h) "") "user"
         else String.eqb (role m) "user"))%bool.
Proof.
  revert previous. induction h as [|a h IH]; intros previous.
  - simpl. rewrite andb_true_r. reflexivity.
  - cbn [app answers_follow_questions map]. rewrite IH, andb_assoc. reflexivity.
Qed.

(** One call of [chat], on a history that begins with the system message. *)
Lemma chat_step generate prompt rest user_input :
  answers_follow_questions "system" rest = true ->
  exists more,
    snd (chat generate (mkMessage "system" prompt :: rest) user_input)
    = mkMessage "system" prompt :: (rest ++ more)%list
    /\ answers_follow_questions "system" (rest ++ more) = true
    /\ questions_of more
       = (if is_empty (strip user_input) then [] else [user_input]).
Proof.
  intros Hok. unfold chat.
  destruct (is_empty (strip user_input)).
  { exists []. rewrite app_nil_r. auto. }
  unfold add_to_history.
  set (h1 := ((mkMessage "system" prompt :: rest) ++ [mkMessage "user" user_input])%list).
  assert (H1 : answers_follow_questions "system" (rest ++ [mkMessage "user" user_input])
               = true).
  { rewrite answers_follow_questions_app, Hok. reflexivity. }
  destruct (generate h1) as [response|e]; cbn [snd].
  - exists [mkMessage "user" user_input; mkMessage "assistant" response].
    split; [unfold h1; cbn [app]; rewrite <- app_assoc; reflexivity|].
    split; [|reflexivity].
    change (rest ++ [mkMessage "user" user_input; mkMessage "assistant" response])%list
      with (rest ++ [mkMessage "user" user_input] ++ [mkMessage "assistant" response])%list.
    rewrite app_assoc, answers_follow_questions_app, H1, map_app.
    change ("system" :: map role rest ++ map role [mkMessage "user" user_input])%list
      with (("system" :: map role rest) ++ ["user"])%list.
    rewrite last_last. reflexivity.
  - exists [mkMessage "user" user_input]. split; [reflexivity|]. split; [exact H1|reflexivity].
Qed.

Lemma questions_of_app a b : questions_of (a ++ b) = (questions_of a ++ questions_of b)%list.
Proof. unfold questions_of. rewrite filter_app, map_app. reflexivity. Qed.

Lemma chat_all_from generate prompt inputs : forall rest,
  answers_follow_questions "system" rest = true ->
  exists more,
    chat_all generate (mkMessage "system" prompt :: rest) inputs
    = mkMessage "system" prompt :: (rest ++ more)%list
    /\ answers_follow_questions "system" (rest ++ more) = true
    /\ questions_of more
       = filter (fun user_input => negb (is_empty (strip user_input))) inputs.
Proof.
  induction inputs as [|user_input inputs IH]; intros rest Hok.
  - exists []. rewrite app_nil_r. auto.
  - cbn [chat_all filter].
    destruct (chat_step generate prompt rest user_input Hok) as (m1 & -> & H1 & Q1).
    destruct (IH (rest ++ m1)%list H1) as (m2 & -> & H2 & Q2).
    exists (m1 ++ m2)%list. rewrite <- app_assoc in *. split; [reflexivity|].
    split; [exact H2|]. rewrite questions_of_app, Q1, Q2.
    destruct (is_empty (strip user_input)); reflexivity.
Qed.

(** X12.  A conversation in ASCII text with the chat agent keeps its
    history in order, whether the LLM answers or fails with an error text
    without markup: the history begins with the system message and then
    holds questions and answers only, every answer directly after a
    question; the questions are exactly the inputs that were not blank, in
    their order, also those that the LLM failed to answer, which are sent
    again with every later request. *)
Theorem chat_keeps_the_dialogue_in_order
  (generate : list Message -> Generated) (system_prompt : string)
  (inputs : list string) :
  Forall (fun user_input => is_ascii user_input = true) inputs ->
  (forall h e, generate h = GenRaised e -> no_markup e = true) ->
  exists dialogue,
    chat_all generate (ChatAgent_init system_prompt) inputs
    = mkMessage "system" system_prompt :: dialogue
    /\ answers_follow_questions "system" dialogue = true
    /\ questions_of dialogue
       = filter (fun user_input => negb (is_empty (strip user_input))) inputs.
Proof.
  intros _ _.
  destruct (chat_all_from generate system_prompt inputs [] eq_refl) as (more & H & Hok & Hq).
  exists more. auto.
Qed.

(** A question, a blank input and a question that the LLM fails to answer. *)
Lemma chat_keeps_the_dialogue_in_order_witness :
  exists dialogue,
    chat_all (fun h => if Nat.ltb (List.length h) 4 then GenText "hello"
                       else GenRaised "no answer")
      (ChatAgent_init "system prompt") ["hi"; "  "; "and now?"]
    = mkMessage "system" "system prompt" :: dialogue
    /\ answers_follow_questions "system" dialogue = true
    /\ questions_of dialogue
       = filter (fun user_input => negb (is_empty (strip user_input)))
           ["hi"; "  "; "and now?"].
Proof.
  apply (chat_keeps_the_dialogue_in_order
           (fun h => if Nat.ltb (List.length h) 4 then GenText "hello"
                     else GenRaised "no answer")
           "system prompt" ["hi"; "  "; "and now?"]).
  - repeat constructor.
  - intros h e. destruct (Nat.ltb (List.length h) 4); intros H; inversion H. reflexivity.
Defined.

(** *** Token statistics *)

Lemma generate_all_from cfg calls : forall stats,
  call_count (generate_all cfg calls stats)
  = call_count stats + Z.of_nat (List.length (usages calls))
  /\ total_prompt_tokens (generate_all cfg calls stats)
     = total_prompt_tokens stats
       + sumZ (map (fun u => int_or (prompt_tokens u) 0) (usages calls))
  /\ total_completion_tokens (generate_all cfg calls stats)
     = total_completion_tokens stats
       + sumZ (map (fun u => int_or (completion_tokens u) 0) (usages calls))
  /\ total_tokens (generate_all cfg calls stats)
     = total_tokens stats
       + sumZ (map (fun u => int_or (usage_total_tokens u) 0) (usages calls)).
Proof.
  induction calls as [|[timeout api] calls IH]; intros stats.
  - simpl. repeat split; lia.
  - change (generate_all cfg ((timeout, api) :: calls) stats)
      with (generate_all cfg calls (snd (OpenAILLM_generate cfg timeout api stats))).
    destruct (IH (snd (OpenAILLM_generate cfg timeout api stats))) as (H1 & H2 & H3 & H4).
    rewrite H1, H2, H3, H4.
    change (usages ((timeout, api) :: calls))
      with (match api with
            | ApiResponse (Some _) (Some u) => [u]
            | _ => []
            end ++ usages calls)%list.
    destruct api as [e|[content|] [u|]]; cbn [OpenAILLM_generate snd app];
      cbn [List.length map sumZ fold_right
           total_prompt_tokens total_completion_tokens total_tokens call_count];
      repeat split; unfold sumZ; lia.
Qed.

(** X13.  The token statistics count the answers and nothing else: after
    any series of requests on fresh (or reset) counters, [call_count] is
    the number of replies that had a content and a usage record, and each
    total is the sum of the matching field of these records, a missing
    field counting for zero.  A request that fails, a reply without
    content (which is raised as an error) and a reply without usage leave
    the counters as they were. *)
Theorem token_stats_count_answers_with_usage
  (cfg : Config) (calls : list (option Z * ApiOutcome)) :
  let s := generate_all cfg calls reset_token_stats in
  call_count s = Z.of_nat (List.length (usages calls))
  /\ total_prompt_tokens s = sumZ (map (fun u => int_or (prompt_tokens u) 0) (usages calls))
  /\ total_completion_tokens s
     = sumZ (map (fun u => int_or (completion_tokens u) 0) (usages calls))
  /\ total_tokens s = sumZ (map (fun u => int_or (usage_total_tokens u) 0) (usages calls))
  /\ (forall timeout api stats message,
        fst (OpenAILLM_generate cfg timeout api stats) = GenRaised message ->
        snd (OpenAILLM_generate cfg timeout api stats) = stats)
  /\ (forall timeout usage stats,
        exists message,
          fst (OpenAILLM_generate cfg timeout (ApiResponse None usage) stats)
          = GenRaised message).
Proof.
  intros s. destruct (generate_all_from cfg calls reset_token_stats) as (H1 & H2 & H3 & H4).
  fold s in H1, H2, H3, H4.
  cbn [reset_token_stats total_prompt_tokens total_completion_tokens total_tokens
       call_count] in H1, H2, H3, H4.
  rewrite Z.add_0_l in H1, H2, H3, H4.
  split; [exact H1|]. split; [exact H2|]. split; [exact H3|]. split; [exact H4|]. split.
  - intros timeout api stats message.
    destruct api as [e|[content|] usage]; cbn [OpenAILLM_generate fst snd];
      [reflexivity|discriminate|reflexivity].
  - intros timeout usage stats. cbn [OpenAILLM_generate fst].
    unfold api_error. destruct (_ || _)%bool; eexists; reflexivity.
Qed.

(** A question that the LLM failed to answer stays in the history and is
    sent again with the next one. *)
Example chat_keeps_an_unanswered_question :
  chat_all moody (ChatAgent_init "chat prompt") ["first"; "  "; "second"; "third"]
  = [ mkMessage "system" "chat prompt";
      mkMessage "user" "first"; mkMessage "assistant" "use ls";
      mkMessage "user" "second";
      mkMessage "user" "third"; mkMessage "assistant" "use ls" ].
Proof. vm_compute. reflexivity. Qed.

(** *** Control commands *)

Lemma is_command_parts user_input name :
  is_command user_input name = true ->
  startswith user_input "/" = true
  /\ exists word arg, slash_parts user_input = Some (word, arg) /\ lower word = name.
Proof.
  unfold is_command. destruct (startswith user_input "/"); [|discriminate].
  destruct (slash_parts user_input) as [[word arg]|]; [|discriminate].
  cbn [andb]. intros H. apply String.eqb_eq in H. eauto.
Qed.

Lemma create_agent_agent P cfg w app :
  exists a h,
    create_agent P cfg w app "agent" = Returns (CommandAgentObj a h)
    /\ auto_mode a = String.eqb (app_agent_mode_type app) "auto"
    /\ require_confirm a
       = (negb (String.eqb (app_agent_mode_type app) "auto")
          && confirm_wanted (app_require_confirm app))%bool
    /\ h = [mkMessage "system"
              (get_agent_system_prompt P w (String.eqb (app_agent_mode_type app) "auto"))].
Proof.
  unfold create_agent. cbn [String.eqb Ascii.eqb Bool.eqb].
  eexists _, _. split; [reflexivity|]. cbn [auto_mode require_confirm].
  split; [reflexivity|]. split; [|reflexivity].
  destruct (String.eqb (app_agent_mode_type app) "auto"); reflexivity.
Qed.

Lemma recreate_agent_agent P cfg w app result :
  exists a h,
    recreate_agent P cfg w app "agent" result
    = (result, with_agent (save_user_config app) (CommandAgentObj a h))
    /\ auto_mode a = String.eqb (app_agent_mode_type app) "auto"
    /\ require_confirm a
       = (negb (String.eqb (app_agent_mode_type app) "auto")
          && confirm_wanted (app_require_confirm app))%bool.
Proof.
  unfold recreate_agent.
  destruct (create_agent_agent P cfg w (save_user_config app)) as (a & h & -> & Ha & Hr & _).
  exists a, h. auto.
Qed.

Lemma recreate_agent_sync P cfg w app result :
  app_mode app = "agent" ->
  agent_in_sync (snd (recreate_agent P cfg w app "agent" result))
  /\ fst (recreate_agent P cfg w app "agent" result) = result
  /\ settings (snd (recreate_agent P cfg w app "agent" result)) = settings app
  /\ hd_error (saved_configs (snd (recreate_agent P cfg w app "agent" result)))
     = Some (settings app).
Proof.
  intros Hm. destruct (recreate_agent_agent P cfg w app result) as (a & h & -> & Ha & Hr).
  cbn [fst snd]. split; [|repeat split].
  split; [simpl; symmetry; exact Hm|]. simpl. auto.
Qed.

Lemma switch_mode_sync P cfg w app cmd :
  (String.eqb cmd "chat" || String.eqb cmd "agent" || String.eqb cmd "complete")%bool = true ->
  agent_in_sync app ->
  agent_in_sync (snd (switch_mode P cfg w app cmd))
  /\ (forall message, fst (switch_mode P cfg w app cmd) <> SlashRaised message)
  /\ (settings (snd (switch_mode P cfg w app cmd)) <> settings app ->
      hd_error (saved_configs (snd (switch_mode P cfg w app cmd)))
      = Some (settings (snd (switch_mode P cfg w app cmd))))
  /\ (fst (switch_mode P cfg w app cmd) = SlashSwitch
      <-> app_mode (snd (switch_mode P cfg w app cmd)) <> app_mode app)
  /\ fst (switch_mode P cfg w app cmd) <> SlashNone.
Proof.
  intros Hc Hs. unfold switch_mode.
  destruct (String.eqb cmd (app_mode app)) eqn:Hsame.
  { cbn [fst snd]. split; [exact Hs|]. split; [discriminate|]. split; [congruence|].
    split; [|discriminate]. split; [discriminate|congruence]. }
  assert (Hne : cmd <> app_mode app) by (apply String.eqb_neq, Hsame).
  unfold recreate_agent.
  destruct (String.eqb cmd "chat") eqn:H1; [apply String.eqb_eq in H1; subst cmd|].
  { cbn. split; [split; [reflexivity|exact I]|]. split; [discriminate|].
    split; [reflexivity|]. split; [|discriminate].
    split; [intros _; exact Hne|reflexivity]. }
  destruct (String.eqb cmd "agent") eqn:H2; [apply String.eqb_eq in H2; subst cmd|].
  { match goal with
    | |- context [create_agent P cfg w ?x "agent"] =>
        destruct (create_agent_agent P cfg w x) as (a & h & -> & Ha & Hr & _)
    end.
    cbn [fst snd]. split; [split; [reflexivity|simpl; auto]|].
    split; [discriminate|]. split; [reflexivity|]. split; [|discriminate].
    split; [intros _; exact Hne|reflexivity]. }
  destruct (String.eqb cmd "complete") eqn:H3; [apply String.eqb_eq in H3; subst cmd|discriminate].
  cbn. split; [split; [reflexivity|exact I]|]. split; [discriminate|].
  split; [reflexivity|]. split; [|discriminate].
  split; [intros _; exact Hne|reflexivity].
Qed.

(** X18.  The agent always is the one that belongs to the current mode and
    settings: no control command in ASCII text without markup (the two
    whose handlers stand outside the model apart) raises or leaves an
    agent of another kind, an agent whose AUTO mode differs from the
    setting, or one that asks for confirmation when the settings do not.
    No setting changes without being written to the user configuration,
    the result is [switch] exactly when the mode changed, and an input
    that is no control command changes nothing. *)
Theorem control_commands_keep_the_agent_in_sync
  (P : Program) (cfg : Config) (w : World) (app : MiniShellAgent) (user_input : string) :
  is_ascii user_input = true ->
  no_markup user_input = true ->
  agent_in_sync app ->
  is_command user_input "config" = false ->
  is_command user_input "export" = false ->
  let result := process_slash_command P cfg w app user_input in
  agent_in_sync (snd result)
  /\ (forall message, fst result <> SlashRaised message)
  /\ (settings (snd result) <> settings app ->
      hd_error (saved_configs (snd result)) = Some (settings (snd result)))
  /\ (fst result = SlashSwitch <-> app_mode (snd result) <> app_mode app)
  /\ (fst result = SlashNone -> snd result = app).
Proof.
  intros _ _ Hs Hconfig Hexport result.
  set (Q := fun result : SlashResult * MiniShellAgent =>
              agent_in_sync (snd result)
              /\ (forall message, fst result <> SlashRaised message)
              /\ (settings (snd result) <> settings app ->
                  hd_error (saved_configs (snd result)) = Some (settings (snd result)))
              /\ (fst result = SlashSwitch <-> app_mode (snd result) <> app_mode app)
              /\ (fst result = SlashNone -> snd result = app)).
  change (Q result). unfold result. clear result.
  assert (Hsame : forall r, r <> SlashSwitch -> (forall m, r <> SlashRaised m) ->
            Q (r, app)).
  { intros r Hr Hm. unfold Q. cbn [fst snd]. split; [exact Hs|]. split; [exact Hm|].
    split; [congruence|]. split; [|reflexivity]. split; [contradiction|congruence]. }
  unfold is_command in Hconfig, Hexport. unfold process_slash_command.
  destruct (startswith user_input "/"); cbn [negb andb] in *;
    [|apply Hsame; discriminate].
  destruct (slash_parts user_input) as [[word arg]|]; [|apply Hsame; discriminate].
  remember (lower word) as cmd eqn:Hcmd. clear Hcmd.
  cbv zeta beta. rewrite Hconfig, Hexport.
  destruct (String.eqb cmd "help"); [apply Hsame; discriminate|].
  assert (Hagent : forall app1,
            app_mode app1 = app_mode app ->
            Q (if negb (String.eqb (app_mode app) "agent") then (SlashHandled, app)
               else recreate_agent P cfg w app1 "agent" SlashHandled)).
  { intros app1 Hm1.
    destruct (String.eqb (app_mode app) "agent") eqn:Hm; cbn [negb];
      [|apply Hsame; discriminate].
    apply String.eqb_eq in Hm.
    destruct (recreate_agent_sync P cfg w app1 SlashHandled) as (H1 & H2 & H3 & H4);
      [congruence|].
    unfold Q. rewrite H2. split; [exact H1|]. split; [discriminate|].
    split; [intros _; rewrite H4, H3; reflexivity|]. split; [|discriminate].
    split; [discriminate|]. intros Hne. exfalso. apply Hne.
    assert (Hmm : app_mode (snd (recreate_agent P cfg w app1 "agent" SlashHandled))
                  = app_mode app1).
    { unfold settings in H3. congruence. }
    congruence. }
  destruct (String.eqb cmd "confirm"); [apply Hagent; reflexivity|].
  destruct (String.eqb cmd "auto"); [apply Hagent; reflexivity|].
  destruct (String.eqb cmd "interactive"); [apply Hagent; reflexivity|].
  destruct (String.eqb cmd "clean").
  { unfold Q. cbn [fst snd]. split.
    - destruct Hs as [Hk Ha]. unfold agent_in_sync, clean. cbn.
      destruct (app_agent app) as [h p|h p|a h]; cbn in *; auto.
    - split; [discriminate|]. split; [intros H; exfalso; apply H; reflexivity|].
      split; [|discriminate]. split; [discriminate|]. intros H. exfalso. apply H. reflexivity. }
  destruct (String.eqb cmd "chat" || String.eqb cmd "agent" || String.eqb cmd "complete")%bool
    eqn:Hmode.
  { destruct (switch_mode_sync P cfg w app cmd Hmode Hs) as (H1 & H2 & H3 & H4 & H5).
    unfold Q. split; [exact H1|]. split; [exact H2|]. split; [exact H3|]. split; [exact H4|].
    intros H. contradiction. }
  destruct (String.eqb cmd "exit").
  { unfold Q. cbn [fst snd]. split; [exact Hs|]. split; [discriminate|].
    split; [intros _; reflexivity|]. split; [|discriminate].
    split; [discriminate|]. intros H. exfalso. apply H. reflexivity. }
  apply Hsame; discriminate.
Qed.

Lemma control_commands_keep_the_agent_in_sync_witness :
  agent_in_sync (snd after_confirm_off)
  /\ (forall message, fst after_confirm_off <> SlashRaised message)
  /\ (settings (snd after_confirm_off) <> settings demo_app ->
      hd_error (saved_configs (snd after_confirm_off))
      = Some (settings (snd after_confirm_off)))
  /\ (fst after_confirm_off = SlashSwitch
      <-> app_mode (snd after_confirm_off) <> app_mode demo_app)
  /\ (fst after_confirm_off = SlashNone -> snd after_confirm_off = demo_app).
Proof.
  apply (control_commands_keep_the_agent_in_sync demo_program default_config Demo.world0
           demo_app "/confirm off").
  - reflexivity.
  - reflexivity.
  - split; [reflexivity|split; reflexivity].
  - reflexivity.
  - reflexivity.
Defined.

Lemma process_dispatch P cfg w app user_input name :
  is_command user_input name = true ->
  exists arg,
    process_slash_command P cfg w app user_input
    = (let agent_only (body : SlashResult * MiniShellAgent) :=
         if negb (String.eqb (app_mode app) "agent") then (SlashHandled, app)
         else body in
       if String.eqb name "help" then (SlashHandled, app)
       else if String.eqb name "config" then handle_config_command P app
       else if String.eqb name "confirm" then
         agent_only
           (let on_off :=
              match arg with
              | Some a => (String.eqb (lower a) "on" || String.eqb (lower a) "off")%bool
              | None => false
              end in
            let require_confirm :=
              if on_off
              then String.eqb (lower (match arg with Some a => a | None => "" end)) "on"
              else negb (confirm_wanted (app_require_confirm app)) in
            recreate_agent P cfg w
              (with_settings app (app_agent_mode_type app) (Some require_confirm))
              "agent" SlashHandled)
       else if String.eqb name "auto" then
         agent_only
           (recreate_agent P cfg w (with_settings app "auto" (Some false))
              "agent" SlashHandled)
       else if String.eqb name "interactive" then
         agent_only
           (let require_confirm :=
              match app_require_confirm app with
              | None => Some true
              | Some b => Some b
              end in
            recreate_agent P cfg w (with_settings app "interactive" require_confirm)
              "agent" SlashHandled)
       else if String.eqb name "clean" then (SlashHandled, clean P w app)
       else if String.eqb name "export" then handle_export_command P app arg
       else if (String.eqb name "chat" || String.eqb name "agent"
                || String.eqb name "complete")%bool
       then switch_mode P cfg w app name
       else if String.eqb name "exit" then (SlashExit, save_user_config app)
       else (SlashHandled, app)).
Proof.
  intros H. apply is_command_parts in H. destruct H as (Hs & word & arg & Hp & Hl).
  exists arg. unfold process_slash_command. rewrite Hs, Hp, Hl. reflexivity.
Qed.

(** X16.  [/clean], in any spelling and in every mode, starts the
    conversation over: the history is one system message, the token
    statistics are zero, and mode, settings and kind of agent stay.  The
    system message, and the prompt of the agent, is the prompt of the
    interactive command agent whatever the agent is: a chat agent sends it
    with its next request (a question in ASCII text that is not blank,
    which the LLM answers or fails with an error text without markup) in
    place of the chat prompt, and an agent in AUTO mode stays in AUTO mode
    with it. *)
Theorem clean_restarts_with_the_interactive_prompt
  (P : Program) (cfg : Config) (w : World) (app : MiniShellAgent) (user_input : string) :
  is_command user_input "clean" = true ->
  let result := process_slash_command P cfg w app user_input in
  let prompt := get_agent_system_prompt P w false in
  fst result = SlashHandled
  /\ agent_history (app_agent (snd result)) = [mkMessage "system" prompt]
  /\ agent_system_prompt (app_agent (snd result)) = prompt
  /\ agent_kind (app_agent (snd result)) = agent_kind (app_agent app)
  /\ llm_stats (snd result) = reset_token_stats
  /\ settings (snd result) = settings app
  /\ saved_configs (snd result) = saved_configs app
  /\ (forall a h, app_agent app = CommandAgentObj a h ->
        exists a', app_agent (snd result) = CommandAgentObj a' [mkMessage "system" prompt]
                   /\ auto_mode a' = auto_mode a
                   /\ require_confirm a' = require_confirm a
                   /\ max_steps a' = max_steps a
                   /\ tool a' = tool a)
  /\ (forall generate question,
        is_ascii question = true ->
        (forall h e, generate h = GenRaised e -> no_markup e = true) ->
        is_empty (strip question) = false ->
        agent_kind (app_agent app) = "chat" ->
        exists reply more,
          chat generate (agent_history (app_agent (snd result))) question
          = (reply, mkMessage "system" prompt :: mkMessage "user" question :: more)).
Proof.
  intros H. destruct (process_dispatch P cfg w app user_input "clean" H) as (arg & Hp).
  cbv zeta. rewrite Hp. cbn [String.eqb Ascii.eqb Bool.eqb fst snd].
  split; [reflexivity|]. unfold clean. cbn [app_agent llm_stats settings app_mode
    app_agent_mode_type app_require_confirm saved_configs].
  destruct (app_agent app) as [h p|h p|a h];
    (split; [reflexivity|]); (split; [reflexivity|]); (split; [reflexivity|]);
    (split; [reflexivity|]); (split; [reflexivity|]); (split; [reflexivity|]);
    (split; [intros a0 h0 Ha; try discriminate|]).
  - intros generate question _ _ Hq Hk. discriminate.
  - intros generate question _ _ Hq _. unfold chat. rewrite Hq.
    cbn [agent_history add_to_history List.app].
    destruct (generate _); eexists _, _; reflexivity.
  - inversion Ha; subst. eexists. split; [reflexivity|]. auto.
  - intros generate question _ _ Hq Hk. discriminate.
Qed.

Lemma clean_restarts_with_the_interactive_prompt_witness :
  fst after_clean = SlashHandled
  /\ agent_history (app_agent (snd after_clean)) = [mkMessage "system" "interactive prompt"]
  /\ agent_system_prompt (app_agent (snd after_clean)) = "interactive prompt"
  /\ agent_kind (app_agent (snd after_clean)) = agent_kind (app_agent demo_app)
  /\ llm_stats (snd after_clean) = reset_token_stats
  /\ settings (snd after_clean) = settings demo_app
  /\ saved_configs (snd after_clean) = saved_configs demo_app
  /\ (forall a h, app_agent demo_app = CommandAgentObj a h ->
        exists a', app_agent (snd after_clean)
                   = CommandAgentObj a' [mkMessage "system" "interactive prompt"]
                   /\ auto_mode a' = auto_mode a
                   /\ require_confirm a' = require_confirm a
                   /\ max_steps a' = max_steps a
                   /\ tool a' = tool a)
  /\ (forall generate question,
        is_ascii question = true ->
        (forall h e, generate h = GenRaised e -> no_markup e = true) ->
        is_empty (strip question) = false ->
        agent_kind (app_agent demo_app) = "chat" ->
        exists reply more,
          chat generate (agent_history (app_agent (snd after_clean))) question
          = (reply, mkMessage "system" "interactive prompt"
                    :: mkMessage "user" question :: more)).
Proof.
  apply (clean_restarts_with_the_interactive_prompt demo_program default_config Demo.world0
           demo_app "/Clean").
  reflexivity.
Defined.

(** X17.  Going to AUTO mode and back switches confirmation off for good:
    [/auto] sets [require_confirm] to False, and [/interactive] sets it
    back to True only when it is [None].  So after the two commands the
    agent is interactive and runs ordinary commands without asking, until
    [/confirm] is used. *)
Theorem auto_and_back_leaves_confirmation_off
  (P : Program) (cfg : Config) (w1 w2 : World) (app : MiniShellAgent)
  (to_auto to_interactive : string) :
  app_mode app = "agent" ->
  is_command to_auto "auto" = true ->
  is_command to_interactive "interactive" = true ->
  let app1 := snd (process_slash_command P cfg w1 app to_auto) in
  let app2 := snd (process_slash_command P cfg w2 app1 to_interactive) in
  (exists a h, app_agent app1 = CommandAgentObj a h
               /\ auto_mode a = true /\ require_confirm a = false)
  /\ app_agent_mode_type app2 = "interactive"
  /\ app_require_confirm app2 = Some false
  /\ (exists a h, app_agent app2 = CommandAgentObj a h
                  /\ auto_mode a = false /\ require_confirm a = false).
Proof.
  intros Hm H1 H2.
  destruct (process_dispatch P cfg w1 app to_auto "auto" H1) as (arg1 & Hp1).
  cbv zeta. rewrite Hp1. cbn [String.eqb Ascii.eqb Bool.eqb]. rewrite Hm.
  cbn [String.eqb Ascii.eqb Bool.eqb negb].
  destruct (recreate_agent_agent P cfg w1 (with_settings app "auto" (Some false))
              SlashHandled) as (a1 & h1 & -> & Ha1 & Hr1).
  cbn [snd].
  match goal with
  | |- context [process_slash_command P cfg w2 ?x to_interactive] => set (app1 := x)
  end.
  destruct (process_dispatch P cfg w2 app1 to_interactive "interactive" H2) as (arg2 & Hp2).
  rewrite Hp2. cbn [String.eqb Ascii.eqb Bool.eqb].
  assert (Hm1 : app_mode app1 = "agent") by exact Hm. rewrite Hm1.
  cbn [String.eqb Ascii.eqb Bool.eqb negb].
  assert (Hrc : app_require_confirm app1 = Some false) by reflexivity. rewrite Hrc.
  destruct (recreate_agent_agent P cfg w2 (with_settings app1 "interactive" (Some false))
              SlashHandled) as (a2 & h2 & -> & Ha2 & Hr2).
  cbn [snd]. split.
  - exists a1, h1. split; [reflexivity|]. split; [exact Ha1|]. rewrite Hr1. reflexivity.
  - split; [reflexivity|]. split; [reflexivity|].
    exists a2, h2. split; [reflexivity|]. split; [exact Ha2|]. rewrite Hr2. reflexivity.
Qed.

Lemma auto_and_back_leaves_confirmation_off_witness :
  (exists a h,
      app_agent (snd (process_slash_command demo_program default_config Demo.world0
                        demo_app "/auto"))
      = CommandAgentObj a h
      /\ auto_mode a = true /\ require_confirm a = false)
  /\ app_agent_mode_type
       (snd (process_slash_command demo_program default_config Demo.world0
               (snd (process_slash_command demo_program default_config Demo.world0
                       demo_app "/auto"))
               "/interactive"))
     = "interactive"
  /\ app_require_confirm
       (snd (process_slash_command demo_program default_config Demo.world0
               (snd (process_slash_command demo_program default_config Demo.world0
                       demo_app "/auto"))
               "/interactive"))
     = Some false
  /\ (exists a h,
        app_agent
          (snd (process_slash_command demo_program default_config Demo.world0
                  (snd (process_slash_command demo_program default_config Demo.world0
                          demo_app "/auto"))
                  "/interactive"))
        = CommandAgentObj a h
        /\ auto_mode a = false /\ require_confirm a = false).
Proof.
  apply (auto_and_back_leaves_confirmation_off demo_program default_config
           Demo.world0 Demo.world0 demo_app "/auto" "/interactive");
    reflexivity.
Defined.

(** *** Choosing an option *)

Lemma option_value_in_range {V : Type} (options : list (string * V)) (i : Z) :
  0 <= i < Z.of_nat (List.length options) ->
  exists v, option_value options i = Chosen v /\ In v (map snd options).
Proof.
  intros Hi. unfold option_value, py_index.
  assert (H1 : ((0 <=? i) && (i <? Z.of_nat (List.length options)))%bool = true).
  { apply andb_true_iff. split; [apply Z.leb_le|apply Z.ltb_lt]; lia. }
  rewrite H1.
  destruct (nth_error options (Z.to_nat i)) as [[t v]|] eqn:Hn.
  - exists v. split; [reflexivity|]. apply nth_error_In in Hn.
    apply (in_map snd) in Hn. exact Hn.
  - apply nth_error_None in Hn. lia.
Qed.

Lemma select_loop_ok {V : Type} (options : list (string * V)) (d : Z)
  (allow_input : bool) (typed : option string) (keys : list Key) :
  0 <= d < Z.of_nat (List.length options) ->
  forall current_index,
    0 <= current_index < Z.of_nat (List.length options) ->
    match select_loop options d allow_input typed current_index keys with
    | Chosen v => In v (map snd options)
    | Typed t => allow_input = true
                 /\ exists u, typed = Some u /\ t = strip u /\ t <> ""
    | IndexError => False
    | Interrupted => False
    | Waiting => True
    end.
Proof.
  intros Hd. induction keys as [|key keys IH]; intros cur Hc; [exact I|].
  assert (Hval : forall i, 0 <= i < Z.of_nat (List.length options) ->
            match option_value options i with
            | Chosen v => In v (map snd options)
            | Typed t => allow_input = true
                         /\ exists u, typed = Some u /\ t = strip u /\ t <> ""
            | IndexError => False
            | Interrupted => False
            | Waiting => True
            end).
  { intros i Hi. destruct (option_value_in_range options i Hi) as (v & -> & Hv). exact Hv. }
  destruct key; cbn [select_loop].
  - apply IH. destruct (0 <? cur) eqn:H; [apply Z.ltb_lt in H|]; lia.
  - apply IH.
    destruct (cur <? Z.of_nat (List.length options) - 1) eqn:H; [apply Z.ltb_lt in H|]; lia.
  - destruct allow_input; cbn [andb]; [|apply Hval, Hc].
    destruct (cur =? Z.of_nat (List.length options) - 1); [|apply Hval, Hc].
    destruct typed as [u|]; [|apply Hval, Hd].
    destruct (is_empty u); cbn [negb andb]; [apply Hval; lia|].
    destruct (is_empty (strip u)) eqn:He; cbn [negb]; [apply Hval; lia|].
    split; [reflexivity|]. exists u. split; [reflexivity|]. split; [reflexivity|].
    intros Hs. rewrite Hs in He. discriminate.
  - destruct (is_digit c); [|apply IH, Hc].
    destruct ((0 <=? digit_value c - 1)
              && (digit_value c - 1 <? Z.of_nat (List.length options)))%bool eqn:Hr;
      [|apply IH, Hc].
    apply andb_true_iff in Hr. destruct Hr as [H1 H2].
    apply Z.leb_le in H1. apply Z.ltb_lt in H2. apply Hval. lia.
  - apply IH, Hc.
  - apply Hval, Hd.
Qed.

Lemma first_four {A : Type} (l : list A) :
  (if Nat.ltb 4 (List.length l) then firstn 4 l else l) = firstn 4 l.
Proof.
  destruct (Nat.ltb 4 (List.length l)) eqn:H; [reflexivity|].
  apply Nat.ltb_ge in H. symmetry. apply firstn_all2. exact H.
Qed.

(** X14.  [select_option] answers with one of the options it shows, when
    the message and the texts of the options hold no markup and what the
    user enters is ASCII text (keys, typed text, and a line short enough
    to be read as a number): whenever the default index points at one of
    the first four options, the call raises no [IndexError], and the value
    it returns is the value of one of the first four options, whatever
    keys are pressed (arrows never leave the list, digits out of range are
    ignored, and an interrupt gives the default).  The only other answer
    is the text that the user typed, stripped and not empty, which needs
    [allow_custom_input] and at least two options.  Without
    prompt_toolkit the call ends at once, by an answer or by the
    exception of [input]. *)
Theorem select_option_gives_one_of_the_options {V : Type}
  (has_pt : bool) (message : string) (options : list (string * V)) (default_index : Z)
  (allow_custom_input : bool) (line typed : option string) (keys : list Key) :
  no_markup message = true ->
  Forall (fun o => no_markup (fst o) = true) options ->
  short_ascii line ->
  match typed with Some text => is_ascii text = true | None => True end ->
  Forall (fun key => ascii_key key = true) keys ->
  0 <= default_index < Z.of_nat (Nat.min 4 (List.length options)) ->
  match select_option has_pt message options default_index allow_custom_input
          line typed keys with
  | Chosen v => In v (map snd (firstn 4 options))
  | Typed t =>
      has_pt = true /\ allow_custom_input = true /\ (2 <= List.length options)%nat
      /\ exists u, typed = Some u /\ t = strip u /\ t <> ""
  | IndexError => False
  | Interrupted => has_pt = false /\ line = None
  | Waiting => has_pt = true
  end.
Proof.
  intros _ _ _ _ _ Hd. unfold select_option. rewrite first_four.
  assert (Hlen : List.length (firstn 4 options) = Nat.min 4 (List.length options))
    by apply length_firstn.
  rewrite <- Hlen in Hd.
  destruct has_pt; cbn [negb].
  - pose proof (select_loop_ok (firstn 4 options) default_index
                  (allow_custom_input && Nat.leb 2 (List.length (firstn 4 options)))
                  typed keys Hd default_index Hd) as H.
    destruct (select_loop _ _ _ _ _ _) as [v|t| | |];
      [exact H| |exact H|destruct H|reflexivity].
    destruct H as (Ha & u & Hu). apply andb_true_iff in Ha. destruct Ha as [Ha Hl].
    apply Nat.leb_le in Hl. rewrite Hlen in Hl.
    split; [reflexivity|]. split; [exact Ha|]. split; [lia|]. exists u. exact Hu.
  - destruct line as [text|]; [|auto].
    match goal with
    | |- context [if ?b then _ else _] => destruct b eqn:Hb
    end.
    + apply andb_true_iff in Hb. destruct Hb as [Hb H2].
      apply andb_true_iff in Hb. destruct Hb as [_ H1].
      apply Z.leb_le in H1. apply Z.ltb_lt in H2.
      destruct (option_value_in_range (firstn 4 options) _ (conj H1 H2)) as (v & -> & Hv).
      exact Hv.
    + destruct (option_value_in_range (firstn 4 options) _ Hd) as (v & -> & Hv). exact Hv.
Qed.

Lemma select_option_gives_one_of_the_options_witness :
  match select_option true "Which one?"
          [("one", 1); ("two", 2); ("three", 3); ("four", 4); ("five", 5)]
          0 true None (Some " my own ")
          [KeyDown; KeyDown; KeyDown; KeyDown; KeyChar "5"; KeyEnter] with
  | Chosen v => In v (map snd (firstn 4 [("one", 1); ("two", 2); ("three", 3);
                                          ("four", 4); ("five", 5)]))
  | Typed t =>
      true = true /\ true = true
      /\ (2 <= List.length [("one", 1); ("two", 2); ("three", 3); ("four", 4);
                            ("five", 5)])%nat
      /\ exists u, Some " my own " = Some u /\ t = strip u /\ t <> ""
  | IndexError => False
  | Interrupted => true = false /\ @None string = None
  | Waiting => true = true
  end.
Proof.
  apply (select_option_gives_one_of_the_options true "Which one?"
           [("one", 1); ("two", 2); ("three", 3); ("four", 4); ("five", 5)]
           0 true None (Some " my own ")
           [KeyDown; KeyDown; KeyDown; KeyDown; KeyChar "5"; KeyEnter]).
  - reflexivity.
  - repeat constructor.
  - exact I.
  - reflexivity.
  - repeat constructor.
  - simpl. lia.
Defined.

Lemma digit_value_one c : digit_value c = 1 -> c = "1"%char.
Proof.
  unfold digit_value. intros H.
  assert (Hn : nat_of_ascii c = 49%nat) by lia.
  rewrite <- (ascii_nat_embedding c), Hn. reflexivity.
Qed.

Lemma digit_value_two c : digit_value c = 2 -> c = "2"%char.
Proof.
  unfold digit_value. intros H.
  assert (Hn : nat_of_ascii c = 50%nat) by lia.
  rewrite <- (ascii_nat_embedding c), Hn. reflexivity.
Qed.

Lemma confirm_loop (default : bool) (keys : list Key) :
  let options := [("是", true); ("否", false)] in
  let d := if default then 0 else 1 in
  select_loop options d false None d keys = Chosen (negb default) ->
  In (if default then KeyDown else KeyUp) keys
  \/ In (KeyChar (if default then "2" else "1")%char) keys.
Proof.
  intros options d. induction keys as [|key keys IH]; [discriminate|].
  assert (Hd : option_value options d = Chosen default).
  { unfold d. destruct default; reflexivity. }
  destruct key; cbn [select_loop andb];
    change (Z.of_nat (List.length options)) with 2.
  - destruct default; [|left; left; reflexivity].
    intros H. destruct (IH H) as [Hi|Hi]; [left|right]; right; exact Hi.
  - destruct default; [left; left; reflexivity|].
    intros H. destruct (IH H) as [Hi|Hi]; [left|right]; right; exact Hi.
  - rewrite Hd. intros H. inversion H. destruct default; discriminate.
  - destruct (is_digit c).
    + destruct ((0 <=? digit_value c - 1) && (digit_value c - 1 <? 2))%bool eqn:Hr.
      * apply andb_true_iff in Hr. destruct Hr as [H1 H2].
        apply Z.leb_le in H1. apply Z.ltb_lt in H2.
        assert (Hc : digit_value c = 1 \/ digit_value c = 2) by lia.
        destruct Hc as [Hc|Hc]; rewrite Hc; cbn.
        -- intros H. inversion H. destruct default; [discriminate|].
           right. left. f_equal. apply digit_value_one, Hc.
        -- intros H. inversion H. destruct default; [|discriminate].
           right. left. f_equal. apply digit_value_two, Hc.
      * intros H. destruct (IH H) as [Hi|Hi]; [left|right]; right; exact Hi.
    + intros H. destruct (IH H) as [Hi|Hi]; [left|right]; right; exact Hi.
  - intros H. destruct (IH H) as [Hi|Hi]; [left|right]; right; exact Hi.
  - rewrite Hd. intros H. inversion H. destruct default; discriminate.
Qed.

(** X15.  When what the user enters is ASCII text, [confirm] gives the
    answer that is not its default only on a deliberate key: with
    prompt_toolkit, the arrow that leads to the other option or its digit
    (for a question whose default is no, as the ones about sudo and
    high-risk commands: the up arrow or the digit 1) must have been
    pressed; the return key alone, other characters and an interrupt give
    the default.  Without prompt_toolkit, the line read must be the number
    of the other option. *)
Theorem confirm_needs_a_deliberate_key
  (has_pt : bool) (message : string) (default : bool) (line : option string)
  (keys : list Key) :
  short_ascii line ->
  Forall (fun key => ascii_key key = true) keys ->
  UI_confirm has_pt message default line keys = Chosen (negb default) ->
  if has_pt then
    In (if default then KeyDown else KeyUp) keys
    \/ In (KeyChar (if default then "2" else "1")%char) keys
  else
    exists text,
      line = Some text /\ isdigit (strip text) = true
      /\ int_of_digits (strip text) = (if default then 2 else 1).
Proof.
  intros _ _. unfold UI_confirm, select_option.
  destruct has_pt; cbn [negb List.length Nat.ltb Nat.leb andb].
  - intros H. apply (confirm_loop default keys). destruct default; exact H.
  - destruct line as [text|]; [|destruct default; discriminate].
    intros H. exists text. split; [reflexivity|].
    destruct (isdigit (strip text)); cbn [andb] in H;
      [|destruct default; cbn in H; inversion H].
    split; [reflexivity|].
    destruct default; cbn [Z.of_nat Pos.of_succ_nat Pos.succ] in H.
    + destruct ((0 <=? int_of_digits (strip text) - 1)
                && (int_of_digits (strip text) - 1 <? 2))%bool eqn:Hr;
        [|cbn in H; inversion H].
      apply andb_true_iff in Hr. destruct Hr as [H1 H2].
      apply Z.leb_le in H1. apply Z.ltb_lt in H2.
      assert (Hc : int_of_digits (strip text) - 1 = 0 \/ int_of_digits (strip text) - 1 = 1)
        by lia.
      destruct Hc as [Hc|Hc]; [rewrite Hc in H; cbn in H; inversion H|lia].
    + destruct ((0 <=? int_of_digits (strip text) - 1)
                && (int_of_digits (strip text) - 1 <? 2))%bool eqn:Hr;
        [|cbn in H; inversion H].
      apply andb_true_iff in Hr. destruct Hr as [H1 H2].
      apply Z.leb_le in H1. apply Z.ltb_lt in H2.
      assert (Hc : int_of_digits (strip text) - 1 = 0 \/ int_of_digits (strip text) - 1 = 1)
        by lia.
      destruct Hc as [Hc|Hc]; [lia|rewrite Hc in H; cbn in H; inversion H].
Qed.

Lemma confirm_needs_a_deliberate_key_witness :
  In KeyUp [KeyNone; KeyChar "x"; KeyUp; KeyEnter]
  \/ In (KeyChar "1") [KeyNone; KeyChar "x"; KeyUp; KeyEnter].
Proof.
  apply (confirm_needs_a_deliberate_key true "Run it?" false None
           [KeyNone; KeyChar "x"; KeyUp; KeyEnter]).
  - exact I.
  - repeat constructor.
  - reflexivity.
Defined.

(** *** The state file *)

Lemma append_assoc (a b c : string) : (a ++ b) ++ c = a ++ (b ++ c).
Proof. induction a as [|x a IH]; simpl; [reflexivity|rewrite IH; reflexivity]. Qed.

Lemma append_nil_r (a : string) : a ++ "" = a.
Proof. induction a as [|x a IH]; simpl; [reflexivity|rewrite IH; reflexivity]. Qed.



















Lemma export_line_body key value :
  export_line key value
  = ("export " ++ key ++ "='" ++ escape_quotes value ++ "'") ++ newline ++ "".
Proof. unfold export_line. rewrite !append_assoc, append_nil_r. reflexivity. Qed.









(** A value with a single quote comes back with the text of its escape. *)
Example state_file_changes_a_quoted_value :
  exports_of (readlines (init_state_text "/home/user" [("MSG", "it's")]))
  = [("MSG", "it'" ++ String dquote "'" ++ String dquote "'s")].
Proof. vm_compute. reflexivity. Qed.

(** *** An LLM that keeps failing *)

Lemma iteration_failed E cfg agent st w :
  llm_failed (llm_generate E w (history st)) = true ->
  exists f,
    iteration E cfg agent st w
    = count_idle agent
        (mkLoop (history st) (steps st) (current_step st + 1) (idle_steps st))
        (log EvLLM w) f
    /\ forall s, r_success (f s) = false /\ r_steps (f s) = Some (steps s).
Proof.
  unfold iteration, llm_failed. cbn [history steps current_step idle_steps].
  destruct (llm_generate E w (history st)) as [e| |response]; intros H.
  - exists (fun s => failed_with_error s ("LLM call failed: " ++ e)).
    split; [reflexivity|]. intros s. split; reflexivity.
  - exists (fun s => failed_with_summary s summary_none).
    split; [reflexivity|]. intros s. split; reflexivity.
  - rewrite H. exists (fun s => failed_with_summary s summary_blank).
    split; [reflexivity|]. intros s. split; reflexivity.
Qed.

Lemma run_loop_failing E cfg agent :
  (forall w h, llm_failed (llm_generate E w h) = true) ->
  forall (k : nat) fuel st w,
    idle_steps st + Z.of_nat (S k) = max_idle_steps agent ->
    0 <= idle_steps st ->
    current_step st + Z.of_nat (S k) <= max_steps agent ->
    (S k < fuel)%nat ->
    exists r st' w',
      run_loop fuel E cfg agent st w = Some (r, st', w')
      /\ r_success r = false
      /\ r_steps r = Some (steps st)
      /\ history st' = history st
      /\ steps st' = steps st
      /\ current_step st' = current_step st + Z.of_nat (S k)
      /\ idle_steps st' = max_idle_steps agent
      /\ trace w' = (List.repeat EvLLM (S k) ++ trace w)%list.
Proof.
  intros Hfail. induction k as [|k IH]; intros fuel st w Hi H0 Hc Hf.
  - destruct fuel as [|fuel]; [lia|]. cbn [run_loop].
    assert (Hlt : (current_step st <? max_steps agent) = true) by (apply Z.ltb_lt; lia).
    rewrite Hlt.
    destruct (iteration_failed E cfg agent st w (Hfail _ _)) as (f & -> & Hfs).
    unfold count_idle. cbn [idle_steps history steps current_step].
    assert (Hge : (idle_steps st + 1 >=? max_idle_steps agent) = true)
      by (apply Z.geb_le; lia).
    rewrite Hge. eexists _, _, _. split; [reflexivity|].
    destruct (Hfs (mkLoop (history st) (steps st) (current_step st + 1) (idle_steps st + 1)))
      as [H1 H2].
    cbn [history steps current_step idle_steps]. repeat split; auto; lia.
  - destruct fuel as [|fuel]; [lia|]. cbn [run_loop].
    assert (Hlt : (current_step st <? max_steps agent) = true) by (apply Z.ltb_lt; lia).
    rewrite Hlt.
    destruct (iteration_failed E cfg agent st w (Hfail _ _)) as (f & -> & Hfs).
    unfold count_idle. cbn [idle_steps history steps current_step].
    assert (Hge : (idle_steps st + 1 >=? max_idle_steps agent) = false).
    { destruct (idle_steps st + 1 >=? max_idle_steps agent) eqn:H; [|reflexivity].
      apply Z.geb_le in H. lia. }
    rewrite Hge.
    destruct (IH fuel
                (mkLoop (history st) (steps st) (current_step st + 1) (idle_steps st + 1))
                (log EvLLM w))
      as (r & st' & w' & Hr & H1 & H2 & H3 & H4 & H5 & H6 & H7);
      cbn [history steps current_step idle_steps]; try lia.
    exists r, st', w'. split; [exact Hr|].
    cbn [history steps current_step idle_steps] in *.
    repeat split; auto; try lia.
    rewrite H7. cbn [log trace].
    change (List.repeat EvLLM (S (S k))) with (EvLLM :: List.repeat EvLLM (S k)).
    rewrite (repeat_cons (S k) EvLLM), <- app_assoc. reflexivity.
Qed.

(** X20.  An LLM that keeps failing (it raises, times out, or gives
    nothing but ASCII white space) ends the run by the idle counter, when
    its error texts hold no markup and [Config.VERBOSE] is off: when
    [max_idle_steps] is at least one and at most [max_steps], the run makes
    exactly [max_idle_steps] passes, each with one call to the LLM, records
    no step, adds nothing to the conversation but the task prompt, and
    returns without success. *)
Theorem failing_llm_ends_the_run_after_max_idle_steps
  (E : Env) (cfg : Config) (agent : CommandAgent) (hist : list Message)
  (task : string) (w : World) :
  VERBOSE cfg = false ->
  printable_errors E ->
  (forall w h, llm_failed (llm_generate E w h) = true) ->
  is_empty task = false ->
  1 <= max_idle_steps agent <= max_steps agent ->
  exists r st' w',
    run E cfg agent hist (Some task) false w = Some (r, st', w')
    /\ r_success r = false
    /\ r_steps r = Some []
    /\ history st' = add_to_history hist "user" (AGENT_USER_TEMPLATE task)
    /\ current_step st' = max_idle_steps agent
    /\ trace w' = (List.repeat EvLLM (Z.to_nat (max_idle_steps agent)) ++ trace w)%list.
Proof.
  intros _ _ Hfail Ht Hm. unfold run, run_entry. rewrite Ht. cbn [negb andb].
  destruct (run_loop_failing E cfg agent Hfail
              (Nat.pred (Z.to_nat (max_idle_steps agent))) (S (budget agent))
              (mkLoop (add_to_history hist "user" (AGENT_USER_TEMPLATE task)) [] 0 0) w)
    as (r & st' & w' & Hr & H1 & H2 & H3 & H4 & H5 & H6 & H7);
    cbn [idle_steps current_step]; unfold budget; try lia.
  exists r, st', w'. split; [exact Hr|]. cbn [history steps current_step] in *.
  split; [exact H1|]. split; [exact H2|]. split; [exact H3|]. split; [lia|].
  rewrite H7. f_equal. f_equal. lia.
Qed.

Lemma failing_llm_ends_the_run_after_max_idle_steps_witness :
  exists r st' w',
    run (quiet_env true) default_config Demo.auto_agent Demo.history0
        (Some "task") false Demo.world0 = Some (r, st', w')
    /\ r_success r = false
    /\ r_steps r = Some []
    /\ history st' = add_to_history Demo.history0 "user" (AGENT_USER_TEMPLATE "task")
    /\ current_step st' = max_idle_steps Demo.auto_agent
    /\ trace w' = (List.repeat EvLLM (Z.to_nat (max_idle_steps Demo.auto_agent))
                   ++ trace Demo.world0)%list.
Proof.
  apply (failing_llm_ends_the_run_after_max_idle_steps (quiet_env true) default_config
           Demo.auto_agent Demo.history0 "task" Demo.world0).
  - reflexivity.
  - intros w h e H. discriminate H.
  - intros w h. reflexivity.
  - reflexivity.
  - simpl. lia.
Defined.


(** *** The working directory *)

Lemma chdir_cwd E p w :
  is_empty p = false -> os_path_isdir E w p = true ->
  os_cwd (chdir E p w) = os_cwd w \/ entered E (os_cwd (chdir E p w)).
Proof.
  intros Hp Hd. unfold chdir. destruct (os_chdir_ok E w p) eqn:Hc; [|left; reflexivity].
  right. split; [exact Hp|]. exists w. split; [exact Hd|exact Hc].
Qed.

Lemma execute_fallback_cwd E c w :
  (os_cwd (snd (execute_fallback E c w)) = os_cwd w
   \/ entered E (os_cwd (snd (execute_fallback E c w))))
  /\ (is_directory_change c = true ->
      fst (fst (fst (execute_fallback E c w))) = false ->
      os_cwd (snd (execute_fallback E c w)) = os_cwd w).
Proof.
  unfold execute_fallback. fold (is_directory_change c).
  destruct (is_directory_change c).
  - unfold run_subprocess.
    destruct (subprocess_run E w (c ++ " && pwd")) as [rcode out err| |e];
      [|split; [left|intros _ _]; reflexivity|split; [left|intros _ _]; reflexivity].
    destruct (rcode =? 0); [|split; [left|intros _ _]; reflexivity].
    cbn [fst snd]. split; [|discriminate].
    match goal with
    | |- context [if ?b then chdir E ?p ?w1 else _] =>
        destruct b eqn:Hb; [|left; reflexivity]
    end.
    apply andb_true_iff in Hb. destruct Hb as [Hne Hd].
    apply negb_true_iff in Hne.
    match goal with
    | |- context [chdir E ?p ?w1] => destruct (chdir_cwd E p w1 Hne Hd) as [H|H]
    end; [left; exact H|right; exact H].
  - split; [|discriminate]. unfold run_subprocess.
    destruct (subprocess_run E w c) as [rcode out err| |e];
      [|left; reflexivity|left; reflexivity].
    cbn [fst snd].
    match goal with
    | |- context [subprocess_run E ?w1 "pwd"] =>
        destruct (subprocess_run E w1 "pwd") as [rc2 out2 err2| |e2];
          [|left; reflexivity|left; reflexivity]
    end.
    match goal with
    | |- context [if ?b then chdir E ?p ?w1 else _] =>
        destruct b eqn:Hb; [|left; reflexivity]
    end.
    apply andb_true_iff in Hb. destruct Hb as [Hb _].
    apply andb_true_iff in Hb. destruct Hb as [Hb Hd].
    apply andb_true_iff in Hb. destruct Hb as [_ Hne].
    apply negb_true_iff in Hne.
    match goal with
    | |- context [chdir E ?p ?w1] => destruct (chdir_cwd E p w1 Hne Hd) as [H|H]
    end; [left; exact H|right; exact H].
Qed.

(** X21.  Through a tool without persistent shell, as the agent's, the
    working directory of the process moves only into a directory: after
    any call of [execute] it is the one before, or a path that is not
    empty, that [os.path.isdir] took for a directory and that [os.chdir]
    accepted.  It stays in place when the command is refused or
    cancelled, and when a directory change ([cd], [pushd], [popd]) fails. *)
Theorem execute_moves_only_into_directories
  (E : Env) (cfg : Config) (tl : TerminalTool) (c : string) (rc : bool) (w : World) :
  use_persistent_shell tl = false ->
  (os_cwd (snd (execute E cfg tl c rc w)) = os_cwd w
   \/ entered E (os_cwd (snd (execute E cfg tl c rc w))))
  /\ (is_directory_change c = true ->
      fst (fst (fst (execute E cfg tl c rc w))) = false ->
      os_cwd (snd (execute E cfg tl c rc w)) = os_cwd w)
  /\ (~ In (EvShell c) (trace (snd (execute E cfg tl c rc w))) ->
      os_cwd (snd (execute E cfg tl c rc w)) = os_cwd w).
Proof.
  intros Hp.
  assert (Hstay : forall r w1, os_cwd w1 = os_cwd w ->
            (os_cwd (snd (r, w1)) = os_cwd w \/ entered E (os_cwd (snd (r : ExecResult, w1))))
            /\ (is_directory_change c = true -> fst (fst (fst (r, w1))) = false ->
                os_cwd (snd (r, w1)) = os_cwd w)
            /\ (~ In (EvShell c) (trace (snd (r, w1))) -> os_cwd (snd (r, w1)) = os_cwd w)).
  { intros r w1 H. cbn [snd]. auto. }
  unfold execute.
  destruct (_ && _)%bool; [apply Hstay; reflexivity|].
  destruct (validate_command cfg tl c) as [is_valid msg].
  destruct is_valid; cbn [negb]; [|apply Hstay; reflexivity].
  destruct (ask E _ prompt_sudo false w) as [sudo_ok w1] eqn:H1.
  apply ask_trace in H1. destruct H1 as (_ & _ & C1 & _).
  destruct sudo_ok; cbn [negb]; [|apply Hstay; exact C1].
  destruct (ask E _ prompt_high_risk false w1) as [risk_ok w2] eqn:H2.
  apply ask_trace in H2. destruct H2 as (_ & _ & C2 & _).
  destruct risk_ok; cbn [negb]; [|apply Hstay; congruence].
  destruct (ask E _ prompt_normal true w2) as [normal_ok w3] eqn:H3.
  apply ask_trace in H3. destruct H3 as (_ & _ & C3 & _).
  destruct normal_ok; cbn [negb]; [|apply Hstay; congruence].
  assert (C : os_cwd (log (EvShell c) w3) = os_cwd w) by (cbn; congruence).
  unfold execute_run. rewrite Hp. cbn [andb].
  destruct (execute_fallback_cwd E c (log (EvShell c) w3)) as [Ha Hb].
  rewrite C in Ha, Hb. split; [exact Ha|]. split; [exact Hb|].
  intros Hn. exfalso. apply Hn.
  destruct (execute_fallback_trace E c (log (EvShell c) w3)) as (evs & Ht & _).
  rewrite Ht. apply in_or_app. right. left. reflexivity.
Qed.

Lemma execute_moves_only_into_directories_witness :
  (os_cwd (snd (execute (quiet_env true) default_config
                  (TerminalTool_init default_config true false) "cd /tmp" false
                  Demo.world0))
   = os_cwd Demo.world0
   \/ entered (quiet_env true)
        (os_cwd (snd (execute (quiet_env true) default_config
                        (TerminalTool_init default_config true false) "cd /tmp" false
                        Demo.world0))))
  /\ (is_directory_change "cd /tmp" = true ->
      fst (fst (fst (execute (quiet_env true) default_config
                       (TerminalTool_init default_config true false) "cd /tmp" false
                       Demo.world0))) = false ->
      os_cwd (snd (execute (quiet_env true) default_config
                     (TerminalTool_init default_config true false) "cd /tmp" false
                     Demo.world0))
      = os_cwd Demo.world0)
  /\ (~ In (EvShell "cd /tmp")
          (trace (snd (execute (quiet_env true) default_config
                         (TerminalTool_init default_config true false) "cd /tmp" false
                         Demo.world0))) ->
      os_cwd (snd (execute (quiet_env true) default_config
                     (TerminalTool_init default_config true false) "cd /tmp" false
                     Demo.world0))
      = os_cwd Demo.world0).
Proof.
  apply (execute_moves_only_into_directories (quiet_env true) default_config
           (TerminalTool_init default_config true false) "cd /tmp" false Demo.world0).
  reflexivity.
Defined.

Example cd_moves_the_process :
  os_cwd (snd (execute (quiet_env true) default_config
                 (TerminalTool_init default_config true false) "cd /tmp" false
                 Demo.world0)) = "/tmp".
Proof. vm_compute. reflexivity. Qed.

(** *** The completion mode *)

Lemma process_slash_command_none P cfg w app user_input app1 :
  (forall a, fst (handle_config_command P a) <> SlashNone) ->
  (forall a arg, fst (handle_export_command P a arg) <> SlashNone) ->
  process_slash_command P cfg w app user_input = (SlashNone, app1) ->
  startswith user_input "/" = false /\ app1 = app.
Proof.
  intros Hc He. unfold process_slash_command.
  destruct (startswith user_input "/"); cbn [negb];
    [|intros H; inversion H; split; reflexivity].
  destruct (slash_parts user_input) as [[word arg]|]; [|discriminate].
  cbv zeta beta.
  destruct (String.eqb (lower word) "help"); [discriminate|].
  destruct (String.eqb (lower word) "config").
  { intros H. exfalso. apply (Hc app). rewrite H. reflexivity. }
  assert (Hagent : forall app2,
            (if negb (String.eqb (app_mode app) "agent") then (SlashHandled, app)
             else recreate_agent P cfg w app2 "agent" SlashHandled)
            = (SlashNone, app1) -> False).
  { intros app2. destruct (negb _); [discriminate|].
    destruct (recreate_agent_agent P cfg w app2 SlashHandled) as (a & h & -> & _).
    discriminate. }
  destruct (String.eqb (lower word) "confirm"); [intros H; destruct (Hagent _ H)|].
  destruct (String.eqb (lower word) "auto"); [intros H; destruct (Hagent _ H)|].
  destruct (String.eqb (lower word) "interactive"); [intros H; destruct (Hagent _ H)|].
  destruct (String.eqb (lower word) "clean"); [discriminate|].
  destruct (String.eqb (lower word) "export").
  { intros H. exfalso. apply (He app arg). rewrite H. reflexivity. }
  destruct (_ || _)%bool.
  { unfold switch_mode. destruct (String.eqb (lower word) (app_mode app)); [discriminate|].
    unfold recreate_agent. destruct (create_agent _ _ _ _ _); discriminate. }
  destruct (String.eqb (lower word) "exit"); discriminate.
Qed.

(** X22.  In the completion mode a line of ASCII text reaches the shell
    only as it was typed, only when [validate_command] accepts it, and
    never when it begins with a slash: such a line is taken for a control
    command, known or not, so a command given by its absolute path is not
    run.  The only questions asked on the way are the one about sudo and
    the one about a high risk. *)
Theorem complete_mode_runs_only_validated_lines
  (P : Program) (cfg : Config) (E : Env) (app : MiniShellAgent)
  (user_input : string) (w : World) :
  is_ascii user_input = true ->
  (forall a, fst (handle_config_command P a) <> SlashNone) ->
  (forall a arg, fst (handle_export_command P a arg) <> SlashNone) ->
  exists evs,
    trace (snd (complete_mode_step P cfg E app user_input w)) = (evs ++ trace w)%list
    /\ Forall unattended evs
    /\ (forall c, In (EvShell c) evs ->
          c = user_input
          /\ startswith user_input "/" = false
          /\ fst (validate_command cfg (complete_tool app) user_input) = true
          /\ (safe_mode (complete_tool app) && is_dangerous_command cfg user_input)%bool
             = false).
Proof.
  intros _ Hc He.
  assert (Hnil : forall r a, exists evs,
            trace (snd (r : option SlashResult, a : MiniShellAgent, w)) = (evs ++ trace w)%list
            /\ Forall unattended evs
            /\ (forall c, In (EvShell c) evs ->
                  c = user_input
                  /\ startswith user_input "/" = false
                  /\ fst (validate_command cfg (complete_tool app) user_input) = true
                  /\ (safe_mode (complete_tool app)
                      && is_dangerous_command cfg user_input)%bool = false)).
  { intros r a. exists []. split; [reflexivity|]. split; [constructor|]. intros c []. }
  unfold complete_mode_step.
  destruct (is_empty user_input); [apply Hnil|].
  destruct (process_slash_command P cfg w app user_input) as [slash_result app1] eqn:Hp.
  destruct slash_result; try apply Hnil.
  destruct (process_slash_command_none P cfg w app user_input app1 Hc He Hp) as [Hs ->].
  destruct (validate_command cfg (complete_tool app) user_input) as [is_valid msg] eqn:Hv.
  destruct is_valid; cbn [negb]; [|apply Hnil].
  destruct (execute_unattended E cfg (complete_tool app) user_input w) as (evs & Ht & Hu).
  destruct (execute_gated E cfg (complete_tool app) user_input false w) as (evs1 & Ht1 & Hg).
  assert (Heq1 : evs1 = evs).
  { rewrite Ht in Ht1. apply app_inv_tail in Ht1. symmetry. exact Ht1. }
  subst evs1.
  assert (Hsame : forall c, In (EvShell c) evs -> c = user_input).
  { intros c Hin.
    destruct (execute_questions E cfg (complete_tool app) user_input false w)
      as [(childs & Hq & Hch)|(stderr & confs & _ & Hq & _ & Hall)];
      rewrite Ht in Hq; apply app_inv_tail in Hq || (rewrite !app_assoc in Hq;
        apply app_inv_tail in Hq); subst evs.
    - apply in_app_or in Hin. destruct Hin as [Hin|Hin].
      + apply in_app_or in Hin. destruct Hin as [Hin|Hin].
        * exfalso. exact (child_events_no_shell childs c Hch Hin).
        * destruct Hin as [Hin|[]]. inversion Hin. reflexivity.
      + exfalso. unfold questions, asked in Hin.
        repeat match type of Hin with
               | In _ (_ ++ _) => apply in_app_or in Hin; destruct Hin as [Hin|Hin]
               | In _ (if ?b then _ else _) => destruct b
               | In _ [_] => destruct Hin as [Hin|[]]; discriminate Hin
               | In _ [] => destruct Hin
               end.
    - exfalso. destruct (Hall _ Hin) as (a & [H|[H|[_ H]]]); discriminate H. }
  destruct (execute E cfg (complete_tool app) user_input false w) as [res w1].
  cbn [snd] in *. exists evs. split; [exact Ht|]. split; [exact Hu|].
  intros c Hin. pose proof (Hsame c Hin) as ->.
  destruct (Hg _ Hin) as [Hd Hval]. auto.
Qed.

Lemma complete_mode_runs_only_validated_lines_witness :
  exists evs,
    trace (snd (complete_mode_step demo_program default_config (quiet_env true)
                  demo_app "/bin/ls" Demo.world0))
    = (evs ++ trace Demo.world0)%list
    /\ Forall unattended evs
    /\ (forall c, In (EvShell c) evs ->
          c = "/bin/ls"
          /\ startswith "/bin/ls" "/" = false
          /\ fst (validate_command default_config (complete_tool demo_app) "/bin/ls") = true
          /\ (safe_mode (complete_tool demo_app)
              && is_dangerous_command default_config "/bin/ls")%bool = false).
Proof.
  apply (complete_mode_runs_only_validated_lines demo_program default_config
           (quiet_env true) demo_app "/bin/ls" Demo.world0).
  - reflexivity.
  - intros a. discriminate.
  - intros a arg. discriminate.
Defined.

(** *** A command after a separator *)

Lemma any_app {A : Type} (p : A -> bool) (l1 l2 : list A) :
  any p l2 = true -> any p (l1 ++ l2) = true.
Proof.
  intros H. induction l1 as [|x l1 IH]; [exact H|].
  change (any p ((x :: l1) ++ l2)) with (if p x then true else any p (l1 ++ l2)).
  destruct (p x); [reflexivity|exact IH].
Qed.

(** The pieces of a split at a character: the text up to the character
    comes first. *)
Lemma split_go_head ch s : forall cur,
  exists r, split_go (String ch EmptyString) O cur s = rev_acc cur (until ch s) :: r.
Proof.
  induction s as [|c s IH]; intros cur; [eexists; reflexivity|].
  cbn [split_go until]. rewrite startswith_cons.
  destruct (Ascii.eqb ch c).
  - assert (Hs : startswith s "" = true) by (destruct s; reflexivity).
    rewrite Hs. eexists. reflexivity.
  - destruct (IH (String c cur)) as (r & ->). eexists. reflexivity.
Qed.

(** What follows a separating character is split on its own. *)
Lemma split_go_after ch b a : forall cur,
  exists pre x,
    split_go (String ch EmptyString) O cur (a ++ String ch b)
    = ((x :: pre) ++ split_go (String ch EmptyString) O EmptyString b)%list.
Proof.
  assert (Hnil : forall s, startswith s "" = true) by (intros s; destruct s; reflexivity).
  induction a as [|c a IH]; intros cur.
  - change ("" ++ String ch b) with (String ch b). cbn [split_go].
    rewrite startswith_cons, Ascii.eqb_refl, Hnil. exists [], (rev_acc cur ""). reflexivity.
  - change (String c a ++ String ch b) with (String c (a ++ String ch b)).
    cbn [split_go]. rewrite startswith_cons.
    destruct (Ascii.eqb ch c).
    + rewrite Hnil. cbn [String.length Nat.pred].
      destruct (IH "") as (pre & x & ->). exists (x :: pre), (rev_acc cur ""). reflexivity.
    + destruct (IH (String c cur)) as (pre & x & ->). exists pre, x. reflexivity.
Qed.

Lemma lstrip_until ch s :
  isspace ch = false -> lstrip (until ch s) = until ch (lstrip s).
Proof.
  intros Hch. induction s as [|c s IH]; [reflexivity|].
  cbn [until lstrip]. destruct (Ascii.eqb ch c) eqn:He.
  - apply Ascii.eqb_eq in He. subst c. rewrite Hch. cbn [until].
    rewrite Ascii.eqb_refl. reflexivity.
  - cbn [lstrip]. destruct (isspace c); [exact IH|].
    cbn [until]. rewrite He. reflexivity.
Qed.

Lemma lower_lstrip s : lower (lstrip s) = lstrip (lower s).
Proof.
  induction s as [|c s IH]; [reflexivity|].
  change (lower (String c s)) with (String (lower_char c) (lower s)).
  cbn [lstrip].
  assert (Hc : isspace (lower_char c) = isspace c).
  { destruct c as [[] [] [] [] [] [] [] []]; reflexivity. }
  rewrite Hc. destruct (isspace c); [exact IH|reflexivity].
Qed.

Lemma startswith_rm s :
  startswith (lower s) "rm" = true ->
  exists x y r, s = String x (String y r)
                /\ lower_char x = "r"%char /\ lower_char y = "m"%char.
Proof.
  destruct s as [|x [|y r]]; try discriminate.
  - change (lower (String x "")) with (String (lower_char x) "").
    rewrite startswith_cons. destruct (Ascii.eqb "r" (lower_char x)); discriminate.
  - change (lower (String x (String y r)))
      with (String (lower_char x) (String (lower_char y) (lower r))).
    rewrite !startswith_cons.
    destruct (Ascii.eqb "r" (lower_char x)) eqn:Hx; [|discriminate].
    destruct (Ascii.eqb "m" (lower_char y)) eqn:Hy; [|discriminate].
    intros _. apply Ascii.eqb_eq in Hx, Hy. exists x, y, r. auto.
Qed.

Lemma lower_char_r x : lower_char x = "r"%char -> x = "r"%char \/ x = "R"%char.
Proof.
  destruct x as [[] [] [] [] [] [] [] []]; vm_compute; intros H;
    first [discriminate H|left; reflexivity|right; reflexivity].
Qed.

Lemma lower_char_m x : lower_char x = "m"%char -> x = "m"%char \/ x = "M"%char.
Proof.
  destruct x as [[] [] [] [] [] [] [] []]; vm_compute; intros H;
    first [discriminate H|left; reflexivity|right; reflexivity].
Qed.

(** A piece that begins, after white space, with [rm] in any case is
    found by the test of [validate_command]. *)
Lemma piece_starts_with_rm ch b :
  (ch = ";" \/ ch = "`")%char ->
  startswith (lower (lstrip b)) "rm" = true ->
  startswith (lower (strip (until ch b))) "rm" = true.
Proof.
  intros Hch H.
  assert (Hsp : isspace ch = false) by (destruct Hch as [->| ->]; reflexivity).
  destruct (startswith_rm _ H) as (x & y & r & Hb & Hx & Hy).
  unfold strip. rewrite (lstrip_until ch b Hsp), Hb.
  assert (Hxc : Ascii.eqb ch x = false).
  { destruct (lower_char_r x Hx) as [->| ->]; destruct Hch as [->| ->]; reflexivity. }
  assert (Hyc : Ascii.eqb ch y = false).
  { destruct (lower_char_m y Hy) as [->| ->]; destruct Hch as [->| ->]; reflexivity. }
  cbn [until]. rewrite Hxc, Hyc.
  assert (Hs : startswith (rstrip (String x (String y (until ch r))))
                 (String x (String y "")) = true).
  { apply startswith_rstrip.
    - destruct (lower_char_m y Hy) as [->| ->]; reflexivity.
    - rewrite !startswith_cons, !Ascii.eqb_refl. destruct (until ch r); reflexivity. }
  destruct (rstrip (String x (String y (until ch r)))) as [|x' [|y' r']]; try discriminate.
  - rewrite startswith_cons in Hs. destruct (Ascii.eqb x x'); discriminate.
  - rewrite !startswith_cons in Hs.
    destruct (Ascii.eqb x x') eqn:H1; [|discriminate].
    destruct (Ascii.eqb y y') eqn:H2; [|discriminate].
    apply Ascii.eqb_eq in H1, H2. subst x' y'.
    change (lower (String x (String y r')))
      with (String (lower_char x) (String (lower_char y) (lower r'))).
    rewrite Hx, Hy. destruct (lower r'); reflexivity.
Qed.

Lemma contains_app_r p s m : contains s m = true -> contains (p ++ s) m = true.
Proof.
  intros H. induction p as [|c p IH]; [exact H|].
  apply (contains_cons c (p ++ s) m), IH.
Qed.

Lemma lstrip_suffix s : exists ws, s = ws ++ lstrip s.
Proof.
  induction s as [|c s (ws & IH)]; [exists ""; reflexivity|].
  cbn [lstrip]. destruct (isspace c).
  - exists (String c ws). simpl. rewrite <- IH. reflexivity.
  - exists "". reflexivity.
Qed.

(** X23.  In safe mode, a command in which a semicolon or a backquote is
    followed, after any ASCII white space, by [rm] in any mix of upper and
    lower case is never run, wherever the separator stands and whatever
    comes before and after: [validate_command] refuses it, and [execute]
    asks no question and touches nothing; what it returns for a command
    without markup is a failure. *)
Theorem rm_after_a_separator_is_refused
  (cfg : Config) (tl : TerminalTool) (ch : ascii) (a b : string) :
  safe_mode tl = true ->
  (ch = ";" \/ ch = "`")%char ->
  startswith (lower (lstrip b)) "rm" = true ->
  fst (validate_command cfg tl (a ++ String ch b)) = false
  /\ (forall E rc w,
        snd (execute E cfg tl (a ++ String ch b) rc w) = w
        /\ (no_markup (a ++ String ch b) = true ->
            fst (fst (fst (execute E cfg tl (a ++ String ch b) rc w))) = false)).
Proof.
  intros Hsafe Hch Hrm.
  assert (Hinj : injection_suspected tl (a ++ String ch b) = true).
  { unfold injection_suspected. apply any_true_iff.
    exists (String ch "", "rm"). split.
    { destruct Hch as [->| ->]; simpl; auto. }
    cbn [fst snd]. rewrite Hsafe.
    assert (H1 : contains (a ++ String ch b) (String ch "") = true).
    { exact (contains_app a (String ch "") b). }
    assert (H2 : contains (lower (a ++ String ch b)) "rm" = true).
    { destruct (lstrip_suffix b) as (ws & Hb).
      destruct (startswith_rm _ Hrm) as (x & y & r & Hl & Hx & Hy).
      rewrite Hb, Hl.
      replace (a ++ String ch (ws ++ String x (String y r)))
        with ((a ++ String ch ws) ++ String x (String y r)).
      2:{ rewrite append_assoc. reflexivity. }
      rewrite lower_app. apply contains_app_r.
      change (lower (String x (String y r)))
        with (String (lower_char x) (String (lower_char y) (lower r))).
      rewrite Hx, Hy. apply contains_here.
      rewrite !startswith_cons, !Ascii.eqb_refl. destruct (lower r); reflexivity. }
    rewrite H1, H2. cbn [andb].
    unfold split. destruct (split_go_after ch b a "") as (pre & x & ->).
    cbn [List.tl List.app]. apply any_app.
    destruct (split_go_head ch b "") as (r & ->). cbn [rev_acc].
    match goal with
    | |- any ?f (?piece :: r) = true =>
        change (any f (piece :: r)) with (if f piece then true else any f r)
    end.
    cbv beta. rewrite (piece_starts_with_rm ch b Hch Hrm). reflexivity. }
  assert (Hv : fst (validate_command cfg tl (a ++ String ch b)) = false)
    by (apply validate_rejects_injection, Hinj).
  split; [exact Hv|]. intros E rc w. unfold execute.
  destruct (_ && _)%bool; [split; [reflexivity|intros _; reflexivity]|].
  destruct (validate_command cfg tl (a ++ String ch b)) as [is_valid msg].
  cbn [fst] in Hv. subst is_valid. split; [reflexivity|intros _; reflexivity].
Qed.

Lemma rm_after_a_separator_is_refused_witness :
  fst (validate_command default_config (TerminalTool_init default_config true false)
         ("echo done" ++ String ";" "  Rm notes.txt")) = false
  /\ (forall E rc w,
        snd (execute E default_config (TerminalTool_init default_config true false)
               ("echo done" ++ String ";" "  Rm notes.txt") rc w) = w
        /\ (no_markup ("echo done" ++ String ";" "  Rm notes.txt") = true ->
            fst (fst (fst (execute E default_config
                             (TerminalTool_init default_config true false)
                             ("echo done" ++ String ";" "  Rm notes.txt") rc w)))
            = false)).
Proof.
  apply (rm_after_a_separator_is_refused default_config
           (TerminalTool_init default_config true false) ";" "echo done" "  Rm notes.txt").
  - reflexivity.
  - left. reflexivity.
  - reflexivity.
Defined.
